(** * Dependency Check data task: a shallow embedding and its properties

    The development follows the TypeScript sources of the task:

    - [dependency-check-data-task.ts], in its two revisions: the one that
      only downloads and installs the tool (module [DownloadOnly]) and
      the one that also runs the data update (module [WithUpdate]);
    - [dependency-check-options.ts] and the options builder (modules
      [DependencyCheckOptions] and [DependencyCheckOptionsBuilder]).

    JavaScript strings are modelled by [string]: one [ascii] stands for
    one UTF-16 code unit below 256.  Effects (console, file system, HTTP,
    child processes, task variables and the task result) are threaded
    through an explicit [World]; what the outside world answers is read
    from an [Env] of oracles. *)

From Stdlib Require Import ZArith Ascii String List Bool Lia.
From Stdlib Require DecimalString.
From stdpp Require Import base option list strings gmap sorting.

Local Open Scope string_scope.
Local Open Scope list_scope.

(** ** JavaScript string primitives *)

Module JsString.

Definition code (c : ascii) : N := N_of_ascii c.

(** [String.prototype.toLowerCase] on code units below 256: the ASCII
    capitals and the Latin-1 capitals (all of U+00C0..U+00DE but the
    multiplication sign U+00D7) move up by 32. *)
Definition lower_char (c : ascii) : ascii :=
  let n := code c in
  if ((65 <=? n) && (n <=? 90))%N then ascii_of_N (n + 32)
  else if ((192 <=? n) && (n <=? 222) && negb (n =? 215))%N
       then ascii_of_N (n + 32)
  else c.

Fixpoint toLowerCase (s : string) : string :=
  match s with
  | EmptyString => EmptyString
  | String c s' => String (lower_char c) (toLowerCase s')
  end.

(** White space and line terminators removed by [trim]: TAB, LF, VT,
    FF, CR, SP, NBSP. *)
Definition is_space (c : ascii) : bool :=
  let n := code c in
  (((9 <=? n) && (n <=? 13)) || (n =? 32) || (n =? 160))%N.

Fixpoint trimStart (s : string) : string :=
  match s with
  | EmptyString => EmptyString
  | String c s' => if is_space c then trimStart s' else s
  end.

Fixpoint trimEnd (s : string) : string :=
  match s with
  | EmptyString => EmptyString
  | String c s' =>
      match trimEnd s' with
      | EmptyString => if is_space c then EmptyString else String c EmptyString
      | t => String c t
      end
  end.

Definition trim (s : string) : string := trimEnd (trimStart s).

(** [s?.trim()] on a value of type [string | undefined]. *)
Definition trim_opt (s : option string) : option string := trim <$> s.

(** Truthiness of a [string | undefined]: defined and not empty. *)
Definition truthy (s : option string) : bool :=
  match s with
  | Some (String _ _) => true
  | _ => false
  end.

(** [a == b] on values of type [string | undefined]. *)
Definition loose_eq (a b : option string) : bool := bool_decide (a = b).

(** Interpolation of a [string | undefined] in a template literal. *)
Definition show (s : option string) : string := default "undefined" s.

(** The cooked value of the text of a template literal.  A backslash
    before a character that starts no escape sequence is dropped and
    the character stands for itself; the single-character escapes are
    translated.  Hexadecimal, Unicode and octal escapes do not occur
    in the program and are left as they are. *)
Definition cook_escape (c : ascii) : option ascii :=
  if bool_decide (c = "n"%char) then Some (ascii_of_N 10)
  else if bool_decide (c = "t"%char) then Some (ascii_of_N 9)
  else if bool_decide (c = "r"%char) then Some (ascii_of_N 13)
  else if bool_decide (c = "b"%char) then Some (ascii_of_N 8)
  else if bool_decide (c = "f"%char) then Some (ascii_of_N 12)
  else if bool_decide (c = "v"%char) then Some (ascii_of_N 11)
  else if bool_decide (c = "x"%char) || bool_decide (c = "u"%char)
          || ((48 <=? code c) && (code c <=? 57))%N then None
  else Some c.

Fixpoint cook (raw : string) : string :=
  match raw with
  | EmptyString => EmptyString
  | String c rest =>
      if bool_decide (c = "\"%char) then
        match rest with
        | EmptyString => String c EmptyString
        | String e rest' =>
            match cook_escape e with
            | Some v => String v (cook rest')
            | None => String c (String e (cook rest'))
            end
        end
      else String c (cook rest)
  end.

End JsString.

(** ** Regular expressions: the fragment of the pattern language used *)

Module Regex.
Import JsString.

Inductive regex : Type :=
| Empty                         (* the empty alternative *)
| Chr (c : ascii)               (* a pattern character *)
| AnyChar                       (* [.] *)
| Digit                         (* [\d] *)
| AssertStart                   (* [^] *)
| AssertEnd                     (* [$] *)
| Seq (r1 r2 : regex)
| Alt (r1 r2 : regex)
| Group (r : regex).

(** *** Parsing a pattern string ([new RegExp(pattern, flags)])

    Disjunction, alternative, the assertions [^] and [$], the atoms
    [.], [\d], an escaped syntax character, a parenthesised group and
    a plain pattern character.  Quantifiers, character classes and the
    other escapes are outside the fragment: the parser answers [None]. *)

Definition is_syntax_char (c : ascii) : bool :=
  bool_decide (c ∈ ["^"; "$"; "\"; "."; "*"; "+"; "?"; "("; ")"; "[";
                    "]"; "{"; "}"; "|"]%char).

Fixpoint parse_disj (fuel : nat) (s : string) : option (regex * string) :=
  match fuel with
  | O => None
  | S fuel' =>
      let fix parse_alt (n : nat) (s : string) : option (regex * string) :=
        match n with
        | O => None
        | S n' =>
            match s with
            | EmptyString => Some (Empty, s)
            | String c rest =>
                if bool_decide (c = "|"%char) || bool_decide (c = ")"%char)
                then Some (Empty, s)
                else
                  let term :=
                    if bool_decide (c = "^"%char) then Some (AssertStart, rest)
                    else if bool_decide (c = "$"%char) then Some (AssertEnd, rest)
                    else if bool_decide (c = "."%char) then Some (AnyChar, rest)
                    else if bool_decide (c = "("%char) then
                      match parse_disj fuel' rest with
                      | Some (r, String ")" rest') => Some (Group r, rest')
                      | _ => None
                      end
                    else if bool_decide (c = "\"%char) then
                      match rest with
                      | String e rest' =>
                          if bool_decide (e = "d"%char) then Some (Digit, rest')
                          else if is_syntax_char e || bool_decide (e = "/"%char)
                          then Some (Chr e, rest')
                          else None
                      | EmptyString => None
                      end
                    else if is_syntax_char c then None
                    else Some (Chr c, rest) in
                  match term with
                  | Some (t, rest1) =>
                      match parse_alt n' rest1 with
                      | Some (Empty, rest2) => Some (t, rest2)
                      | Some (r, rest2) => Some (Seq t r, rest2)
                      | None => None
                      end
                  | None => None
                  end
            end
        end in
      match parse_alt fuel' s with
      | Some (a, String "|" rest) =>
          match parse_disj fuel' rest with
          | Some (d, rest') => Some (Alt a d, rest')
          | None => None
          end
      | r => r
      end
  end.

Definition parse (pattern : string) : option regex :=
  match parse_disj (2 + String.length pattern) pattern with
  | Some (r, EmptyString) => Some r
  | _ => None
  end.

(** *** Matching *)

Definition is_line_terminator (c : ascii) : bool :=
  ((code c =? 10) || (code c =? 13))%N.

Definition is_digit (c : ascii) : bool :=
  ((48 <=? code c) && (code c <=? 57))%N.

(** [Canonicalize] for the [i] flag without the [u] flag: the upper
    case of the code unit when that is a single code unit, except that
    a code unit of 128 or more never maps below 128.  The result can
    leave the range of [ascii], so it is a number. *)
Definition canonicalize (ignoreCase : bool) (c : ascii) : N :=
  let n := code c in
  if negb ignoreCase then n
  else if ((97 <=? n) && (n <=? 122))%N then (n - 32)%N
  else if ((224 <=? n) && (n <=? 254) && negb (n =? 247))%N then (n - 32)%N
  else if (n =? 255)%N then 376%N
  else if (n =? 181)%N then 924%N
  else n.

(** The backtracking matcher, in continuation-passing style: [i] is
    the index reached in the subject and [s] what is left of it. *)
Fixpoint matches (ic : bool) (r : regex) (k : nat → string → bool)
    (i : nat) (s : string) : bool :=
  match r with
  | Empty => k i s
  | Chr c =>
      match s with
      | String a s' =>
          (canonicalize ic a =? canonicalize ic c)%N && k (S i) s'
      | EmptyString => false
      end
  | AnyChar =>
      match s with
      | String a s' => negb (is_line_terminator a) && k (S i) s'
      | EmptyString => false
      end
  | Digit =>
      match s with
      | String a s' => is_digit a && k (S i) s'
      | EmptyString => false
      end
  | AssertStart => Nat.eqb i 0 && k i s
  | AssertEnd => match s with EmptyString => k i s | _ => false end
  | Seq r1 r2 => matches ic r1 (matches ic r2 k) i s
  | Alt r1 r2 => matches ic r1 k i s || matches ic r2 k i s
  | Group r1 => matches ic r1 k i s
  end.

(** [RegExp.prototype.test] on a freshly built expression: [lastIndex]
    starts at 0 and the match is tried at every index up to the length
    of the subject (neither flag [g] nor [i] makes it sticky). *)
Fixpoint exec_from (ic : bool) (r : regex) (i : nat) (s : string) : bool :=
  matches ic r (λ _ _, true) i s
  || match s with
     | String _ s' => exec_from ic r (S i) s'
     | EmptyString => false
     end.

Record RegExp := { source : regex; ignoreCase : bool; global : bool }.

Definition has_flag (f : ascii) (flags : string) : bool :=
  bool_decide (f ∈ list_ascii_of_string flags).

(** [new RegExp(pattern, flags)]; [None] stands for a pattern outside
    the fragment. *)
Definition new_RegExp (pattern flags : string) : option RegExp :=
  r ← parse pattern;
  Some {| source := r;
          ignoreCase := has_flag "i" flags;
          global := has_flag "g" flags |}.

Definition test (re : RegExp) (s : string) : bool :=
  exec_from (ignoreCase re) (source re) 0 s.

End Regex.

(** ** Constants *)

(** Modelled from the spec: the module [dependency-check-constants]
    ([DCConst]) is not part of the sources at hand.  Its three constants
    take the values that the download-only revision declares locally
    ([releaseApi], [dependencyCheckVersionLatest]) and the folder name
    [dependency-check] of the install directory. *)
Module DCConst.
Definition DependencyCheckVersionLatest : string := "latest".
Definition DependencyCheckReleaseApi : string :=
  "https://api.github.com/repos/jeremylong/DependencyCheck/releases".
Definition DependencyCheckFolderName : string := "dependency-check".
End DCConst.

(** The constants of the download-only revision. *)
Definition releaseApi : string :=
  "https://api.github.com/repos/jeremylong/DependencyCheck/releases".
Definition dependencyCheckVersionLatest : string := "latest".

(** ** Version validation *)

(** The pattern is a template literal: its text is cooked before the
    regular expression is built from it. *)
Definition versionPattern : string :=
  JsString.cook "^(\d\.\d\.\d|" +:+ dependencyCheckVersionLatest
    +:+ JsString.cook ")$".

Definition isVersionFormatValid (version : string) : bool :=
  match Regex.new_RegExp versionPattern "gi" with
  | Some versionRegex => Regex.test versionRegex version
  | None => false
  end.

(** What the cooked pattern accepts, written out on the subject: five
    code units [d?d?d] with a letter [d] of either case at the odd places
    and anything but a line terminator between them, or the word
    [latest] in any letter case. *)
Definition same_letter (a c : ascii) : bool :=
  bool_decide (JsString.lower_char a = c).

Definition accepted_by_cooked_pattern (v : string) : bool :=
  match v with
  | String a (String x (String b (String y (String c EmptyString)))) =>
      same_letter a "d" && negb (Regex.is_line_terminator x)
      && same_letter b "d" && negb (Regex.is_line_terminator y)
      && same_letter c "d"
  | _ => false
  end
  || bool_decide (JsString.toLowerCase v = dependencyCheckVersionLatest).

(** The format that the description of the validator asks for: the
    word [latest] in any letter case, or three single digits separated
    by dots.  It is what the text of the pattern denotes when its
    backslashes are kept. *)
Definition uncookedPattern : string :=
  "^(\d\.\d\.\d|" +:+ dependencyCheckVersionLatest +:+ ")$".

Definition validateFormat_spec (version : string) : bool :=
  match version with
  | String a (String x (String b (String y (String c EmptyString)))) =>
      Regex.is_digit a && bool_decide (x = "."%char)
      && Regex.is_digit b && bool_decide (y = "."%char)
      && Regex.is_digit c
  | _ => false
  end
  || bool_decide (JsString.toLowerCase version = dependencyCheckVersionLatest).

(** ** Paths and the file-system model *)

Module Path.

(** The components of a path: the text between slashes. *)
Fixpoint split_at_slash (cur : string) (s : string) : list string :=
  match s with
  | EmptyString => [cur]
  | String c s' =>
      if bool_decide (c = "/"%char) then cur :: split_at_slash "" s'
      else split_at_slash (cur +:+ String c "") s'
  end.

(** Normalisation, as [path.normalize] does it: empty components and
    [.] vanish, [..] removes the component before it. *)
Definition step (acc : list string) (c : string) : list string :=
  if bool_decide (c = "") || bool_decide (c = ".") then acc
  else if bool_decide (c = "..") then removelast acc
  else acc ++ [c].

Definition segments (p : string) : list string :=
  fold_left step (split_at_slash "" p) [].

Definition render (l : list string) : string :=
  "/" +:+ String.concat "/" l.

(** [q] is [p] or lies beneath it. *)
Definition under (p q : string) : Prop := segments p `prefix_of` segments q.

(** [q] lies beneath [p] and is not [p] itself. *)
Definition strictly_under (p q : string) : Prop :=
  under p q ∧ segments p ≠ segments q.

Definition same (p q : string) : Prop := segments p = segments q.

#[global] Instance under_dec p q : Decision (under p q).
Proof. unfold under. apply _. Defined.

#[global] Instance same_dec p q : Decision (same p q).
Proof. unfold same. apply _. Defined.

Definition ancestors (p : string) : list string :=
  (λ n, render (take n (segments p))) <$> seq 1 (length (segments p) - 1).

End Path.

(** ** Glob patterns of [tl.findMatch]: literal names, [*suffix], [**] *)

Module Glob.

Inductive segment : Type :=
| Lit (s : string)
| Suffix (s : string)          (* [*] followed by literal text *)
| GlobStar.                    (* [**] *)

(** The fragment of the pattern language that the task uses; other
    wildcards are outside it and read as literal text. *)
Definition parse_segment (s : string) : segment :=
  if bool_decide (s = "**") then GlobStar
  else match s with
       | String "*" rest => Suffix rest
       | _ => Lit s
       end.

Definition parse (pattern : string) : list segment :=
  parse_segment <$> Path.segments pattern.

Fixpoint ends_with (suffix s : string) : bool :=
  bool_decide (s = suffix)
  || match s with
     | String _ s' => ends_with suffix s'
     | EmptyString => false
     end.

(** The two options of minimatch that matter for the patterns of the
    task.  An option that the caller's object leaves out is not set. *)
Record MatchOptions := { matchBase : bool; dot : bool }.

Definition leading_dot (f : string) : bool :=
  match f with String "." _ => true | _ => false end.

(** One component against one component of the pattern.  A leading [*]
    does not match the dot of a name that starts with one, unless the
    option [dot] is set. *)
Definition segment_match (dot : bool) (p : segment) (f : string) : bool :=
  match p with
  | Lit s => bool_decide (f = s)
  | Suffix s => ends_with s f && (dot || negb (leading_dot f))
  | GlobStar => false
  end.

Definition is_dots (f : string) : bool :=
  bool_decide (f = ".") || bool_decide (f = "..").

(** What [**] never swallows: [.] and [..], and a name with a leading
    dot unless the option [dot] is set. *)
Definition unswallowed (dot : bool) (f : string) : bool :=
  is_dots f || (negb dot && leading_dot f).

(** [Minimatch.matchOne]: component by component; a final [**]
    swallows what is left of a file that is not exhausted, an inner [**]
    tries every non-empty rest of the file. *)
Fixpoint matchOne (dot : bool) (pattern : list segment) (file : list string)
    : bool :=
  match pattern with
  | [] => bool_decide (file = [])
  | GlobStar :: rest =>
      match file, rest with
      | [], _ => false
      | _ :: _, [] => forallb (λ f, negb (unswallowed dot f)) file
      | _ :: _, _ :: _ =>
          (fix swallow (file : list string) : bool :=
             match file with
             | [] => false
             | f :: file' =>
                 matchOne dot rest file
                 || (negb (unswallowed dot f) && swallow file')
             end) file
      end
  | p :: rest =>
      match file with
      | [] => false
      | f :: file' => segment_match dot p f && matchOne dot rest file'
      end
  end.

(** [minimatch(file, pattern, options)]: a one-component pattern is
    compared with the base name when [matchBase] is set. *)
Definition minimatch (options : MatchOptions) (pattern : list segment)
    (file : list string) : bool :=
  match matchBase options, pattern, last file with
  | true, [_], Some base => matchOne (dot options) pattern [base]
  | _, _, _ => matchOne (dot options) pattern file
  end.

Fixpoint negate_count (pattern : string) : nat * string :=
  match pattern with
  | String "!" rest => let '(n, body) := negate_count rest in (S n, body)
  | _ => (0, pattern)
  end.

Definition has_slash (s : string) : bool :=
  bool_decide ("/"%char ∈ list_ascii_of_string s).

Definition is_rooted (s : string) : bool :=
  match s with String "/" _ => true | _ => false end.

(** The pattern that an include or exclude entry stands for once it is
    placed under [defaultRoot]; a base-name pattern stays as it is. *)
Definition rooted (matchBase : bool) (defaultRoot body : string)
    : list segment :=
  if matchBase && negb (is_rooted body) && negb (has_slash body)
  then parse body
  else if is_rooted body then parse body
  else (Lit <$> Path.segments defaultRoot) ++ parse body.

End Glob.

(** ** Errors, events and the world *)

Record Error := { error_name : string; message : string }.

Definition mkError (msg : string) : Error :=
  {| error_name := "Error"; message := msg |}.
Definition mkTypeError (msg : string) : Error :=
  {| error_name := "TypeError"; message := msg |}.

Inductive TaskResult : Type := Succeeded | Failed.

Inductive ToolArgs : Type :=
| Arg (a : string)               (* [.arg(a)] *)
| Line (l : string).             (* [.line(l)] *)

Record ExecOptions := { failOnStdErr : bool; ignoreReturnCode : bool }.

Definition default_exec_options : ExecOptions :=
  {| failOnStdErr := false; ignoreReturnCode := false |}.

Inductive Event : Type :=
| ConsoleLog (msg : string)
| ConsoleError (msg : string)
| HttpGet (url : string)
| FileSaved (path content : string)
| MkdirP (path : string)
| RmRF (path : string)
| ExtractAll (zip target : string)
| Exec (tool : string) (args : ToolArgs) (opts : ExecOptions)
| SetVariable (name value : string)
| SetResult (result : TaskResult) (msg : string) (done : bool).

Record World := {
  fs : list string;                  (* the paths that exist *)
  variables : gmap string string;    (* pipeline variables *)
  trace : list Event;                (* what happened, oldest first *)
}.

Definition is_HttpGet (e : Event) : bool :=
  match e with HttpGet _ => true | _ => false end.
Definition is_Exec (e : Event) : bool :=
  match e with Exec _ _ _ => true | _ => false end.
Definition is_SetResult (e : Event) : bool :=
  match e with SetResult _ _ _ => true | _ => false end.

(** How many HTTP requests were sent, how many processes were run. *)
Definition http_requests (t : list Event) : nat :=
  length (List.filter is_HttpGet t).
Definition processes (t : list Event) : nat :=
  length (List.filter is_Exec t).

Record Response := { body : string }.

(** A release as the GitHub API describes it, typed as the program
    types it: each asset is an object from strings to strings, and
    [assets] may be missing. *)
Record ReleaseInfo := { assets : option (list (gmap string string)) }.

Record ProcessOutcome := {
  processError : option Error;       (* the process could not be run *)
  processExitCode : Z;
  processStderr : bool;              (* something was written to STDERR *)
}.

(** A write stream that reports an error.  The stream creates the file
    when it opens it: the file is there when a write fails later on, and
    it is not when the file could not be opened. *)
Record WriteFailure := {
  write_failure : Error;
  file_created : bool;
}.

(** An extraction that throws.  The entries are written one after the
    other, and those written before the error stay. *)
Record ZipFailure := {
  zip_failure : Error;
  zip_written : list string;
}.

(** What the outside world answers. *)
Record Env := {
  input : string → option string;            (* task inputs *)
  bool_input : string → bool;
  path_resolve : list string → string;       (* [path.resolve] *)
  path_basename : string → string;           (* [path.basename] *)
  url_pathname : string → Error + string;    (* [new URL(u).pathname] *)
  platform_is_windows : bool;
  http : nat → string → Error + Response;    (* after n earlier requests *)
  json_parse : string → Error + ReleaseInfo;
  write_error : string → option WriteFailure;
  zip_extract : string → string → ZipFailure + list string;
  mkdir_error : string → option Error;
  rm_error : string → option Error;
  process : nat → string → ToolArgs → ProcessOutcome;  (* after n earlier *)
}.

(** ** The monad of the task: state, exceptions, and fuel for the loop *)

Inductive Outcome (A : Type) : Type :=
| Ok (a : A)
| Throw (e : Error)
| OutOfFuel.
Arguments Ok {A} a.
Arguments Throw {A} e.
Arguments OutOfFuel {A}.

Definition M (A : Type) : Type := World → Outcome A * World.

Definition ret {A} (a : A) : M A := λ w, (Ok a, w).

Definition bind {A B} (m : M A) (k : A → M B) : M B :=
  λ w, match m w with
       | (Ok a, w') => k a w'
       | (Throw e, w') => (Throw e, w')
       | (OutOfFuel, w') => (OutOfFuel, w')
       end.

Definition throw {A} (e : Error) : M A := λ w, (Throw e, w).

Definition out_of_fuel {A} : M A := λ w, (OutOfFuel, w).

(** [try { m } catch (e) { h e }] *)
Definition try_catch {A} (m : M A) (h : Error → M A) : M A :=
  λ w, match m w with
       | (Throw e, w') => h e w'
       | r => r
       end.

Declare Scope task_scope.
Delimit Scope task_scope with task.
Notation "x <- m ;; k" := (bind m (λ x, k))
  (at level 20, m at level 99, k at level 200, only parsing) : task_scope.
Notation "m ;; k" := (bind m (λ _, k))
  (at level 100, k at level 200, only parsing, right associativity)
  : task_scope.
Local Open Scope task_scope.

Fixpoint for_each {A} (l : list A) (f : A → M unit) : M unit :=
  match l with
  | [] => ret tt
  | x :: l' => f x ;; for_each l' f
  end.

Definition emit (e : Event) : M unit :=
  λ w, (Ok tt, {| fs := fs w; variables := variables w;
                  trace := trace w ++ [e] |}).

Definition set_fs (f : list string → list string) : M unit :=
  λ w, (Ok tt, {| fs := f (fs w); variables := variables w;
                  trace := trace w |}).

(** The double quote, for the messages that contain one. *)
Definition dquote : string := String (ascii_of_N 34) EmptyString.

Definition show_Z (z : Z) : string :=
  DecimalString.NilZero.string_of_int (Z.to_int z).

(** ** Execution options: [dependency-check-options.ts] and its builder *)

Module DependencyCheckOptionsBuilder.

Record t := {
  defaultRootFolder : string;
  defaultExportDirectory : string;
  defaultLogFilePath : string;
  _exportDirectory : string;
  _isVerboseEnabled : bool;
  _isUpdateOnlyEnabled : bool;
  _logFilePath : string;
}.

Definition exportDirectory (b : t) : string := _exportDirectory b.
Definition isVerboseEnabled (b : t) : bool := _isVerboseEnabled b.
Definition isUpdateOnlyEnabled (b : t) : bool := _isUpdateOnlyEnabled b.
Definition logFilePath (b : t) : string := _logFilePath b.

Definition setExportDirectory (value : option string) (b : t) : t :=
  {| defaultRootFolder := defaultRootFolder b;
     defaultExportDirectory := defaultExportDirectory b;
     defaultLogFilePath := defaultLogFilePath b;
     _exportDirectory :=
       match JsString.trim_opt value with
       | Some (String c s) => String c s
       | _ => defaultExportDirectory b
       end;
     _isVerboseEnabled := _isVerboseEnabled b;
     _isUpdateOnlyEnabled := _isUpdateOnlyEnabled b;
     _logFilePath := _logFilePath b |}.

Definition setIsVerboseEnabled (value : bool) (b : t) : t :=
  {| defaultRootFolder := defaultRootFolder b;
     defaultExportDirectory := defaultExportDirectory b;
     defaultLogFilePath := defaultLogFilePath b;
     _exportDirectory := _exportDirectory b;
     _isVerboseEnabled := value;
     _isUpdateOnlyEnabled := _isUpdateOnlyEnabled b;
     _logFilePath := _logFilePath b |}.

Definition setIsUpdateOnlyEnabled (value : bool) (b : t) : t :=
  {| defaultRootFolder := defaultRootFolder b;
     defaultExportDirectory := defaultExportDirectory b;
     defaultLogFilePath := defaultLogFilePath b;
     _exportDirectory := _exportDirectory b;
     _isVerboseEnabled := _isVerboseEnabled b;
     _isUpdateOnlyEnabled := value;
     _logFilePath := _logFilePath b |}.

Definition setLogFilePath (value : string) (b : t) : t :=
  {| defaultRootFolder := defaultRootFolder b;
     defaultExportDirectory := defaultExportDirectory b;
     defaultLogFilePath := defaultLogFilePath b;
     _exportDirectory := _exportDirectory b;
     _isVerboseEnabled := _isVerboseEnabled b;
     _isUpdateOnlyEnabled := _isUpdateOnlyEnabled b;
     _logFilePath := value |}.

End DependencyCheckOptionsBuilder.

Module DependencyCheckOptions.

Record CliArguments := { LogFile : string; UpdateOnly : string; Version : string }.

Definition cliArguments : CliArguments :=
  {| LogFile := "--log"; UpdateOnly := "--updateonly"; Version := "--version" |}.

Record t := {
  _exportDirectory : string;
  _isUpdateOnlyEnabled : bool;
  _isVerboseEnabled : bool;
  _logFilePath : string;
}.

Definition exportDirectory (o : t) : string := _exportDirectory o.
Definition isUpdateOnlyEnabled (o : t) : bool := _isUpdateOnlyEnabled o.
Definition isVerboseEnabled (o : t) : bool := _isVerboseEnabled o.
Definition logFilePath (o : t) : string := _logFilePath o.

(** The constructor, field by field as the source assigns them. *)
Definition constructor (builder : DependencyCheckOptionsBuilder.t) : t :=
  {| _exportDirectory := DependencyCheckOptionsBuilder.exportDirectory builder;
     _isUpdateOnlyEnabled := DependencyCheckOptionsBuilder.isVerboseEnabled builder;
     _isVerboseEnabled := DependencyCheckOptionsBuilder.isVerboseEnabled builder;
     _logFilePath := DependencyCheckOptionsBuilder.logFilePath builder |}.

Definition getExecutableArguments (o : t) : string :=
  let args := UpdateOnly cliArguments in
  if isVerboseEnabled o
  then args +:+ " " +:+ LogFile cliArguments +:+ " " +:+ logFilePath o
  else args.

End DependencyCheckOptions.

Definition build (b : DependencyCheckOptionsBuilder.t) : DependencyCheckOptions.t :=
  DependencyCheckOptions.constructor b.

(** ** The primitives: console, task library, HTTP client, zip, streams *)

Section Primitives.
Context (env : Env).

Definition console_log (msg : string) : M unit := emit (ConsoleLog msg).
Definition console_error (msg : string) : M unit := emit (ConsoleError msg).

Definition tl_getInput (name : string) : M (option string) :=
  ret (input env name).
Definition tl_getPathInput (name : string) : M (option string) :=
  ret (input env name).
Definition tl_getBoolInput (name : string) : M bool :=
  ret (bool_input env name).

Definition tl_getVariable (name : string) : M (option string) :=
  λ w, (Ok (variables w !! name), w).

Definition tl_setVariable (name val : string) : M unit :=
  emit (SetVariable name val) ;;
  λ w, (Ok tt, {| fs := fs w; variables := <[name := val]> (variables w);
                  trace := trace w |}).

Definition tl_getPlatform_is_windows : M bool :=
  ret (platform_is_windows env).

(** [tl.resolve(...segments)] is [path.resolve]; it refuses a segment
    that is not a string. *)
Definition tl_resolve (pathSegments : list (option string)) : M string :=
  match mapM id pathSegments with
  | Some l => ret (path_resolve env l)
  | None =>
      throw (mkTypeError "The path argument must be of type string. Received undefined")
  end.

Definition exists_in (files : list string) (p : string) : bool :=
  bool_decide (Exists (Path.same p) files).

Definition tl_exist (p : option string) : M bool :=
  λ w, (Ok match p with
           | Some (String c s) => exists_in (fs w) (String c s)
           | _ => false
           end, w).

Definition tl_mkdirP (p : option string) : M unit :=
  match p with
  | Some (String c s) =>
      let p := String c s in
      emit (MkdirP p) ;;
      match mkdir_error env p with
      | Some e => throw e
      | None => set_fs (λ files, files ++ Path.ancestors p ++ [p])
      end
  | _ => throw (mkError "Parameter p is required")
  end.

Definition tl_checkPath (p name : string) : M unit :=
  found <- tl_exist (Some p) ;;
  if found then ret tt
  else throw (mkError ("Not found " +:+ name +:+ ": " +:+ p)).

(** [tl.rmRF(p)]: the path and all beneath it are gone; a path that
    does not exist is no error. *)
Definition tl_rmRF (p : string) : M unit :=
  emit (RmRF p) ;;
  match rm_error env p with
  | Some e => throw e
  | None => set_fs (filter (λ q, ¬ Path.under p q))
  end.

(** [tl.find(root)]: the root, when it exists, and all beneath it. *)
Definition find_in (files : list string) (root : string) : list string :=
  if exists_in files root then filter (Path.under root) files else [].

(** The match options of the library when the caller gives none. *)
Definition default_match_options : Glob.MatchOptions :=
  {| Glob.matchBase := false; Glob.dot := true |}.

(** One pattern of [tl.findMatch]: an include pattern adds the found
    paths that match it, an exclude pattern (an odd number of leading
    [!]) removes the results that match it.  Patterns are relative to
    [defaultRoot], as all patterns of the task are. *)
Definition findMatch_step (options : Glob.MatchOptions) (defaultRoot : string)
    (found results : list string) (pattern : string) : list string :=
  let pattern := JsString.trim pattern in
  match pattern with
  | EmptyString => results
  | String "#" _ => results
  | _ =>
      let '(negateCount, body) := Glob.negate_count pattern in
      let pat := Glob.rooted (Glob.matchBase options) defaultRoot body in
      let hit := λ f, Glob.minimatch options pat (Path.segments f) in
      if Nat.even negateCount
      then results ++ filter (λ f, hit f = true ∧ f ∉ results) found
      else filter (λ f, hit f = false) results
  end.

(** The order of [Array.prototype.sort] without a comparison function:
    by code units. *)
Definition path_le (a b : string) : Prop := String.leb a b = true.

#[global] Instance path_le_dec a b : Decision (path_le a b).
Proof. unfold path_le. apply _. Defined.

Definition sort_paths (l : list string) : list string :=
  merge_sort path_le l.

(** [tl.findMatch(defaultRoot, patterns, undefined, matchOptions)].
    The result is sorted.  The search is taken to succeed: the errors of
    the file system that [tl.find] rethrows while it walks the tree are
    not part of the model. *)
Definition tl_findMatch (defaultRoot : string) (patterns : list string)
    (matchOptions : option Glob.MatchOptions) : M (list string) :=
  λ w, let options := default default_match_options matchOptions in
       (Ok (sort_paths
              (fold_left
                 (findMatch_step options defaultRoot
                    (find_in (fs w) defaultRoot))
                 patterns [])), w).

Definition client_get (url : string) : M Response :=
  λ w, let w' := {| fs := fs w; variables := variables w;
                    trace := trace w ++ [HttpGet url] |} in
       match http env (http_requests (trace w)) url with
       | inl e => (Throw e, w')
       | inr r => (Ok r, w')
       end.

Definition readBody (r : Response) : M string := ret (body r).

Definition JSON_parse (text : string) : M ReleaseInfo :=
  match json_parse env text with
  | inl e => throw e
  | inr v => ret v
  end.

Definition new_URL_pathname (url : string) : M string :=
  match url_pathname env url with
  | inl e => throw e
  | inr p => ret p
  end.

(** The promise around [fs.createWriteStream]: it resolves when the
    stream finishes and rejects when the stream reports an error; the
    file that the stream had created by then is left as it is.  The
    response is taken to end: a response that breaks off without an
    error of the writer would leave the promise pending. *)
Definition pipe_to_file (installPackage : string) (response : Response)
    : M unit :=
  match write_error env installPackage with
  | Some failure =>
      (if file_created failure
       then set_fs (λ files, files ++ [installPackage]) else ret tt) ;;
      throw (write_failure failure)
  | None =>
      emit (FileSaved installPackage (body response)) ;;
      set_fs (λ files, files ++ [installPackage])
  end.

(** [new Zip(filePath).extractAllTo(targetPath, true)]: when it throws,
    the entries written until then are in the target. *)
Definition zip_extractAllTo (filePath targetPath : string) : M unit :=
  emit (ExtractAll filePath targetPath) ;;
  match zip_extract env filePath targetPath with
  | inl failure =>
      set_fs (λ files, files ++ zip_written failure) ;;
      throw (zip_failure failure)
  | inr entries => set_fs (λ files, files ++ entries)
  end.

(** [tl.tool(tool).arg(..)/.line(..).exec(options)]: the promise is
    rejected when the process cannot be run, when it exits with a code
    other than 0 unless [ignoreReturnCode], and when it wrote to STDERR
    if [failOnStdErr]; otherwise it resolves to the exit code. *)
Definition tool_exec (tool : string) (args : ToolArgs) (opts : ExecOptions)
    : M Z :=
  λ w, let o := process env (processes (trace w)) tool args in
       let w' := {| fs := fs w; variables := variables w;
                    trace := trace w ++ [Exec tool args opts] |} in
       match processError o with
       | Some e =>
           (Throw (mkError ("There was an error when attempting to execute the process '"
                            +:+ tool +:+ "'. " +:+ message e)), w')
       | None =>
           if negb (processExitCode o =? 0)%Z && negb (ignoreReturnCode opts)
           then (Throw (mkError ("The process '" +:+ tool
                                 +:+ "' failed with exit code "
                                 +:+ show_Z (processExitCode o))), w')
           else if processStderr o && failOnStdErr opts
           then (Throw (mkError ("The process '" +:+ tool
                                 +:+ "' failed because one or more lines were written to the STDERR stream")), w')
           else (Ok (processExitCode o), w')
       end.

Definition tl_setResult (result : TaskResult) (msg : string) (done : bool)
    : M unit :=
  emit (SetResult result msg done).

End Primitives.

(** ** The functions that both revisions of the task share *)

Section Task.
Context (env : Env).

(** Checks if the pipeline is executed in debug mode. *)
Definition isSystemDebugEnabled : M bool :=
  varSystemDebug <- tl_getVariable "system.debug" ;;
  ret match varSystemDebug with
      | Some s => bool_decide (JsString.toLowerCase s = "true")
      | None => false
      end.

Definition logDebug (message : string) : M unit :=
  enabled <- isSystemDebugEnabled ;;
  if enabled then console_log ("##[debug]" +:+ message) else ret tt.

(** The asset chosen by [find]: the first one whose [content_type]
    is [application/zip]. *)
Definition is_zip_asset (asset : gmap string string) : bool :=
  bool_decide (asset !! "content_type" = Some "application/zip").

Definition release_url (version : string) : string :=
  let url := releaseApi +:+ "/tags/v" +:+ version in
  if bool_decide (JsString.toLowerCase version = dependencyCheckVersionLatest)
  then releaseApi +:+ "/" +:+ dependencyCheckVersionLatest
  else url.

(** Returns the download URL of the installation package; the value
    is [undefined] when the chosen asset has no [browser_download_url]. *)
Definition getDependencyCheckDownloadUrl (version : string)
    : M (option string) :=
  logDebug "Determine GitHub package URL..." ;;
  let url := release_url version in
  response <- client_get env url ;;
  text <- readBody response ;;
  releaseInfo <- JSON_parse env text ;;
  match assets releaseInfo with
  | None =>
      throw (mkTypeError "Cannot read properties of undefined (reading 'find')")
  | Some l =>
      match List.find is_zip_asset l with
      | None =>
          throw (mkTypeError
                   "Cannot read properties of undefined (reading 'browser_download_url')")
      | Some asset =>
          let packageUrl := asset !! "browser_download_url" in
          logDebug ("Determined GitHub package URL: " +:+ JsString.show packageUrl) ;;
          ret packageUrl
      end
  end.

(** Deletes all files and folders that match the patterns. *)
Definition cleanDirectory (path : string) (patterns : list string) : M unit :=
  files <- tl_findMatch path patterns None ;;
  for_each files (λ file, tl_rmRF env file).

(** The [do ... while] loop of [downloadPackage].  One round is one
    request; the result is the pending error, if any, or the response
    of the round that succeeded. *)
Fixpoint download_loop (fuel : nat) (url : string) (downloadErrorRetries : Z)
    : M (Error + Response) :=
  match fuel with
  | O => out_of_fuel
  | S fuel' =>
      try_catch
        (console_log ("Downloading ZIP from " +:+ dquote +:+ url +:+ dquote +:+ "...") ;;
         response <- client_get env url ;;
         logDebug "done downloading" ;;
         ret (inr response))
        (λ error,
           let downloadErrorRetries := (downloadErrorRetries - 1)%Z in
           console_error ("Error trying to download ZIP ("
                          +:+ show_Z (downloadErrorRetries + 1)
                          +:+ " tries left)") ;;
           console_error (message error) ;;
           if (downloadErrorRetries >=? 0)%Z
           then download_loop fuel' url downloadErrorRetries
           else ret (inl error))
  end.

Definition download_fuel : nat := 64.

(** Downloads a file from an URL and stores it in the file system. *)
Definition downloadPackage (url : string) : M string :=
  pathname <- new_URL_pathname env url ;;
  let fileName := path_basename env pathname in
  installPackage <- tl_resolve env [Some fileName] ;;
  outcome <- download_loop download_fuel url 5 ;;
  match outcome with
  | inl tmpError => throw tmpError
  | inr response =>
      logDebug "Download was successful, saving downloaded ZIP file..." ;;
      pipe_to_file env installPackage response ;;
      logDebug "Downloaded ZIP file has been saved." ;;
      ret installPackage
  end.

(** Unzips a file into a target path. *)
Definition unzipFileTo (filePath targetPath : string) : M unit :=
  console_log ("Extracting '" +:+ filePath +:+ "' to '" +:+ targetPath +:+ "'") ;;
  try_catch
    (zip_extractAllTo env filePath targetPath ;;
     console_log ("Extracted '" +:+ filePath +:+ "' to '" +:+ targetPath
                  +:+ "' successfully"))
    (λ error, console_error ("Extracting '" +:+ filePath +:+ "' failed")).

(** Downloads a ZIP file from an URL and extracts it into a path. *)
Definition unzipFromUrl (zipUrl unzipLocation : string) : M unit :=
  installZipPath <- downloadPackage zipUrl ;;
  unzipFileTo installZipPath unzipLocation ;;
  logDebug "Unzipping complete, removing ZIP file now..." ;;
  tl_rmRF env installZipPath ;;
  logDebug "ZIP file has been removed".

End Task.

(** ** The download-only revision of the task *)

Module DownloadOnly.
Section Run.
Context (env : Env).

(** The body of the [try] block of [run]. *)
Definition run_try : M unit :=
  (* Input parameters *)
  versionInput <- tl_getInput env "dependencyCheckVersion" ;;
  let dependencyCheckVersion :=
    JsString.trim (if JsString.truthy versionInput
                   then JsString.show versionInput
                   else dependencyCheckVersionLatest) in
  localInstallPath <- tl_getPathInput env "localInstallPath" ;;
  let localInstallPath := JsString.trim_opt localInstallPath in
  customRepoUrl <- tl_getInput env "customRepoUrl" ;;
  let customRepoUrl := JsString.trim_opt customRepoUrl in
  (* Environment variable *)
  sourcesDirectory <- tl_getVariable "Build.SourcesDirectory" ;;
  (if isVersionFormatValid dependencyCheckVersion then ret tt
   else throw (mkError ("Invalid Dependency Check version format '"
                        +:+ dependencyCheckVersion +:+ "'."))) ;;
  (* Set local installation path *)
  if JsString.loose_eq localInstallPath sourcesDirectory then
    localInstallPath <- tl_resolve env [Some "./dependency-check"] ;;
    tl_checkPath localInstallPath "Dependency Check installer" ;;
    installZipUrl <-
      (if JsString.truthy customRepoUrl then
         console_log ("Downloading Dependency Check installer from "
                      +:+ JsString.show customRepoUrl +:+ "...") ;;
         ret customRepoUrl
       else
         console_log ("Downloading Dependency Check " +:+ dependencyCheckVersion
                      +:+ " installer from GitHub...") ;;
         getDependencyCheckDownloadUrl env dependencyCheckVersion) ;;
    cleanDirectory env localInstallPath ["**"; "!data"; "!data/**"] ;;
    unzipLocation <- tl_resolve env [Some "./"] ;;
    unzipFromUrl env (JsString.show installZipUrl) unzipLocation
  else ret tt.

(** The execution entry point. *)
Definition run : M unit :=
  console_log "Starting Dependency Check download..." ;;
  try_catch run_try
    (λ err,
       console_log (message err) ;;
       tl_setResult Failed (message err) true) ;;
  console_log "Ending Dependency Check download...".

End Run.
End DownloadOnly.

(** ** The revision of the task that also updates the data *)

Module WithUpdate.
Section Run.
Context (env : Env).

(** [new DependencyCheckOptionsBuilder()] *)
Definition new_DependencyCheckOptionsBuilder : M DependencyCheckOptionsBuilder.t :=
  staging <- tl_getVariable "Build.ArtifactStagingDirectory" ;;
  let defaultRootFolder :=
    if JsString.truthy staging then JsString.show staging else "./" in
  defaultExportDirectory <-
    tl_resolve env [Some defaultRootFolder; Some DCConst.DependencyCheckFolderName] ;;
  defaultLogFilePath <-
    tl_resolve env [Some defaultExportDirectory;
                    Some DCConst.DependencyCheckFolderName;
                    Some "dependency-check-log.txt"] ;;
  ret {| DependencyCheckOptionsBuilder.defaultRootFolder := defaultRootFolder;
         DependencyCheckOptionsBuilder.defaultExportDirectory := defaultExportDirectory;
         DependencyCheckOptionsBuilder.defaultLogFilePath := defaultLogFilePath;
         DependencyCheckOptionsBuilder._exportDirectory := defaultExportDirectory;
         DependencyCheckOptionsBuilder._isVerboseEnabled := false;
         DependencyCheckOptionsBuilder._isUpdateOnlyEnabled := false;
         DependencyCheckOptionsBuilder._logFilePath := defaultLogFilePath |}.

(** Determines the script to execute, which depends on the platform. *)
Definition getDependencyCheckScriptPath (dependencyCheckDir : string)
    : M string :=
  windows <- tl_getPlatform_is_windows env ;;
  let osSpecificDependencyCheckScript :=
    if windows then "dependency-check.bat" else "dependency-check.sh" in
  dependencyCheckScriptPath <-
    tl_resolve env [Some dependencyCheckDir; Some "bin";
                    Some osSpecificDependencyCheckScript] ;;
  console_log ("Dependency Check script set to " +:+ dependencyCheckScriptPath) ;;
  tl_checkPath dependencyCheckScriptPath "Dependency Check script" ;;
  ret dependencyCheckScriptPath.

(** Removes the lock files that a cancelled run may have left. *)
Definition removeLockFile (dependencyCheckDir : string) : M unit :=
  console_log "Searching for left over lock files..." ;;
  lockFiles <- tl_findMatch dependencyCheckDir ["*.lock"]
                 (Some {| Glob.matchBase := true; Glob.dot := false |}) ;;
  if (0 <? length lockFiles)%nat then
    console_log ("found " +:+ show_Z (Z.of_nat (length lockFiles))
                 +:+ " left over lock files, removing them now...") ;;
    for_each lockFiles
      (λ lockfile,
         fullLockFilePath <- tl_resolve env [Some lockfile] ;;
         try_catch
           (found <- tl_exist (Some fullLockFilePath) ;;
            if found then
              console_log ("removing lock file " +:+ dquote +:+ fullLockFilePath
                           +:+ dquote +:+ "...") ;;
              tl_rmRF env fullLockFilePath
            else
              console_log ("found lock file " +:+ dquote +:+ fullLockFilePath
                           +:+ dquote +:+ " doesn't exist, that was unexpected"))
           (λ err,
              console_log ("could not delete lock file " +:+ dquote
                           +:+ fullLockFilePath +:+ dquote +:+ "!") ;;
              console_error (message err)))
  else console_log "found no left over lock files, continuing...".

(** Runs the script with an argument line; the exit code is returned
    whatever it is. *)
Definition runDependencyCheck (scriptPath args : string) : M Z :=
  exitCode <- tool_exec env scriptPath (Line args)
                {| failOnStdErr := false; ignoreReturnCode := true |} ;;
  console_log ("Dependency Check completed with exit code "
               +:+ show_Z exitCode +:+ ".") ;;
  ret exitCode.

(** Executes the update phase of Dependency Check only. *)
Definition updateDependencyCheckData (dependencyCheckDir : string)
    (hasLocalInstallation : bool) (dcOptions : DependencyCheckOptions.t)
    : M unit :=
  dependencyCheckScriptPath <- getDependencyCheckScriptPath dependencyCheckDir ;;
  let args := DependencyCheckOptions.getExecutableArguments dcOptions in
  console_log "Invoking Dependency Check data update..." ;;
  console_log ("Path: " +:+ dependencyCheckScriptPath) ;;
  console_log ("Arguments: " +:+ args) ;;
  (* Set Java args *)
  tl_setVariable "JAVA_OPTS" "-Xss8192k" ;;
  (* Version smoke test *)
  tool_exec env dependencyCheckScriptPath
    (Arg (DependencyCheckOptions.Version DependencyCheckOptions.cliArguments))
    default_exec_options ;;
  (if negb hasLocalInstallation then removeLockFile dependencyCheckDir
   else ret tt) ;;
  exitCode <- runDependencyCheck dependencyCheckScriptPath args ;;
  ret tt.

(** The body of the [try] block of [run]. *)
Definition run_try : M unit :=
  (* Input parameters *)
  customRepoUrl <- tl_getInput env "customRepoUrl" ;;
  let customRepoUrl := JsString.trim_opt customRepoUrl in
  versionInput <- tl_getInput env "dependencyCheckVersion" ;;
  let dependencyCheckVersion :=
    JsString.trim (if JsString.truthy versionInput
                   then JsString.show versionInput
                   else DCConst.DependencyCheckVersionLatest) in
  enableVerbose <- tl_getBoolInput env "enableVerbose" ;;
  localInstallPath <- tl_getPathInput env "localInstallPath" ;;
  let localInstallPath := JsString.trim_opt localInstallPath in
  logDirectory <- tl_getPathInput env "logDirectory" ;;
  let logDirectory := JsString.trim_opt logDirectory in
  exportDirectory <- tl_getPathInput env "exportDirectory" ;;
  let exportDirectory := JsString.trim_opt exportDirectory in
  (* Environment variable *)
  sourcesDirectory <- tl_getVariable "Build.SourcesDirectory" ;;
  artifactDirectory <- tl_getVariable "Build.ArtifactStagingDirectory" ;;
  (* Set log directory (if necessary) *)
  logDirectory <-
    (if JsString.loose_eq logDirectory sourcesDirectory
     then d <- tl_resolve env [artifactDirectory;
                               Some DCConst.DependencyCheckFolderName] ;;
          ret (Some d)
     else ret logDirectory) ;;
  console_log ("Setting log directory to " +:+ JsString.show logDirectory) ;;
  (* Create log directory (if necessary) *)
  logExists <- tl_exist logDirectory ;;
  (if negb logExists then
     console_log ("Creating log directory at " +:+ JsString.show logDirectory) ;;
     tl_mkdirP env logDirectory
   else ret tt) ;;
  (* Set export directory (if necessary) *)
  exportDirectory <-
    (if JsString.loose_eq exportDirectory sourcesDirectory
     then d <- tl_resolve env [artifactDirectory;
                               Some DCConst.DependencyCheckFolderName] ;;
          ret (Some d)
     else ret exportDirectory) ;;
  console_log ("Setting export directory to " +:+ JsString.show exportDirectory) ;;
  (* Create export directory (if necessary) *)
  exportExists <- tl_exist exportDirectory ;;
  (if negb exportExists then
     console_log ("Creating export directory at "
                  +:+ JsString.show exportDirectory) ;;
     tl_mkdirP env exportDirectory
   else ret tt) ;;
  (* Set logs file *)
  logFile <- tl_resolve env [logDirectory; Some "dependency-check-log.txt"] ;;
  builder <- new_DependencyCheckOptionsBuilder ;;
  let options :=
    build (DependencyCheckOptionsBuilder.setLogFilePath logFile
             (DependencyCheckOptionsBuilder.setIsVerboseEnabled enableVerbose
                (DependencyCheckOptionsBuilder.setIsUpdateOnlyEnabled true
                   (DependencyCheckOptionsBuilder.setExportDirectory
                      exportDirectory builder)))) in
  (if isVersionFormatValid dependencyCheckVersion then ret tt
   else throw (mkError ("Invalid Dependency Check version format '"
                        +:+ dependencyCheckVersion +:+ "'."))) ;;
  (* if localInstallPath is not set, it's sources directory path by default *)
  if JsString.loose_eq localInstallPath sourcesDirectory then
    let hasLocalInstallation := false in
    localInstallPath <-
      tl_resolve env [Some "."; Some DCConst.DependencyCheckFolderName] ;;
    (* create directory, if not exist already *)
    tl_mkdirP env (Some localInstallPath) ;;
    installZipUrl <-
      (if JsString.truthy customRepoUrl then
         console_log ("Downloading Dependency Check installer from "
                      +:+ JsString.show customRepoUrl +:+ "...") ;;
         ret customRepoUrl
       else
         console_log ("Downloading Dependency Check " +:+ dependencyCheckVersion
                      +:+ " installer from GitHub...") ;;
         getDependencyCheckDownloadUrl env dependencyCheckVersion) ;;
    cleanDirectory env localInstallPath ["**"; "!data"; "!data/**"] ;;
    unzipLocation <- tl_resolve env [Some "./"] ;;
    unzipFromUrl env (JsString.show installZipUrl) unzipLocation ;;
    updateDependencyCheckData localInstallPath hasLocalInstallation options
  else if JsString.truthy localInstallPath then
    (* local installation path was defined, so it must exist *)
    tl_checkPath (JsString.show localInstallPath) "Dependency Check installer"
  else ret tt.

(** The execution entry point. *)
Definition run : M unit :=
  console_log "Starting Dependency Check download..." ;;
  try_catch run_try
    (λ err,
       console_log (message err) ;;
       tl_setResult Failed (message err) true) ;;
  console_log "Ending Dependency Check download...".

End Run.
End WithUpdate.

(** ** A concrete agent, for the examples *)

Module Example.

Definition sources : string := "/agent/_work/1/s".
Definition staging : string := "/agent/_work/1/a".

(** [path.resolve] on POSIX paths, from the working directory
    [sources]: an absolute segment starts afresh. *)
Definition resolve (l : list string) : string :=
  Path.render
    (fold_left
       (λ acc s, fold_left Path.step (Path.split_at_slash "" s)
                   (if Glob.is_rooted s then [] else acc))
       l (Path.segments sources)).

(** The path of an [https] URL without query or fragment. *)
Definition pathname (u : string) : Error + string :=
  match Path.split_at_slash "" u with
  | "https:" :: "" :: host :: rest => inr ("/" +:+ String.concat "/" rest)
  | _ => inl (mkTypeError "Invalid URL")
  end.

Definition basename (p : string) : string :=
  default "" (last (Path.split_at_slash "" p)).

Definition zipUrl : string :=
  "https://example.org/dl/dependency-check-8.0.0-release.zip".

Definition zip_asset : gmap string string :=
  {[ "content_type" := "application/zip"; "browser_download_url" := zipUrl ]}.

Definition gzip_asset : gmap string string :=
  {[ "content_type" := "application/gzip";
     "browser_download_url" := "https://example.org/dl/other.gz" ]}.

Definition release : ReleaseInfo :=
  {| assets := Some [zip_asset; gzip_asset] |}.

Definition ok_process : ProcessOutcome :=
  {| processError := None; processExitCode := 0; processStderr := false |}.

(** What a POSIX agent answers when it is asked to run a script that
    the task has extracted: [extractAllTo] writes the files without the
    execute permission, nothing in the task changes the mode, and the
    script is refused. *)
Definition not_executable : ProcessOutcome :=
  {| processError := Some (mkError "spawn EACCES"); processExitCode := 0;
     processStderr := false |}.

Definition refuses (n : nat) (tool : string) (args : ToolArgs)
    : ProcessOutcome :=
  not_executable.

(** A POSIX agent with the inputs [inputs], which is served by [web],
    extracts as [unzip] says and answers [proc] when a process is to be
    run. *)
Definition agent (inputs : string → option string)
    (web : nat → string → Error + Response)
    (unzip : string → string → ZipFailure + list string)
    (proc : nat → string → ToolArgs → ProcessOutcome) : Env :=
  {| input := inputs;
     bool_input := λ _, false;
     path_resolve := resolve;
     path_basename := basename;
     url_pathname := pathname;
     platform_is_windows := false;
     http := web;
     json_parse := λ _, inr release;
     write_error := λ _, None;
     zip_extract := unzip;
     mkdir_error := λ _, None;
     rm_error := λ _, None;
     process := proc |}.

Definition unset_paths (name : string) : option string :=
  if bool_decide (name ∈ ["localInstallPath"; "logDirectory"; "exportDirectory"])
  then Some sources else None.

Definition web_ok (n : nat) (url : string) : Error + Response :=
  inr {| body := "content of " +:+ url |}.

Definition unzip_ok (zip target : string) : ZipFailure + list string :=
  inr [target +:+ "/dependency-check/bin";
       target +:+ "/dependency-check/bin/dependency-check.sh"].

Definition unzip_broken (zip target : string) : ZipFailure + list string :=
  inl {| zip_failure := mkError "Invalid or unsupported zip format";
         zip_written := [] |}.

Definition env : Env :=
  agent unset_paths web_ok unzip_ok refuses.

Definition world : World :=
  {| fs := [sources; staging];
     variables := {[ "Build.SourcesDirectory" := sources;
                     "Build.ArtifactStagingDirectory" := staging ]};
     trace := [] |}.

End Example.

(** ** Vocabulary of the specifications *)

(** The outcomes a computation may have: never out of fuel, and an
    exception only where [may_throw] says so. *)
Definition allowed {A} (may_throw : bool) (o : Outcome A) : Prop :=
  match o with
  | Ok _ => True
  | Throw _ => may_throw = true
  | OutOfFuel => False
  end.

(** [conforms may_throw P m]: from every world [m] ends with an allowed
    outcome, and all it adds to the trace are events that satisfy [P]. *)
Definition conforms {A} (may_throw : bool) (P : Event → Prop) (m : M A) : Prop :=
  ∀ w, allowed may_throw (m w).1
       ∧ ∃ evs, trace (m w).2 = trace w ++ evs ∧ Forall P evs.

Definition not_SetResult (e : Event) : Prop := is_SetResult e = false.
Definition not_Exec (e : Event) : Prop := is_Exec e = false.
Definition not_HttpGet (e : Event) : Prop := is_HttpGet e = false.
(** Every request goes to [url]. *)
Definition gets_only (url : string) (e : Event) : Prop :=
  ∀ u, e = HttpGet u → u = url.

(** A predicate on events is [quiet] when it accepts every event that is
    neither a request, nor a process, nor the task result. *)
Definition quiet (P : Event → Prop) : Prop :=
  ∀ e, is_HttpGet e = false → is_Exec e = false → is_SetResult e = false → P e.

(** The world in which the [try] block of [run] starts. *)
Definition starting (w : World) : World :=
  (console_log "Starting Dependency Check download..." w).2.

(** What [run] does with the outcome of its [try] block: it always
    returns normally; when the block threw [err], the run ends with the
    message logged and the task result set to [Failed], once; when the
    block returned, no task result is set at all. *)
Definition catches_all (run_try run : M unit) (w : World) : Prop :=
  ∃ w' evs,
    run w = (Ok tt, w') ∧ trace w' = trace w ++ evs ∧
    match (run_try (starting w)).1 with
    | Ok _ => Forall not_SetResult evs
    | Throw err =>
        ∃ pre, evs = pre ++ [ConsoleLog (message err);
                             SetResult Failed (message err) true;
                             ConsoleLog "Ending Dependency Check download..."]
               ∧ Forall not_SetResult pre
    | OutOfFuel => False
    end.

Definition is_console (e : Event) : Prop :=
  match e with ConsoleLog _ | ConsoleError _ => True | _ => False end.

(** A computation that only writes to the console: it returns, and
    leaves the files and the variables as they are. *)
Definition logs_only {A} (m : M A) : Prop :=
  ∀ w, ∃ a w' evs,
    m w = (Ok a, w') ∧ fs w' = fs w ∧ variables w' = variables w
    ∧ trace w' = trace w ++ evs ∧ Forall is_console evs.

(** The release endpoint that the description gives for a version. *)
Definition endpoint_spec (version : string) : string :=
  if bool_decide (JsString.toLowerCase version = "latest")
  then "https://api.github.com/repos/jeremylong/DependencyCheck/releases/latest"
  else "https://api.github.com/repos/jeremylong/DependencyCheck/releases/tags/v"
       +:+ version.

Module Failing.
(** A server that fails the first [k] requests, each with an error of
    its own, and answers from then on. *)
Definition attempt_error (n : nat) : Error :=
  mkError ("request " +:+ show_Z (Z.of_nat (S n)) +:+ " failed").

Definition web (k : nat) (n : nat) (url : string) : Error + Response :=
  if (n <? k)%nat then inl (attempt_error n) else Example.web_ok n url.

Definition env (k : nat) : Env :=
  Example.agent Example.unset_paths (web k) Example.unzip_ok
    Example.refuses.
End Failing.

(** The world after some more events. *)
Definition add_events (w : World) (evs : list Event) : World :=
  {| fs := fs w; variables := variables w; trace := trace w ++ evs |}.

(** What [logDebug] writes in a world: the line, when the pipeline runs
    in debug mode. *)
Definition debug_events (w : World) (msg : string) : list Event :=
  match variables w !! "system.debug" with
  | Some s =>
      if bool_decide (JsString.toLowerCase s = "true")
      then [ConsoleLog ("##[debug]" +:+ msg)] else []
  | None => []
  end.

Module Broken.
(** An agent whose archives cannot be extracted. *)
Definition env : Env :=
  Example.agent Example.unset_paths Example.web_ok Example.unzip_broken
    Example.refuses.
End Broken.

(** [q] is the [data] directory of [dir] or lies beneath it. *)
Definition in_data_of (dir q : string) : Prop :=
  (Path.segments dir ++ ["data"]) `prefix_of` Path.segments q.

#[global] Instance in_data_of_dec dir q : Decision (in_data_of dir q).
Proof. unfold in_data_of. apply _. Defined.

(** What the clean-up of [dir] keeps: all that is not beneath [dir], and
    below [dir] the [data] directory with all beneath it. *)
Definition kept_by_clean (dir q : string) : Prop :=
  ¬ Path.strictly_under dir q ∨ in_data_of dir q.

#[global] Instance kept_by_clean_dec dir q : Decision (kept_by_clean dir q).
Proof. unfold kept_by_clean, in_data_of, Path.strictly_under. apply _. Defined.

Module Stale.
(** A working directory with an old installation: a script, a lock
    file, and the downloaded data. *)
Definition install : string := "/agent/_work/1/s/dependency-check".

Definition world : World :=
  {| fs := [Example.sources; install;
            install +:+ "/bin"; install +:+ "/bin/dependency-check.sh";
            install +:+ "/data"; install +:+ "/data/odc.mv.db";
            install +:+ "/data/cache/a.json"; install +:+ "/odc.update.lock";
            Example.sources +:+ "/src/main.ts"];
     variables := variables Example.world;
     trace := [] |}.
End Stale.

(** The script that the update step runs, and the argument line that
    the description gives for the update. *)
Definition script_of (env : Env) (dependencyCheckDir : string) : string :=
  path_resolve env
    [dependencyCheckDir; "bin";
     if platform_is_windows env then "dependency-check.bat"
     else "dependency-check.sh"].

Definition update_arguments (options : DependencyCheckOptions.t) : string :=
  if DependencyCheckOptions.isVerboseEnabled options
  then "--updateonly --log " +:+ DependencyCheckOptions.logFilePath options
  else "--updateonly".

(** The smoke test passes when the process could be run and exited
    with code 0. *)
Definition smoke_test_passes (o : ProcessOutcome) : Prop :=
  processError o = None ∧ processExitCode o = 0%Z.

Module Updating.
(** An installed tool whose update run exits with code 14 after
    writing to STDERR. *)
Definition failing_update (n : nat) (tool : string) (args : ToolArgs)
    : ProcessOutcome :=
  match args with
  | Arg _ => Example.ok_process
  | Line _ => {| processError := None; processExitCode := 14;
                 processStderr := true |}
  end.

Definition env : Env :=
  Example.agent Example.unset_paths Example.web_ok Example.unzip_ok
    failing_update.

Definition world : World :=
  {| fs := [Stale.install; Stale.install +:+ "/bin";
            Stale.install +:+ "/bin/dependency-check.sh"];
     variables := variables Example.world;
     trace := [] |}.

Definition options : DependencyCheckOptions.t :=
  {| DependencyCheckOptions._exportDirectory := "/agent/_work/1/a/dependency-check";
     DependencyCheckOptions._isUpdateOnlyEnabled := true;
     DependencyCheckOptions._isVerboseEnabled := true;
     DependencyCheckOptions._logFilePath :=
       "/agent/_work/1/a/dependency-check/dependency-check-log.txt" |}.
End Updating.

(** The version that a run asks for: the input, or [latest] when the
    input is missing or empty, trimmed. *)
Definition requested_version (env : Env) : string :=
  JsString.trim (if JsString.truthy (input env "dependencyCheckVersion")
                 then JsString.show (input env "dependencyCheckVersion")
                 else dependencyCheckVersionLatest).

(** The custom source URL of a run, trimmed. *)
Definition custom_url (env : Env) : option string :=
  JsString.trim_opt (input env "customRepoUrl").

(** The local install path was left unset: the input reads as the
    sources directory. *)
Definition install_path_unset (env : Env) (w : World) : Prop :=
  JsString.loose_eq (JsString.trim_opt (input env "localInstallPath"))
    (variables w !! "Build.SourcesDirectory") = true.

Definition clean_patterns : list string := ["**"; "!data"; "!data/**"].

Module Custom.
(** The caller gives a custom source URL, with blanks around it. *)
Definition inputs (name : string) : option string :=
  if bool_decide (name = "customRepoUrl")
  then Some ("  " +:+ Example.zipUrl +:+ " ")
  else if bool_decide (name = "dependencyCheckVersion") then Some "Latest"
  else Example.unset_paths name.

Definition env : Env :=
  Example.agent inputs Example.web_ok Example.unzip_ok
    Example.refuses.
End Custom.

Module Blank.
(** The caller gives a custom source URL that is one blank. *)
Definition inputs (name : string) : option string :=
  if bool_decide (name = "customRepoUrl") then Some " "
  else Example.unset_paths name.

Definition env : Env :=
  Example.agent inputs Example.web_ok Example.unzip_ok
    Example.refuses.
End Blank.

Module Offline.
(** An agent that cannot reach any server. *)
Definition web (n : nat) (url : string) : Error + Response :=
  inl (mkError ("getaddrinfo ENOTFOUND " +:+ url)).

Definition env : Env :=
  Example.agent Example.unset_paths web Example.unzip_ok
    Example.refuses.
End Offline.

(** ** Vocabulary of the further properties *)

(** The kinds of effects that a computation leaves in the trace. *)
Inductive Kind : Type :=
| KConsole | KRequest | KSaved | KCreated | KRemoved | KUnzipped
| KProcess | KAssigned | KResult.

Definition kind (e : Event) : Kind :=
  match e with
  | ConsoleLog _ | ConsoleError _ => KConsole
  | HttpGet _ => KRequest
  | FileSaved _ _ => KSaved
  | MkdirP _ => KCreated
  | RmRF _ => KRemoved
  | ExtractAll _ _ => KUnzipped
  | Exec _ _ _ => KProcess
  | SetVariable _ _ => KAssigned
  | SetResult _ _ _ => KResult
  end.

(** An event of one of the kinds [ks]. *)
Definition only (ks : list Kind) (e : Event) : Prop := kind e ∈ ks.

(** The local install path was given: the input does not read as the
    sources directory. *)
Definition install_path_given (env : Env) (w : World) : Prop :=
  JsString.loose_eq (JsString.trim_opt (input env "localInstallPath"))
    (variables w !! "Build.SourcesDirectory") = false.

(** The message of the error that [run] throws for a version that the
    validator rejects. *)
Definition invalid_version_message (env : Env) : string :=
  "Invalid Dependency Check version format '" +:+ requested_version env +:+ "'.".

Module Pinned.
(** The caller asks for the release 8.0.0. *)
Definition inputs (name : string) : option string :=
  if bool_decide (name = "dependencyCheckVersion") then Some "8.0.0"
  else Example.unset_paths name.

Definition env : Env :=
  Example.agent inputs Example.web_ok Example.unzip_ok
    Example.refuses.
End Pinned.

Module Installed.
(** The caller names an installation of its own, which is not there. *)
Definition inputs (name : string) : option string :=
  if bool_decide (name = "localInstallPath") then Some "/opt/dependency-check"
  else Example.unset_paths name.

Definition env : Env :=
  Example.agent inputs Example.web_ok Example.unzip_ok
    Example.refuses.
End Installed.

(** The callback that [removeLockFile] applies to each lock file found. *)
Definition removeLockFile_each (env : Env) (lockfile : string) : M unit :=
  fullLockFilePath <- tl_resolve env [Some lockfile] ;;
  try_catch
    (found <- tl_exist (Some fullLockFilePath) ;;
     if found then
       console_log ("removing lock file " +:+ dquote +:+ fullLockFilePath
                    +:+ dquote +:+ "...") ;;
       tl_rmRF env fullLockFilePath
     else
       console_log ("found lock file " +:+ dquote +:+ fullLockFilePath
                    +:+ dquote +:+ " doesn't exist, that was unexpected"))
    (λ err,
       console_log ("could not delete lock file " +:+ dquote
                    +:+ fullLockFilePath +:+ dquote +:+ "!") ;;
       console_error (message err)).

(** The match options that [removeLockFile] gives: the object has
    [matchBase] only, so that [dot] is not set. *)
Definition lock_options : Glob.MatchOptions :=
  {| Glob.matchBase := true; Glob.dot := false |}.

(** A lock file as the search of [removeLockFile] finds it: the last
    component of the path ends in [.lock] and does not start with a
    dot, which the [*] of the pattern does not match. *)
Definition is_lock_file (p : string) : Prop :=
  ∃ base, last (Path.segments p) = Some base
          ∧ (∃ stem, base = stem +:+ ".lock")
          ∧ Glob.leading_dot base = false.

(** The same, as the base-name pattern [*.lock] decides it. *)
Definition lock_name (p : string) : bool :=
  match last (Path.segments p) with
  | Some base => Glob.ends_with ".lock" base && negb (Glob.leading_dot base)
  | None => false
  end.

Module Cancelled.
(** The old installation after a run that was cancelled: beside the
    lock file of the update there is one whose name starts with a dot. *)
Definition world : World :=
  {| fs := fs Stale.world ++ [Stale.install +:+ "/data/.odc.lock"];
     variables := variables Stale.world;
     trace := [] |}.

(** An agent on which the lock file of the update cannot be removed. *)
Definition rm_locked (p : string) : option Error :=
  if bool_decide (p = Stale.install +:+ "/odc.update.lock")
  then Some (mkError "EBUSY: resource busy or locked")
  else None.

Definition env : Env :=
  {| input := Example.unset_paths;
     bool_input := λ _, false;
     path_resolve := Example.resolve;
     path_basename := Example.basename;
     url_pathname := Example.pathname;
     platform_is_windows := false;
     http := Example.web_ok;
     json_parse := λ _, inr Example.release;
     write_error := λ _, None;
     zip_extract := Example.unzip_ok;
     mkdir_error := λ _, None;
     rm_error := rm_locked;
     process := Example.refuses |}.
End Cancelled.

(** The directory that a run uses for the path input [name]: the input,
    or the folder of the task in the staging directory when the input
    reads as the sources directory. *)
Definition directory_input (env : Env) (w : World) (name : string)
    : option string :=
  let given := JsString.trim_opt (input env name) in
  if JsString.loose_eq given (variables w !! "Build.SourcesDirectory")
  then match variables w !! "Build.ArtifactStagingDirectory" with
       | Some staging =>
           Some (path_resolve env [staging; DCConst.DependencyCheckFolderName])
       | None => None
       end
  else given.

(** The argument line of the update as the inputs of a run determine
    it: the log file lies in the log directory. *)
Definition run_update_line (env : Env) (logDirectory : string) : string :=
  if bool_input env "enableVerbose"
  then "--updateonly --log "
       +:+ path_resolve env [logDirectory; "dependency-check-log.txt"]
  else "--updateonly".

Module Verbose.
(** The caller enables verbose logging. *)
Definition env : Env :=
  {| input := Example.unset_paths;
     bool_input := λ name, bool_decide (name = "enableVerbose");
     path_resolve := Example.resolve;
     path_basename := Example.basename;
     url_pathname := Example.pathname;
     platform_is_windows := false;
     http := Example.web_ok;
     json_parse := λ _, inr Example.release;
     write_error := λ _, None;
     zip_extract := Example.unzip_ok;
     mkdir_error := λ _, None;
     rm_error := λ _, None;
     process := Example.refuses |}.
End Verbose.

Fixpoint starts_with (p s : string) : bool :=
  match p, s with
  | EmptyString, _ => true
  | String a p', String b s' => bool_decide (a = b) && starts_with p' s'
  | String _ _, EmptyString => false
  end.

(** A console line with the prefix of the debug lines. *)
Definition is_debug_line (e : Event) : bool :=
  match e with
  | ConsoleLog msg => starts_with "##[debug]" msg
  | _ => false
  end.

(** A trace without its debug lines. *)
Definition strip_debug (t : list Event) : list Event :=
  List.filter (λ e, negb (is_debug_line e)) t.

(** Two worlds that differ at most in the variable [system.debug] and
    in the debug lines written. *)
Definition same_but_debug (w1 w2 : World) : Prop :=
  fs w1 = fs w2
  ∧ (∀ name, name ≠ "system.debug" →
             variables w1 !! name = variables w2 !! name)
  ∧ strip_debug (trace w1) = strip_debug (trace w2).

(** A computation that does the same in two such worlds. *)
Definition indifferent {A} (m : M A) : Prop :=
  ∀ w1 w2, same_but_debug w1 w2 →
           (m w1).1 = (m w2).1 ∧ same_but_debug (m w1).2 (m w2).2.

Module Debugging.
(** The example world with the pipeline in debug mode. *)
Definition world : World :=
  {| fs := fs Example.world;
     variables := <["system.debug" := "True"]> (variables Example.world);
     trace := [] |}.
End Debugging.

(** [m] adds at most [n] events that [f] selects to the trace. *)
Definition at_most {A} (f : Event → bool) (n : nat) (m : M A) : Prop :=
  ∀ w, ∃ evs, trace (m w).2 = trace w ++ evs
              ∧ (length (List.filter f evs) ≤ n)%nat.

(** [m] assigns no variable but those of [names]. *)
Definition assigns_only {A} (names : list string) (m : M A) : Prop :=
  ∀ w name, name ∉ names →
            variables (m w).2 !! name = variables w !! name.

Module Unstartable.
(** An agent on which no process can be started. *)
Definition no_process (n : nat) (tool : string) (args : ToolArgs)
    : ProcessOutcome :=
  {| processError := Some (mkError ("spawn " +:+ tool +:+ " ENOENT"));
     processExitCode := 0; processStderr := false |}.

Definition env : Env :=
  Example.agent Example.unset_paths Example.web_ok Example.unzip_ok no_process.
End Unstartable.

Module Busy.
(** An agent on which the [bin] folder of the old installation cannot
    be removed. *)
Definition rm_busy (p : string) : option Error :=
  if bool_decide (p = "/agent/_work/1/s/dependency-check/bin")
  then Some (mkError "EBUSY: resource busy or locked")
  else None.

Definition env : Env :=
  {| input := Example.unset_paths;
     bool_input := λ _, false;
     path_resolve := Example.resolve;
     path_basename := Example.basename;
     url_pathname := Example.pathname;
     platform_is_windows := false;
     http := Example.web_ok;
     json_parse := λ _, inr Example.release;
     write_error := λ _, None;
     zip_extract := Example.unzip_ok;
     mkdir_error := λ _, None;
     rm_error := rm_busy;
     process := Example.refuses |}.
End Busy.

Module DiskFull.
(** An agent whose disk is full: the write stream creates the archive
    and fails while it writes to it. *)
Definition failure : WriteFailure :=
  {| write_failure := mkError "ENOSPC: no space left on device, write";
     file_created := true |}.

Definition env : Env :=
  {| input := Example.unset_paths;
     bool_input := λ _, false;
     path_resolve := Example.resolve;
     path_basename := Example.basename;
     url_pathname := Example.pathname;
     platform_is_windows := false;
     http := Example.web_ok;
     json_parse := λ _, inr Example.release;
     write_error := λ _, Some failure;
     zip_extract := Example.unzip_ok;
     mkdir_error := λ _, None;
     rm_error := λ _, None;
     process := Example.refuses |}.
End DiskFull.

Module Partial.
(** An agent on which the extraction stops after the first entry. *)
Definition unzip (zip target : string) : ZipFailure + list string :=
  inl {| zip_failure := mkError "ENOSPC: no space left on device, write";
         zip_written := [target +:+ "/dependency-check/bin"] |}.

Definition env : Env :=
  Example.agent Example.unset_paths Example.web_ok unzip Example.refuses.
End Partial.

(** Where the archive of a run comes from: [u] is the custom URL when
    there is one, and otherwise the download URL of the first zip asset
    of the release that the server describes for the requested version. *)
Definition archive_url_from (env : Env) (u : string) : Prop :=
  if JsString.truthy (custom_url env) then custom_url env = Some u
  else ∃ resp info before asset after,
      (∀ n, http env n (release_url (requested_version env)) = inr resp)
      ∧ json_parse env (body resp) = inr info
      ∧ assets info = Some (before ++ asset :: after)
      ∧ Forall (λ a : gmap string string,
                  a !! "content_type" ≠ Some "application/zip") before
      ∧ asset !! "content_type" = Some "application/zip"
      ∧ asset !! "browser_download_url" = Some u.

(** ** The steps of the [try] block *)

(** The [try] block of [run] in the revision with the update step, up
    to and including the validation of the version: the inputs and the
    two variables are read, the log and export directories are
    determined and created, and the options are built.  Its result is
    what the rest of the block uses of it: the sources directory and the
    options. *)
Definition preparation (env : Env)
    : M (option string * DependencyCheckOptions.t) :=
  customRepoUrl <- tl_getInput env "customRepoUrl" ;;
  versionInput <- tl_getInput env "dependencyCheckVersion" ;;
  let dependencyCheckVersion :=
    JsString.trim (if JsString.truthy versionInput
                   then JsString.show versionInput
                   else DCConst.DependencyCheckVersionLatest) in
  enableVerbose <- tl_getBoolInput env "enableVerbose" ;;
  localInstallPath <- tl_getPathInput env "localInstallPath" ;;
  logDirectory <- tl_getPathInput env "logDirectory" ;;
  let logDirectory := JsString.trim_opt logDirectory in
  exportDirectory <- tl_getPathInput env "exportDirectory" ;;
  let exportDirectory := JsString.trim_opt exportDirectory in
  sourcesDirectory <- tl_getVariable "Build.SourcesDirectory" ;;
  artifactDirectory <- tl_getVariable "Build.ArtifactStagingDirectory" ;;
  logDirectory <-
    (if JsString.loose_eq logDirectory sourcesDirectory
     then d <- tl_resolve env [artifactDirectory;
                               Some DCConst.DependencyCheckFolderName] ;;
          ret (Some d)
     else ret logDirectory) ;;
  console_log ("Setting log directory to " +:+ JsString.show logDirectory) ;;
  logExists <- tl_exist logDirectory ;;
  (if negb logExists then
     console_log ("Creating log directory at " +:+ JsString.show logDirectory) ;;
     tl_mkdirP env logDirectory
   else ret tt) ;;
  exportDirectory <-
    (if JsString.loose_eq exportDirectory sourcesDirectory
     then d <- tl_resolve env [artifactDirectory;
                               Some DCConst.DependencyCheckFolderName] ;;
          ret (Some d)
     else ret exportDirectory) ;;
  console_log ("Setting export directory to " +:+ JsString.show exportDirectory) ;;
  exportExists <- tl_exist exportDirectory ;;
  (if negb exportExists then
     console_log ("Creating export directory at "
                  +:+ JsString.show exportDirectory) ;;
     tl_mkdirP env exportDirectory
   else ret tt) ;;
  logFile <- tl_resolve env [logDirectory; Some "dependency-check-log.txt"] ;;
  builder <- WithUpdate.new_DependencyCheckOptionsBuilder env ;;
  let options :=
    build (DependencyCheckOptionsBuilder.setLogFilePath logFile
             (DependencyCheckOptionsBuilder.setIsVerboseEnabled enableVerbose
                (DependencyCheckOptionsBuilder.setIsUpdateOnlyEnabled true
                   (DependencyCheckOptionsBuilder.setExportDirectory
                      exportDirectory builder)))) in
  (if isVersionFormatValid dependencyCheckVersion then ret tt
   else throw (mkError ("Invalid Dependency Check version format '"
                        +:+ dependencyCheckVersion +:+ "'."))) ;;
  ret (sourcesDirectory, options).

(** The choice of the URL of the archive in [run]: the custom URL when
    there is one, and the URL resolved from GitHub otherwise. *)
Definition chooseInstallZipUrl (env : Env) : M (option string) :=
  if JsString.truthy (custom_url env) then
    console_log ("Downloading Dependency Check installer from "
                 +:+ JsString.show (custom_url env) +:+ "...") ;;
    ret (custom_url env)
  else
    console_log ("Downloading Dependency Check " +:+ requested_version env
                 +:+ " installer from GitHub...") ;;
    getDependencyCheckDownloadUrl env (requested_version env).

(** One step [m] of a sequence of steps that ends as [(out, w')]: when
    the step returns, the sequence goes on from the value and the world
    that it returned, as [next] says; when it does not return, its
    outcome is that of the sequence. *)
Definition stage {A} (m : M A) (w : World) (out : Outcome unit) (w' : World)
    (next : A → World → Prop) : Prop :=
  match m w with
  | (Ok a, w1) => next a w1
  | (Throw e, w1) => out = Throw e ∧ w' = w1
  | (OutOfFuel, w1) => out = OutOfFuel ∧ w' = w1
  end.

(** [w'] continues [w]: its trace is that of [w] with more events, all
    of which satisfy [P]. *)
Definition continues (P : Event → Prop) (w w' : World) : Prop :=
  ∃ evs, trace w' = trace w ++ evs ∧ Forall P evs.

(** An event that is neither a process nor the task result. *)
Definition calm (e : Event) : Prop :=
  is_Exec e = false ∧ is_SetResult e = false.

(** The two ways in which the task runs the script: the smoke test,
    with the default options, and the update, with the line [line] and
    the options that ignore the exit code and STDERR. *)
Definition runs_script (script line : string) (e : Event) : Prop :=
  ∀ tool args opts,
    e = Exec tool args opts →
    tool = script
    ∧ (args = Arg "--version" ∧ opts = default_exec_options
       ∨ args = Line line
         ∧ opts = {| failOnStdErr := false; ignoreReturnCode := true |}).

(** * Properties *)

(** ** Version validation *)

Section VersionFormat.
Import JsString Regex.

(** Under the [i] flag a code unit matches a lower-case ASCII letter
    of the pattern exactly when its lower case is that letter. *)
Lemma canonicalize_letter (a c : ascii) :
  c ∈ ["d"; "l"; "a"; "t"; "e"; "s"]%char →
  (canonicalize true a =? canonicalize true c)%N = same_letter a c.
Proof.
  intros Hc.
  repeat (apply elem_of_cons in Hc as [->|Hc]);
    [ destruct a as [[] [] [] [] [] [] [] []]; vm_compute; reflexivity .. | ].
  by apply elem_of_nil in Hc.
Qed.

(** The text of the template literal loses its backslashes. *)
Lemma versionPattern_cooked : versionPattern = "^(d.d.d|latest)$".
Proof. reflexivity. Qed.

Lemma versionRegex_compiled :
  new_RegExp versionPattern "gi" =
  Some {| source :=
            Seq AssertStart
              (Seq (Group
                      (Alt (Seq (Chr "d") (Seq AnyChar (Seq (Chr "d")
                              (Seq AnyChar (Chr "d")))))
                           (Seq (Chr "l") (Seq (Chr "a") (Seq (Chr "t")
                              (Seq (Chr "e") (Seq (Chr "s") (Chr "t"))))))))
                   AssertEnd);
          ignoreCase := true; global := true |}.
Proof. reflexivity. Qed.

(** An expression anchored at the start matches at no later index. *)
Lemma exec_from_anchored ic r i s :
  exec_from ic (Seq AssertStart r) (S i) s = false.
Proof.
  revert i. induction s as [|c s IH]; intros i; simpl; [done|].
  apply IH.
Qed.

Lemma bool_decide_String (a b : ascii) (s t : string) :
  bool_decide (String a s = String b t)
  = bool_decide (a = b) && bool_decide (s = t).
Proof.
  repeat case_bool_decide; simpl; congruence.
Qed.

Lemma bool_decide_String_Empty (a : ascii) (s : string) :
  bool_decide (String a s = EmptyString) = false.
Proof. by case_bool_decide. Qed.

Lemma bool_decide_Empty_String (a : ascii) (s : string) :
  bool_decide (EmptyString = String a s) = false.
Proof. by case_bool_decide. Qed.

Lemma bool_decide_Empty_Empty :
  bool_decide (EmptyString = EmptyString) = true.
Proof. by case_bool_decide. Qed.

Local Arguments canonicalize : simpl never.

(** The validator computes exactly the language of the cooked pattern. *)
Lemma isVersionFormatValid_cooked (v : string) :
  isVersionFormatValid v = accepted_by_cooked_pattern v.
Proof.
  unfold isVersionFormatValid. rewrite versionRegex_compiled.
  unfold test, accepted_by_cooked_pattern, dependencyCheckVersionLatest.
  cbn [ignoreCase source].
  destruct v as [|a [|x [|b [|y [|c [|f [|g v]]]]]]];
    cbn [exec_from matches Nat.eqb andb orb toLowerCase];
    rewrite ?exec_from_anchored, ?bool_decide_String,
      ?bool_decide_String_Empty, ?bool_decide_Empty_String,
      ?bool_decide_Empty_Empty,
      ?canonicalize_letter by (repeat constructor);
    unfold same_letter;
    repeat match goal with
           | |- context [bool_decide ?P] => destruct (bool_decide P)
           | |- context [is_line_terminator ?P] => destruct (is_line_terminator P)
           end; try reflexivity.
Qed.

(** Had the backslashes reached the regular expression, it would
    accept exactly the format of the description. *)
Lemma uncooked_pattern_meets_spec (v : string) :
  (match new_RegExp uncookedPattern "gi" with
   | Some re => test re v
   | None => false
   end) = validateFormat_spec v.
Proof.
  change (new_RegExp uncookedPattern "gi") with
    (Some {| source :=
               Seq AssertStart
                 (Seq (Group
                         (Alt (Seq Digit (Seq (Chr ".") (Seq Digit
                                 (Seq (Chr ".") Digit))))
                              (Seq (Chr "l") (Seq (Chr "a") (Seq (Chr "t")
                                 (Seq (Chr "e") (Seq (Chr "s") (Chr "t"))))))))
                      AssertEnd);
             ignoreCase := true; global := true |}).
  unfold test, validateFormat_spec, dependencyCheckVersionLatest.
  cbn [ignoreCase source].
  assert (Hdot : ∀ x, (canonicalize true x =? canonicalize true ".")%N
                      = bool_decide (x = "."%char)).
  { intros x. destruct x as [[] [] [] [] [] [] [] []]; vm_compute; reflexivity. }
  destruct v as [|a [|x [|b [|y [|c [|f [|g v]]]]]]];
    cbn [exec_from matches Nat.eqb andb orb toLowerCase];
    rewrite ?exec_from_anchored, ?bool_decide_String,
      ?bool_decide_String_Empty, ?bool_decide_Empty_String,
      ?bool_decide_Empty_Empty, ?Hdot,
      ?canonicalize_letter by (repeat constructor);
    unfold same_letter;
    repeat match goal with
           | |- context [bool_decide ?P] => destruct (bool_decide P)
           | |- context [is_digit ?P] => destruct (is_digit P)
           end; try reflexivity.
Qed.

(** No string that starts with a digit passes the validator. *)
Lemma isVersionFormatValid_digit_first (a : ascii) (s : string) :
  is_digit a = true → isVersionFormatValid (String a s) = false.
Proof.
  intros Ha. rewrite isVersionFormatValid_cooked.
  unfold accepted_by_cooked_pattern, same_letter, dependencyCheckVersionLatest.
  assert (Hd : lower_char a ≠ "d"%char ∧ lower_char a ≠ "l"%char).
  { destruct a as [[] [] [] [] [] [] [] []]; try discriminate Ha;
      split; vm_compute; discriminate. }
  destruct Hd as [Hd Hl]. cbn [toLowerCase].
  rewrite bool_decide_String, (bool_decide_eq_false_2 _ Hl).
  destruct s as [|x [|b [|y [|c [|f s]]]]]; try reflexivity.
  by rewrite (bool_decide_eq_false_2 _ Hd).
Qed.

(** C1. The validator does not accept the numeric format that its
    description promises: the template literal drops the backslashes
    of the pattern, so the expression built is [^(d.d.d|latest)$].
    On [1.2.3] the described format answers [true] and the code
    answers [false]; the other three examples of the description come
    out as described, and [dXd-D] is accepted. *)
Theorem isVersionFormatValid_rejects_dotted_digits :
  validateFormat_spec "1.2.3" = true
  ∧ isVersionFormatValid "1.2.3" = false
  ∧ isVersionFormatValid "10.2.3" = false
  ∧ isVersionFormatValid "LATEST" = true
  ∧ isVersionFormatValid "v1.2.3" = false
  ∧ isVersionFormatValid "dXd-D" = true.
Proof. repeat split; vm_compute; reflexivity. Qed.

End VersionFormat.

(** ** Execution options *)

Section OptionsBuilder.
Import DependencyCheckOptionsBuilder.

(** C5. The options built from a builder take their update-only flag
    from the builder's verbose flag; the other three fields are copied
    from the fields of the same name.  Hence setting the update-only
    flag of the builder changes nothing in what is built, and the
    options that the orchestrator builds have an update-only flag
    equal to the verbose input. *)
Theorem build_takes_updateOnly_from_verbose (b : t) :
  DependencyCheckOptions.isUpdateOnlyEnabled (build b) = isVerboseEnabled b
  ∧ DependencyCheckOptions.isVerboseEnabled (build b) = isVerboseEnabled b
  ∧ DependencyCheckOptions.exportDirectory (build b) = exportDirectory b
  ∧ DependencyCheckOptions.logFilePath (build b) = logFilePath b
  ∧ (∀ value, build (setIsUpdateOnlyEnabled value b) = build b)
  ∧ (∀ exportDir verbose logFile,
       DependencyCheckOptions.isUpdateOnlyEnabled
         (build (setLogFilePath logFile
                   (setIsVerboseEnabled verbose
                      (setIsUpdateOnlyEnabled true
                         (setExportDirectory exportDir b)))))
       = verbose)
  ∧ DependencyCheckOptions.isUpdateOnlyEnabled
      (build (setIsVerboseEnabled false (setIsUpdateOnlyEnabled true b)))
    ≠ isUpdateOnlyEnabled
        (setIsVerboseEnabled false (setIsUpdateOnlyEnabled true b)).
Proof. repeat split; try reflexivity. discriminate. Qed.

End OptionsBuilder.

(** ** The monad *)

Section MonadLaws.
Context {A B : Type}.

Lemma bind_ret_l (a : A) (k : A → M B) : bind (ret a) k = k a.
Proof. reflexivity. Qed.

Lemma bind_Ok_inv (m : M A) (k : A → M B) w b w' :
  bind m k w = (Ok b, w') →
  ∃ a w1, m w = (Ok a, w1) ∧ k a w1 = (Ok b, w').
Proof.
  unfold bind. destruct (m w) as [[a|e|] w1]; intros H; try discriminate.
  by exists a, w1.
Qed.

Lemma bind_Ok (m : M A) (k : A → M B) w a w1 :
  m w = (Ok a, w1) → bind m k w = k a w1.
Proof. unfold bind. by intros ->. Qed.

Lemma bind_Throw (m : M A) (k : A → M B) w e w1 :
  m w = (Throw e, w1) → bind m k w = (Throw e, w1).
Proof. unfold bind. by intros ->. Qed.

End MonadLaws.

(** ** Outcomes and emitted events, compositionally *)

Section Conforms.
Context {A : Type}.
Implicit Types (P : Event → Prop) (m : M A).

Lemma conforms_ret b P (a : A) : conforms b P (ret a).
Proof.
  intros w. split; [done|]. exists []. by rewrite app_nil_r.
Qed.

Lemma conforms_throw P (e : Error) : conforms true P (throw (A:=A) e).
Proof.
  intros w. split; [done|]. exists []. by rewrite app_nil_r.
Qed.

Lemma conforms_weaken b P P' m :
  (∀ e, P e → P' e) → conforms b P m → conforms true P' m.
Proof.
  intros HP Hm w. destruct (Hm w) as [Ho (evs & Ht & Hevs)]. split.
  - destruct (m w).1; simpl in *; done.
  - exists evs. split; [done|]. eapply Forall_impl; eauto.
Qed.

Lemma conforms_mono b P P' m :
  (∀ e, P e → P' e) → conforms b P m → conforms b P' m.
Proof.
  intros HP Hm w. destruct (Hm w) as [Ho (evs & Ht & Hevs)]. split; [done|].
  exists evs. split; [done|]. eapply Forall_impl; eauto.
Qed.

Lemma conforms_may_throw P m : conforms false P m → conforms true P m.
Proof. apply conforms_weaken. auto. Qed.

Lemma conforms_bind {B} b P (m : M B) (k : B → M A) :
  conforms b P m → (∀ x, conforms b P (k x)) → conforms b P (bind m k).
Proof.
  intros Hm Hk w. unfold bind.
  destruct (Hm w) as [Ho (evs & Ht & Hevs)].
  destruct (m w) as [[x|e|] w1]; simpl in *; try done.
  - destruct (Hk x w1) as [Ho' (evs' & Ht' & Hevs')]. split; [done|].
    exists (evs ++ evs'). rewrite Ht', Ht, app_assoc. split; [done|].
    by apply Forall_app.
  - split; [done|]. by exists evs.
Qed.

Lemma conforms_try_catch b P m (h : Error → M A) :
  conforms true P m → (∀ e, conforms b P (h e)) →
  conforms b P (try_catch m h).
Proof.
  intros Hm Hh w. unfold try_catch.
  destruct (Hm w) as [Ho (evs & Ht & Hevs)].
  destruct (m w) as [[x|e|] w1]; simpl in *; try done.
  - split; [done|]. by exists evs.
  - destruct (Hh e w1) as [Ho' (evs' & Ht' & Hevs')]. split; [done|].
    exists (evs ++ evs'). rewrite Ht', Ht, app_assoc. split; [done|].
    by apply Forall_app.
Qed.

End Conforms.

Lemma conforms_emit b P (e : Event) : P e → conforms b P (emit e).
Proof.
  intros He w. split; [done|]. exists [e]. split; [done|]. by constructor.
Qed.

Lemma conforms_set_fs b P f : conforms b P (set_fs f).
Proof.
  intros w. split; [done|]. exists []. simpl. by rewrite app_nil_r.
Qed.

Lemma conforms_for_each {A} b P (l : list A) (f : A → M unit) :
  (∀ x, conforms b P (f x)) → conforms b P (for_each l f).
Proof.
  intros Hf. induction l as [|x l IH]; simpl.
  - apply conforms_ret.
  - apply conforms_bind; auto.
Qed.

Lemma quiet_not_SetResult : quiet not_SetResult.
Proof. by intros e _ _ H. Qed.
Lemma quiet_not_Exec : quiet not_Exec.
Proof. by intros e _ H _. Qed.
Lemma quiet_not_HttpGet : quiet not_HttpGet.
Proof. by intros e H _ _. Qed.
Lemma quiet_gets_only url : quiet (gets_only url).
Proof. intros e H _ _ u ->. discriminate. Qed.

Create HintDb conforms.
#[local] Hint Resolve quiet_not_SetResult quiet_not_Exec quiet_not_HttpGet
  quiet_gets_only : conforms.

Ltac quiet_event :=
  match goal with
  | H : quiet ?P |- ?P _ => by apply H
  end.

Ltac conforms_step :=
  match goal with
  | |- conforms _ _ (bind _ _) => apply conforms_bind; [|intros]
  | |- conforms _ _ (ret _) => apply conforms_ret
  | |- conforms true _ (throw _) => apply conforms_throw
  | |- conforms _ _ (try_catch _ _) => apply conforms_try_catch; [|intros]
  | |- conforms _ _ (for_each _ _) => apply conforms_for_each; intros
  | |- conforms _ _ (emit _) => apply conforms_emit; first [quiet_event | done]
  | |- conforms _ _ (set_fs _) => apply conforms_set_fs
  | |- conforms _ _ (if ?c then _ else _) => destruct c
  | |- conforms _ _ (match ?c with _ => _ end) => destruct c
  | |- conforms _ _ _ => solve [eauto with conforms]
  | |- conforms true _ _ => apply conforms_may_throw; solve [eauto with conforms]
  end.

Ltac conforms_go := repeat conforms_step.

Section ConformsPrimitives.
Context (env : Env) (P : Event → Prop) (HP : quiet P).

Lemma conforms_console_log b msg : conforms b P (console_log msg).
Proof. unfold console_log. conforms_go. Qed.

Lemma conforms_console_error b msg : conforms b P (console_error msg).
Proof. unfold console_error. conforms_go. Qed.

Lemma conforms_read {A} b (f : World → A) : conforms b P (λ w, (Ok (f w), w)).
Proof.
  intros w. split; [done|]. exists []. simpl. by rewrite app_nil_r.
Qed.

Lemma conforms_tl_getInput b name : conforms b P (tl_getInput env name).
Proof. apply conforms_ret. Qed.
Lemma conforms_tl_getPathInput b name : conforms b P (tl_getPathInput env name).
Proof. apply conforms_ret. Qed.
Lemma conforms_tl_getBoolInput b name : conforms b P (tl_getBoolInput env name).
Proof. apply conforms_ret. Qed.
Lemma conforms_tl_getPlatform b : conforms b P (tl_getPlatform_is_windows env).
Proof. apply conforms_ret. Qed.

Lemma conforms_tl_getVariable b name : conforms b P (tl_getVariable name).
Proof. apply conforms_read. Qed.

Lemma conforms_tl_exist b p : conforms b P (tl_exist p).
Proof. apply conforms_read. Qed.

Lemma conforms_tl_findMatch b root pats mb :
  conforms b P (tl_findMatch root pats mb).
Proof. apply conforms_read. Qed.

Lemma conforms_tl_setVariable b name val :
  conforms b P (tl_setVariable name val).
Proof.
  unfold tl_setVariable. conforms_go.
  intros w. split; [done|]. exists []. simpl. by rewrite app_nil_r.
Qed.

Lemma conforms_tl_resolve segs : conforms true P (tl_resolve env segs).
Proof. unfold tl_resolve. conforms_go. Qed.

Lemma conforms_tl_mkdirP p : conforms true P (tl_mkdirP env p).
Proof. unfold tl_mkdirP. conforms_go. Qed.

Lemma conforms_tl_checkPath p name : conforms true P (tl_checkPath p name).
Proof.
  unfold tl_checkPath. apply conforms_bind.
  - apply conforms_tl_exist.
  - intros. conforms_go.
Qed.

Lemma conforms_tl_rmRF p : conforms true P (tl_rmRF env p).
Proof. unfold tl_rmRF. conforms_go. Qed.

Lemma conforms_client_get url :
  P (HttpGet url) → conforms true P (client_get env url).
Proof.
  intros Hu w. unfold client_get.
  destruct (http env _ url); (split; [done|]); exists [HttpGet url];
    (split; [done|]); by constructor.
Qed.

Lemma conforms_readBody b r : conforms b P (readBody r).
Proof. apply conforms_ret. Qed.

Lemma conforms_JSON_parse text : conforms true P (JSON_parse env text).
Proof. unfold JSON_parse. conforms_go. Qed.

Lemma conforms_new_URL_pathname url : conforms true P (new_URL_pathname env url).
Proof. unfold new_URL_pathname. conforms_go. Qed.

Lemma conforms_pipe_to_file file r : conforms true P (pipe_to_file env file r).
Proof. unfold pipe_to_file. conforms_go. Qed.

Lemma conforms_zip_extractAllTo f t : conforms true P (zip_extractAllTo env f t).
Proof. unfold zip_extractAllTo. conforms_go. Qed.

Lemma conforms_tool_exec tool args opts :
  P (Exec tool args opts) → conforms true P (tool_exec env tool args opts).
Proof.
  intros Hu w. unfold tool_exec.
  repeat match goal with
         | |- context [match ?c with _ => _ end] => destruct c
         end;
    (split; [done|]); exists [Exec tool args opts];
    (split; [done|]); by constructor.
Qed.

End ConformsPrimitives.

#[local] Hint Resolve conforms_console_log conforms_console_error
  conforms_tl_getInput conforms_tl_getPathInput conforms_tl_getBoolInput
  conforms_tl_getPlatform conforms_tl_getVariable conforms_tl_exist
  conforms_tl_findMatch conforms_tl_setVariable conforms_tl_resolve
  conforms_tl_mkdirP conforms_tl_checkPath conforms_tl_rmRF
  conforms_client_get conforms_readBody conforms_JSON_parse
  conforms_new_URL_pathname conforms_pipe_to_file conforms_zip_extractAllTo
  conforms_tool_exec : conforms.

Section ConformsTask.
Context (env : Env) (P : Event → Prop) (HP : quiet P).

Lemma conforms_isSystemDebugEnabled b : conforms b P isSystemDebugEnabled.
Proof. unfold isSystemDebugEnabled. conforms_go. Qed.
Hint Resolve conforms_isSystemDebugEnabled : conforms.

Lemma conforms_logDebug b msg : conforms b P (logDebug msg).
Proof. unfold logDebug. conforms_go. Qed.
Hint Resolve conforms_logDebug : conforms.

Lemma conforms_getDependencyCheckDownloadUrl version :
  P (HttpGet (release_url version)) →
  conforms true P (getDependencyCheckDownloadUrl env version).
Proof. intros Hu. unfold getDependencyCheckDownloadUrl. conforms_go. Qed.

Lemma conforms_cleanDirectory path patterns :
  conforms true P (cleanDirectory env path patterns).
Proof. unfold cleanDirectory. conforms_go. Qed.

(** The loop never runs out of fuel when it has more fuel than
    retries left, and it never throws: a failed request ends up in
    its result. *)
Lemma conforms_download_loop fuel url retries :
  P (HttpGet url) → (0 < fuel)%nat → (retries < Z.of_nat fuel)%Z →
  conforms false P (download_loop env fuel url retries).
Proof.
  intros Hu. revert retries.
  induction fuel as [|fuel IH]; intros retries Hpos Hfuel; [lia|].
  simpl. apply conforms_try_catch.
  - conforms_go.
  - intros e. apply conforms_bind; [conforms_go|]. intros _.
    apply conforms_bind; [conforms_go|]. intros _.
    destruct (retries - 1 >=? 0)%Z eqn:Hr.
    + apply IH; lia.
    + apply conforms_ret.
Qed.

Lemma conforms_downloadPackage url :
  P (HttpGet url) → conforms true P (downloadPackage env url).
Proof.
  intros Hu. unfold downloadPackage.
  apply conforms_bind; [conforms_go|]. intros pathname.
  apply conforms_bind; [conforms_go|]. intros installPackage.
  apply conforms_bind.
  - apply conforms_may_throw, conforms_download_loop;
      [done| unfold download_fuel; lia ..].
  - intros [e|r]; conforms_go.
Qed.

Lemma conforms_unzipFileTo filePath targetPath :
  conforms false P (unzipFileTo env filePath targetPath).
Proof. unfold unzipFileTo. conforms_go. Qed.

Lemma conforms_unzipFromUrl zipUrl unzipLocation :
  P (HttpGet zipUrl) → conforms true P (unzipFromUrl env zipUrl unzipLocation).
Proof.
  intros Hu. unfold unzipFromUrl.
  apply conforms_bind; [by apply conforms_downloadPackage|]. intros zip.
  apply conforms_bind; [apply conforms_may_throw, conforms_unzipFileTo|].
  intros _. conforms_go.
Qed.

End ConformsTask.

#[local] Hint Resolve conforms_isSystemDebugEnabled conforms_logDebug
  conforms_getDependencyCheckDownloadUrl conforms_cleanDirectory
  conforms_downloadPackage conforms_unzipFileTo conforms_unzipFromUrl
  : conforms.

Section ConformsRun.
Context (env : Env) (P : Event → Prop) (HP : quiet P).
Context (HExec : ∀ tool args opts, P (Exec tool args opts)).

Lemma conforms_new_builder :
  conforms true P (WithUpdate.new_DependencyCheckOptionsBuilder env).
Proof. unfold WithUpdate.new_DependencyCheckOptionsBuilder. conforms_go. Qed.

Lemma conforms_getDependencyCheckScriptPath dir :
  conforms true P (WithUpdate.getDependencyCheckScriptPath env dir).
Proof. unfold WithUpdate.getDependencyCheckScriptPath. conforms_go. Qed.

(** Once the search for the lock files has returned, as it does here,
    removing them does not fail: a deletion that throws is caught and
    logged. *)
Lemma conforms_removeLockFile dir :
  conforms false P (WithUpdate.removeLockFile env dir).
Proof.
  unfold WithUpdate.removeLockFile.
  apply conforms_bind; [conforms_go|]. intros _.
  apply conforms_bind; [conforms_go|]. intros lockFiles.
  destruct (0 <? length lockFiles)%nat; [|conforms_go].
  apply conforms_bind; [conforms_go|]. intros _.
  apply conforms_for_each. intros lockfile.
  unfold tl_resolve. simpl. rewrite bind_ret_l.
  conforms_go.
Qed.

Lemma conforms_runDependencyCheck script args :
  conforms true P (WithUpdate.runDependencyCheck env script args).
Proof. unfold WithUpdate.runDependencyCheck. conforms_go. Qed.

Hint Resolve conforms_new_builder conforms_getDependencyCheckScriptPath
  conforms_removeLockFile conforms_runDependencyCheck : conforms.

Lemma conforms_updateDependencyCheckData dir hasLocal options :
  conforms true P (WithUpdate.updateDependencyCheckData env dir hasLocal options).
Proof. unfold WithUpdate.updateDependencyCheckData. conforms_go. Qed.

Hint Resolve conforms_updateDependencyCheckData : conforms.

Context (HGet : ∀ url, P (HttpGet url)).

Lemma conforms_WithUpdate_run_try : conforms true P (WithUpdate.run_try env).
Proof. unfold WithUpdate.run_try. conforms_go. Qed.

Lemma conforms_DownloadOnly_run_try : conforms true P (DownloadOnly.run_try env).
Proof. unfold DownloadOnly.run_try. conforms_go. Qed.

End ConformsRun.

#[local] Hint Resolve conforms_new_builder : conforms.

(** ** The top-level handler of [run] *)

Lemma catch_all_wrapper (body : M unit) (w : World) :
  conforms true not_SetResult body →
  catches_all body
    (console_log "Starting Dependency Check download..." ;;
     try_catch body
       (λ err, console_log (message err) ;;
               tl_setResult Failed (message err) true) ;;
     console_log "Ending Dependency Check download...")%task w.
Proof.
  intros Hbody. unfold catches_all, starting.
  unfold bind at 1. unfold console_log at 1 3, emit at 1 2. simpl.
  set (w0 := {| fs := fs w; variables := variables w;
                trace := trace w ++ [_] |}).
  destruct (Hbody w0) as [Ho (evs & Ht & Hevs)].
  unfold bind, try_catch.
  destruct (body w0) as [[[]|err|] w1] eqn:Hb; simpl in *; [| |done].
  - eexists _, _. split; [reflexivity|]. simpl. rewrite Ht. subst w0. simpl.
    rewrite <- !app_assoc. split; [reflexivity|].
    repeat (apply Forall_app; split); try done; by repeat constructor.
  - eexists _, _. split; [reflexivity|]. simpl. rewrite Ht. subst w0. simpl.
    rewrite <- !app_assoc. split; [reflexivity|].
    eexists (_ :: evs). split; [reflexivity|]. by constructor.
Qed.

(** C7. [run] never lets an exception escape, in either revision: what
    is thrown anywhere in the [try] block is caught once, its message is
    logged and the task result is set to [Failed]; when nothing is
    thrown the run ends without setting a result; and the run always
    ends (the retry loop has fuel to spare). *)
Theorem run_catches_every_exception (env : Env) (w : World) :
  catches_all (WithUpdate.run_try env) (WithUpdate.run env) w
  ∧ catches_all (DownloadOnly.run_try env) (DownloadOnly.run env) w.
Proof.
  split; apply catch_all_wrapper.
  - apply conforms_WithUpdate_run_try; auto with conforms; done.
  - apply conforms_DownloadOnly_run_try; auto with conforms; done.
Qed.

(** ** Console-only computations *)

Lemma is_console_quiet (P : Event → Prop) e : quiet P → is_console e → P e.
Proof. intros HP He. apply HP; by destruct e. Qed.

Lemma Forall_console_quiet (P : Event → Prop) evs :
  quiet P → Forall is_console evs → Forall P evs.
Proof.
  intros HP H. eapply Forall_impl; [done|]. intros e. by apply is_console_quiet.
Qed.

Lemma logs_only_console_log msg : logs_only (console_log msg).
Proof. intros w. by eexists tt, _, [ConsoleLog msg]; repeat split; repeat constructor. Qed.

Lemma logs_only_console_error msg : logs_only (console_error msg).
Proof. intros w. by eexists tt, _, [ConsoleError msg]; repeat split; repeat constructor. Qed.

Lemma logs_only_logDebug msg : logs_only (logDebug msg).
Proof.
  intros w. unfold logDebug, isSystemDebugEnabled, bind, tl_getVariable, ret.
  destruct (variables w !! "system.debug") as [s|]; [case_bool_decide|].
  - apply logs_only_console_log.
  - eexists tt, w, []. by rewrite app_nil_r.
  - eexists tt, w, []. by rewrite app_nil_r.
Qed.

Lemma http_requests_app (t evs : list Event) :
  http_requests (t ++ evs) = http_requests t + http_requests evs.
Proof. unfold http_requests. by rewrite List.filter_app, length_app. Qed.

Lemma http_requests_cons (e : Event) (t : list Event) :
  http_requests (e :: t) = (if is_HttpGet e then 1 else 0) + http_requests t.
Proof. unfold http_requests. simpl. by destruct (is_HttpGet e). Qed.

Lemma http_requests_quiet (evs : list Event) :
  Forall not_HttpGet evs → http_requests evs = 0.
Proof.
  unfold http_requests. induction 1 as [|e evs He _ IH]; [done|].
  simpl. by rewrite He.
Qed.

Lemma processes_app (t evs : list Event) :
  processes (t ++ evs) = processes t + processes evs.
Proof. unfold processes. by rewrite List.filter_app, length_app. Qed.

Lemma processes_quiet (evs : list Event) :
  Forall not_Exec evs → processes evs = 0.
Proof.
  unfold processes. induction 1 as [|e evs He _ IH]; [done|].
  simpl. by rewrite He.
Qed.

Lemma conforms_trace {A} b P (m : M A) w out w' :
  conforms b P m → m w = (out, w') →
  allowed b out ∧ ∃ evs, trace w' = trace w ++ evs ∧ Forall P evs.
Proof. intros Hm Hw. specialize (Hm w). by rewrite Hw in Hm. Qed.

(** Stepping over a console-only computation in a sequence. *)
Ltac step_log H :=
  let a := fresh "a" in let w1 := fresh "w" in let evs := fresh "evs" in
  let E := fresh "E" in let Hfs := fresh "Hfs" in let Hvars := fresh "Hvars" in
  let Htr := fresh "Htr" in let Hevs := fresh "Hevs" in
  match goal with
  | |- context [bind ?m ?k ?w] =>
      destruct (H w) as (a & w1 & evs & E & Hfs & Hvars & Htr & Hevs);
      rewrite (bind_Ok m k w a w1 E); destruct a
  end.

Lemma add_events_nil w : add_events w [] = w.
Proof. destruct w. unfold add_events. simpl. by rewrite app_nil_r. Qed.

Lemma logDebug_eq msg w :
  logDebug msg w = (Ok tt, add_events w (debug_events w msg)).
Proof.
  unfold logDebug, isSystemDebugEnabled, bind, tl_getVariable, ret, debug_events.
  destruct (variables w !! "system.debug") as [s|]; [case_bool_decide|];
    first [reflexivity | by rewrite add_events_nil].
Qed.

Lemma bind_logDebug {A} msg (k : unit → M A) w :
  bind (logDebug msg) k w = k tt (add_events w (debug_events w msg)).
Proof. unfold bind at 1. by rewrite logDebug_eq. Qed.

Lemma bind_console_log {A} msg (k : unit → M A) w :
  bind (console_log msg) k w = k tt (add_events w [ConsoleLog msg]).
Proof. reflexivity. Qed.

Lemma bind_console_error {A} msg (k : unit → M A) w :
  bind (console_error msg) k w = k tt (add_events w [ConsoleError msg]).
Proof. reflexivity. Qed.

Lemma debug_events_console w msg : Forall is_console (debug_events w msg).
Proof.
  unfold debug_events. destruct (variables w !! "system.debug") as [s|];
    [case_bool_decide|]; by repeat constructor.
Qed.

Lemma debug_events_quiet P w msg : quiet P → Forall P (debug_events w msg).
Proof. intros HP. eapply Forall_console_quiet; [done|]. apply debug_events_console. Qed.

Lemma http_requests_debug w msg : http_requests (debug_events w msg) = 0.
Proof. apply http_requests_quiet, debug_events_quiet. auto with conforms. Qed.

Lemma processes_debug w msg : processes (debug_events w msg) = 0.
Proof. apply processes_quiet, debug_events_quiet. auto with conforms. Qed.

Lemma debug_events_add w evs msg :
  debug_events (add_events w evs) msg = debug_events w msg.
Proof. reflexivity. Qed.

(** ** Resolution of the download URL *)

Section DownloadUrl.
Context (env : Env).

Lemma release_url_endpoint version : release_url version = endpoint_spec version.
Proof. reflexivity. Qed.

(** C4. The request goes to the [latest] endpoint when the version is
    [latest] in any letter case and to the [tags/v<version>] endpoint
    otherwise, and it is the only request; when the response parses to
    a release with assets, the result is the [browser_download_url] of
    the first asset whose [content_type] is [application/zip]. *)
Theorem getDependencyCheckDownloadUrl_first_zip_asset (version : string)
    (w : World) :
  (∀ out w',
     getDependencyCheckDownloadUrl env version w = (out, w') →
     ∃ evs1 evs2,
       trace w' = trace w ++ evs1 ++ HttpGet (endpoint_spec version) :: evs2
       ∧ Forall not_HttpGet evs1 ∧ Forall not_HttpGet evs2)
  ∧ (∀ resp info before asset after,
       http env (http_requests (trace w)) (endpoint_spec version) = inr resp →
       json_parse env (body resp) = inr info →
       assets info = Some (before ++ asset :: after) →
       Forall (λ a : gmap string string,
                 a !! "content_type" ≠ Some "application/zip") before →
       asset !! "content_type" = Some "application/zip" →
       ∃ w', getDependencyCheckDownloadUrl env version w
             = (Ok (asset !! "browser_download_url"), w')).
Proof.
  rewrite <- release_url_endpoint. unfold getDependencyCheckDownloadUrl.
  split.
  - intros out w'. step_log (logs_only_logDebug "Determine GitHub package URL...").
    unfold bind at 1, client_get at 1.
    set (w1 := {| fs := fs w0; variables := variables w0; trace := _ |}).
    intros Hrun.
    assert (∃ evs2, trace w' = trace w1 ++ evs2 ∧ Forall not_HttpGet evs2)
      as (evs2 & Ht2 & Hevs2).
    { destruct (http env _ _) as [e|resp].
      - injection Hrun as <- <-. exists []. by rewrite app_nil_r.
      - eapply (conforms_trace true not_HttpGet) in Hrun as [_ H]; [done|].
        conforms_go. }
    exists evs, evs2. rewrite Ht2. subst w1. simpl. rewrite Htr.
    rewrite <- !app_assoc. split; [done|]. split; [|done].
    eapply Forall_console_quiet; [|done]. auto with conforms.
  - intros resp info before asset after Hhttp Hjson Hassets Hbefore Hasset.
    step_log (logs_only_logDebug "Determine GitHub package URL...").
    unfold bind at 1, client_get at 1.
    rewrite Htr, http_requests_app, (http_requests_quiet evs), Nat.add_0_r, Hhttp
      by (eapply Forall_console_quiet; [|done]; auto with conforms).
    unfold readBody. rewrite bind_ret_l.
    unfold JSON_parse. rewrite Hjson, bind_ret_l, Hassets.
    assert (List.find is_zip_asset (before ++ asset :: after) = Some asset) as ->.
    { clear -Hbefore Hasset. induction Hbefore as [|a l Ha _ IH]; simpl.
      - unfold is_zip_asset. by rewrite bool_decide_eq_true_2.
      - unfold is_zip_asset at 1. by rewrite bool_decide_eq_false_2. }
    match goal with
    | |- context [bind (logDebug ?msg) ?k ?w] =>
        destruct (logs_only_logDebug msg w) as (? & w2 & ? & E2 & _);
        rewrite (bind_Ok _ k w _ w2 E2)
    end.
    by eexists.
Qed.

End DownloadUrl.

(** ** The download with retries *)

Section Download.
Context (env : Env).

(** One round of the loop: the [try] block sends one request and does
    nothing else but write to the console. *)
Lemma attempt_spec (url : string) (w : World) :
  ∃ w1 evs,
    (console_log ("Downloading ZIP from " +:+ dquote +:+ url +:+ dquote
                  +:+ "...") ;;
     response <- client_get env url ;;
     logDebug "done downloading" ;;
     ret (inr response))%task w
    = (match http env (http_requests (trace w)) url with
       | inl e => Throw e
       | inr r => Ok (inr (A:=Error) r)
       end, w1)
    ∧ fs w1 = fs w ∧ variables w1 = variables w
    ∧ trace w1 = trace w ++ evs ∧ http_requests evs = 1
    ∧ Forall (gets_only url) evs.
Proof.
  unfold bind at 1, console_log at 1, emit at 1.
  unfold bind at 1, client_get at 1. simpl trace.
  rewrite http_requests_app. change (http_requests [ConsoleLog _]) with 0.
  rewrite Nat.add_0_r.
  destruct (http env (http_requests (trace w)) url) as [e|r].
  - eexists _, [_; HttpGet url]. split; [reflexivity|]. simpl.
    rewrite <- app_assoc.
    repeat split; try reflexivity.
    repeat constructor; intros u Hu; congruence.
  - match goal with
    | |- context [bind (logDebug ?msg) ?k ?w] =>
        destruct (logs_only_logDebug msg w)
          as ([] & w2 & evs & E2 & Hfs & Hvars & Htr & Hevs);
        rewrite (bind_Ok _ k w _ w2 E2)
    end.
    simpl in *. eexists w2, (_ :: HttpGet url :: evs).
    split; [reflexivity|].
    rewrite Hfs, Hvars, Htr, <- !app_assoc. simpl.
    repeat split; try reflexivity.
    + unfold http_requests. simpl. f_equal.
      apply (http_requests_quiet evs).
      eapply Forall_console_quiet; [|done]. auto with conforms.
    + repeat constructor; try (intros u Hu; congruence).
      eapply Forall_console_quiet; [|done]. auto with conforms.
Qed.

(** The loop, whatever the server does: [k] requests fail, and then
    either the next one succeeds, within the retries, or the retries
    are used up and the error of the last request is the result. *)
Lemma download_loop_spec (url : string) (fuel : nat) (retries : Z) (w : World) :
  (0 ≤ retries)%Z → (Z.to_nat retries < fuel)%nat →
  ∃ w' evs k,
    fs w' = fs w ∧ variables w' = variables w
    ∧ trace w' = trace w ++ evs ∧ Forall (gets_only url) evs
    ∧ (∀ i, (i < k)%nat →
            ∃ e, http env (http_requests (trace w) + i) url = inl e)
    ∧ (((k ≤ Z.to_nat retries)%nat ∧ http_requests evs = k + 1
        ∧ ∃ resp, http env (http_requests (trace w) + k) url = inr resp
                  ∧ download_loop env fuel url retries w = (Ok (inr resp), w'))
       ∨ (k = Z.to_nat retries + 1 ∧ http_requests evs = k
          ∧ ∃ e, http env (http_requests (trace w) + Z.to_nat retries) url
                 = inl e
                 ∧ download_loop env fuel url retries w = (Ok (inl e), w'))).
Proof.
  revert retries w. induction fuel as [|fuel IH]; intros retries w Hr Hfuel; [lia|].
  cbn [download_loop]. unfold try_catch.
  destruct (attempt_spec url w) as (w1 & evs1 & E1 & Hfs1 & Hv1 & Ht1 & Hn1 & Hg1).
  rewrite E1. clear E1.
  destruct (http env (http_requests (trace w)) url) as [e|resp] eqn:Hhttp.
  - (* the request failed *)
    rewrite !bind_console_error.
    match goal with
    | |- context [add_events (add_events w1 [?a]) [?b]] =>
        set (evs2 := [a; b]); set (w2 := add_events (add_events w1 [a]) [b])
    end.
    assert (Hfs2 : fs w2 = fs w1) by reflexivity.
    assert (Hv2 : variables w2 = variables w1) by reflexivity.
    assert (Ht2 : trace w2 = trace w1 ++ evs2)
      by (subst w2 evs2; simpl; by rewrite <- app_assoc).
    assert (Hc2 : Forall is_console evs2) by (by repeat constructor).
    clearbody w2 evs2.
    assert (Hg2 : Forall (gets_only url) evs2).
    { eapply Forall_console_quiet; [|done]. auto with conforms. }
    assert (Hn2 : http_requests (trace w2) = http_requests (trace w) + 1).
    { rewrite Ht2, Ht1, !http_requests_app, Hn1, (http_requests_quiet evs2); [lia|].
      eapply Forall_console_quiet; [|done]. auto with conforms. }
    destruct (retries - 1 >=? 0)%Z eqn:Hge.
    + destruct (IH (retries - 1)%Z w2) as (w' & evs & k & Hfs & Hv & Ht & Hg & Hfail & Hend);
        [lia..|].
      exists w', (evs1 ++ evs2 ++ evs), (S k).
      rewrite Hfs, Hfs2, Hfs1, Hv, Hv2, Hv1, Ht, Ht2, Ht1, <- !app_assoc.
      repeat (split; [first [reflexivity | by repeat (apply Forall_app; split)]|]).
      split.
      { intros [|i] Hi.
        - rewrite Nat.add_0_r. eauto.
        - destruct (Hfail i) as [e' He']; [lia|]. exists e'.
          rewrite <- He', Hn2. f_equal. lia. }
      rewrite !http_requests_app, Hn1, (http_requests_quiet evs2)
        by (eapply Forall_console_quiet; [|done]; auto with conforms).
      destruct Hend as [(Hk & Hn & resp & Hresp & Hrun)
                       |(Hk & Hn & e' & He' & Hrun)].
      * left. split; [lia|]. split; [lia|]. exists resp. split; [|done].
        rewrite <- Hresp, Hn2. f_equal. lia.
      * right. split; [lia|]. split; [lia|]. exists e'. split; [|done].
        rewrite <- He', Hn2. f_equal. lia.
    + exists w2, (evs1 ++ evs2), 1.
      rewrite Hfs2, Hfs1, Hv2, Hv1, Ht2, Ht1, <- !app_assoc.
      repeat (split; [first [reflexivity | by repeat (apply Forall_app; split)]|]).
      split.
      { intros i Hi. replace i with 0 by lia. rewrite Nat.add_0_r. eauto. }
      right. split; [lia|].
      rewrite http_requests_app, Hn1, (http_requests_quiet evs2)
        by (eapply Forall_console_quiet; [|done]; auto with conforms).
      split; [done|]. exists e. replace (Z.to_nat retries) with 0 by lia.
      rewrite Nat.add_0_r. done.
  - (* the request succeeded *)
    exists w1, evs1, 0.
    repeat (split; [done|]). split; [intros i Hi; lia|].
    left. split; [lia|]. split; [lia|]. exists resp.
    by rewrite Nat.add_0_r.
Qed.

(** [downloadPackage] once the URL has parsed: the loop, and then,
    if a request succeeded, the write of the response to the file. *)
Lemma downloadPackage_spec (url pathname : string) (w : World) :
  url_pathname env url = inr pathname →
  let file := path_resolve env [path_basename env pathname] in
  ∃ out w' evs k,
    downloadPackage env url w = (out, w')
    ∧ trace w' = trace w ++ evs ∧ Forall (gets_only url) evs
    ∧ variables w' = variables w
    ∧ (∀ i, (i < k)%nat →
            ∃ e, http env (http_requests (trace w) + i) url = inl e)
    ∧ (((k ≤ 5)%nat ∧ http_requests evs = k + 1
        ∧ ∃ resp, http env (http_requests (trace w) + k) url = inr resp
                  ∧ match write_error env file with
                    | Some failure =>
                        out = Throw (write_failure failure)
                        ∧ fs w' = (if file_created failure
                                   then fs w ++ [file] else fs w)
                    | None => out = Ok file ∧ fs w' = fs w ++ [file]
                              ∧ FileSaved file (body resp) ∈ evs
                    end)
       ∨ (k = 6 ∧ http_requests evs = 6 ∧ fs w' = fs w
          ∧ ∃ e, http env (http_requests (trace w) + 5) url = inl e
                 ∧ out = Throw e)).
Proof.
  intros Hurl file. unfold downloadPackage, new_URL_pathname.
  rewrite Hurl, bind_ret_l. unfold tl_resolve. cbn [mapM mbind option_bind id mret option_ret].
  rewrite bind_ret_l. fold file.
  destruct (download_loop_spec url download_fuel 5 w)
    as (w1 & evs & k & Hfs & Hv & Ht & Hg & Hfail & Hend);
    [lia | unfold download_fuel; lia |].
  change (Z.to_nat 5) with 5 in Hend.
  destruct Hend as [(Hk & Hn & resp & Hresp & Hrun)|(Hk & Hn & e & He & Hrun)].
  - rewrite (bind_Ok _ _ _ _ _ Hrun). rewrite bind_logDebug.
    unfold pipe_to_file.
    destruct (write_error env file) as [failure|] eqn:Hwrite.
    + destruct (file_created failure) eqn:Hcreated;
        (eexists _, _,
           (evs ++ debug_events w1
                     "Download was successful, saving downloaded ZIP file..."),
           k;
         split; [reflexivity|]; simpl;
         split; [by rewrite Ht, <- app_assoc|];
         split;
         [apply Forall_app; split; [done|]; apply debug_events_quiet;
          auto with conforms|];
         split; [done|]; split; [done|];
         left; rewrite http_requests_app, http_requests_debug;
         split; [done|]; split; [lia|];
         exists resp; split; [done|]; split; [done|]; by rewrite ?Hfs).
    + unfold bind at 1. unfold bind at 1. unfold emit at 1. cbn [set_fs].
      rewrite bind_logDebug. unfold ret.
      eexists _, _,
        (evs ++ debug_events w1
                  "Download was successful, saving downloaded ZIP file..."
             ++ [FileSaved file (body resp)]
             ++ debug_events w1 "Downloaded ZIP file has been saved."), k.
      split; [reflexivity|]. simpl.
      split; [by rewrite Ht, <- !app_assoc|].
      split.
      { repeat (apply Forall_app; split); try done;
          try (apply debug_events_quiet; auto with conforms).
        constructor; [intros u Hu; congruence|].
        apply debug_events_quiet. auto with conforms. }
      split; [done|]. split; [done|].
      left. rewrite !http_requests_app, http_requests_cons, !http_requests_debug.
      cbn [is_HttpGet].
      split; [done|]. split; [lia|].
      exists resp. split; [done|]. split; [done|]. split; [by rewrite Hfs|].
      rewrite !elem_of_app. right. right. left.
  - rewrite (bind_Ok _ _ _ _ _ Hrun).
    exists (Throw e), w1, evs, k.
    repeat (split; [first [done | reflexivity]|]).
    right. subst k. repeat (split; [first [done | lia]|]). eauto.
Qed.

(** C2, as the code has it.  [downloadPackage] sends at most 6
    requests, all to the URL given.  If the first [k ≤ 5] requests
    fail and the next one succeeds, and the write stream finishes, the
    response is saved to the local file and the path of the file is
    returned.  If 6 requests in a row fail, the error of the last of
    them (the sixth) is thrown, and nothing is written. *)
Theorem downloadPackage_retries_rethrows_last (url : string) (w : World) :
  (∀ out w',
     downloadPackage env url w = (out, w') →
     ∃ evs, trace w' = trace w ++ evs ∧ (http_requests evs ≤ 6)%nat
            ∧ Forall (gets_only url) evs)
  ∧ (∀ pathname k resp,
       url_pathname env url = inr pathname →
       (k ≤ 5)%nat →
       (∀ i, (i < k)%nat →
             ∃ e, http env (http_requests (trace w) + i) url = inl e) →
       http env (http_requests (trace w) + k) url = inr resp →
       write_error env (path_resolve env [path_basename env pathname]) = None →
       ∃ w' evs,
         downloadPackage env url w
         = (Ok (path_resolve env [path_basename env pathname]), w')
         ∧ trace w' = trace w ++ evs ∧ http_requests evs = k + 1
         ∧ FileSaved (path_resolve env [path_basename env pathname])
             (body resp) ∈ evs
         ∧ fs w' = fs w ++ [path_resolve env [path_basename env pathname]])
  ∧ (∀ pathname (errors : nat → Error),
       url_pathname env url = inr pathname →
       (∀ i, (i < 6)%nat →
             http env (http_requests (trace w) + i) url = inl (errors i)) →
       ∃ w' evs,
         downloadPackage env url w = (Throw (errors 5), w')
         ∧ trace w' = trace w ++ evs ∧ http_requests evs = 6
         ∧ fs w' = fs w).
Proof.
  split; [|split].
  - intros out w' Hrun.
    destruct (url_pathname env url) as [e|pathname] eqn:Hurl.
    + unfold downloadPackage, new_URL_pathname in Hrun. rewrite Hurl in Hrun.
      injection Hrun as <- <-. exists []. rewrite app_nil_r.
      repeat split; [unfold http_requests; simpl; lia | constructor].
    + destruct (downloadPackage_spec url pathname w Hurl)
        as (out1 & w1 & evs & k & E & Ht & Hg & _ & _ & Hend).
      rewrite Hrun in E. injection E as <- <-.
      exists evs. repeat (split; [done|]). split; [|done].
      destruct Hend as [(? & ? & _)|(? & ? & _)]; lia.
  - intros pathname k resp Hurl Hk Hfail Hok Hwrite.
    destruct (downloadPackage_spec url pathname w Hurl)
      as (out1 & w1 & evs & k1 & E & Ht & Hg & _ & Hfail1 & Hend).
    assert (k1 = k) as ->.
    { destruct (Nat.lt_trichotomy k1 k) as [Hlt|[Heq|Hgt]]; [|done|].
      - destruct (Hfail k1 Hlt) as [e He].
        destruct Hend as [(_ & _ & resp1 & Hresp1 & _)|(? & _)];
          [congruence | lia].
      - destruct (Hfail1 k Hgt) as [e He]. congruence. }
    destruct Hend as [(_ & Hn & resp1 & Hresp1 & Hw)|(? & _)]; [|lia].
    rewrite Hwrite in Hw. destruct Hw as (-> & Hfs & Hsaved).
    assert (resp1 = resp) as -> by congruence.
    by exists w1, evs.
  - intros pathname errors Hurl Hfail.
    destruct (downloadPackage_spec url pathname w Hurl)
      as (out1 & w1 & evs & k1 & E & Ht & Hg & _ & Hfail1 & Hend).
    destruct Hend as [(Hk & _ & resp1 & Hresp1 & _)
                     |(-> & Hn & Hfs & e & He & ->)].
    + rewrite Hfail in Hresp1 by lia. discriminate.
    + rewrite Hfail in He by lia. injection He as <-.
      by exists w1, evs.
Qed.

End Download.

(** C2, a run of the retry rule: the server fails three requests and
    answers the fourth; the archive is saved and returned. *)
Lemma downloadPackage_retries_rethrows_last_witness :
  ∃ w' evs,
    downloadPackage (Failing.env 3) Example.zipUrl Example.world
    = (Ok "/agent/_work/1/s/dependency-check-8.0.0-release.zip", w')
    ∧ trace w' = trace Example.world ++ evs ∧ http_requests evs = 4
    ∧ FileSaved "/agent/_work/1/s/dependency-check-8.0.0-release.zip"
        ("content of " +:+ Example.zipUrl) ∈ evs
    ∧ fs w' = fs Example.world
              ++ ["/agent/_work/1/s/dependency-check-8.0.0-release.zip"].
Proof.
  destruct (downloadPackage_retries_rethrows_last (Failing.env 3)
              Example.zipUrl Example.world) as (_ & Hok & _).
  apply (Hok "/dl/dependency-check-8.0.0-release.zip" 3
           {| body := "content of " +:+ Example.zipUrl |});
    try reflexivity; [lia|].
  intros i Hi. exists (Failing.attempt_error i).
  do 3 (destruct i as [|i]; [reflexivity|]). lia.
Defined.

(** C2, against the claim that the error of the first failed request is
    the one thrown: when the six requests fail with six errors, the
    error thrown is the sixth, not the first. *)
Lemma downloadPackage_does_not_rethrow_first :
  http (Failing.env 6) 0 Example.zipUrl = inl (Failing.attempt_error 0)
  ∧ (∀ i, (i < 6)%nat → ∃ e, http (Failing.env 6) i Example.zipUrl = inl e)
  ∧ (downloadPackage (Failing.env 6) Example.zipUrl Example.world).1
    = Throw (Failing.attempt_error 5)
  ∧ Failing.attempt_error 5 ≠ Failing.attempt_error 0.
Proof.
  split; [reflexivity|]. split.
  - intros i Hi. exists (Failing.attempt_error i).
    do 6 (destruct i as [|i]; [reflexivity|]). lia.
  - split; [vm_compute; reflexivity | discriminate].
Qed.

(** C4, on the release of the example: the first asset is the zip, the
    second a gzip, and the URL of the first is the result. *)
Lemma getDependencyCheckDownloadUrl_first_zip_asset_witness :
  ∃ w', getDependencyCheckDownloadUrl Example.env "latest" Example.world
        = (Ok (Some Example.zipUrl), w').
Proof.
  destruct (getDependencyCheckDownloadUrl_first_zip_asset Example.env "latest"
              Example.world) as [_ H].
  exact (H {| body := "content of " +:+ endpoint_spec "latest" |}
           Example.release [] Example.zip_asset [Example.gzip_asset]
           eq_refl eq_refl eq_refl (List.Forall_nil _) eq_refl).
Defined.

(** ** Extraction and removal of the archive *)

Section Unzip.
Context (env : Env).

Lemma unzipFileTo_eq (filePath targetPath : string) (w : World) :
  unzipFileTo env filePath targetPath w =
  (Ok tt,
   match zip_extract env filePath targetPath with
   | inl failure =>
       {| fs := fs w ++ zip_written failure; variables := variables w;
          trace := trace w ++
            [ConsoleLog ("Extracting '" +:+ filePath +:+ "' to '" +:+ targetPath +:+ "'");
             ExtractAll filePath targetPath;
             ConsoleError ("Extracting '" +:+ filePath +:+ "' failed")] |}
   | inr entries =>
       {| fs := fs w ++ entries; variables := variables w;
          trace := trace w ++
            [ConsoleLog ("Extracting '" +:+ filePath +:+ "' to '" +:+ targetPath +:+ "'");
             ExtractAll filePath targetPath;
             ConsoleLog ("Extracted '" +:+ filePath +:+ "' to '" +:+ targetPath
                         +:+ "' successfully")] |}
   end).
Proof.
  unfold unzipFileTo, zip_extractAllTo. rewrite bind_console_log.
  unfold try_catch, bind, emit, throw, set_fs, console_log, console_error, emit,
    add_events.
  destruct (zip_extract env filePath targetPath); simpl;
    by rewrite <- !app_assoc.
Qed.

Lemma tl_rmRF_Ok_inv (p : string) (w w' : World) :
  tl_rmRF env p w = (Ok tt, w') →
  fs w' = filter (λ q, ¬ Path.under p q) (fs w)
  ∧ variables w' = variables w ∧ trace w' = trace w ++ [RmRF p].
Proof.
  unfold tl_rmRF, bind, emit. simpl.
  destruct (rm_error env p); [discriminate|].
  unfold set_fs. simpl. by intros [= <-].
Qed.

Lemma tl_rmRF_Ok (p : string) (w : World) :
  rm_error env p = None →
  tl_rmRF env p w
  = (Ok tt, {| fs := filter (λ q, ¬ Path.under p q) (fs w);
               variables := variables w; trace := trace w ++ [RmRF p] |}).
Proof. intros H. unfold tl_rmRF, bind, emit. simpl. by rewrite H. Qed.

Lemma removed_not_exists (p : string) (files : list string) :
  exists_in (filter (λ q, ¬ Path.under p q) files) p = false.
Proof.
  unfold exists_in. apply bool_decide_eq_false_2.
  rewrite Exists_exists. intros (q & Hq & Hsame).
  apply list_elem_of_filter in Hq as [Hq _]. apply Hq.
  unfold Path.under, Path.same in *. by rewrite Hsame.
Qed.

(** C3. [unzipFileTo] always returns normally: when the extraction
    throws, the failure is written to the console and that is all that
    the function does about it; the entries that were written before
    the error stay where they are.  [unzipFromUrl] therefore goes on
    after a failed extraction as after a successful one, and every call
    of it that returns has removed the downloaded archive after the
    extraction was tried: the archive does not exist when the call
    returns. *)
Theorem unzip_swallows_failure_and_removes_archive :
  (∀ filePath targetPath w,
     ∃ w', unzipFileTo env filePath targetPath w = (Ok tt, w')
           ∧ variables w' = variables w
           ∧ (∀ failure, zip_extract env filePath targetPath = inl failure →
                   fs w' = fs w ++ zip_written failure
                   ∧ trace w' = trace w ++
                       [ConsoleLog ("Extracting '" +:+ filePath +:+ "' to '"
                                    +:+ targetPath +:+ "'");
                        ExtractAll filePath targetPath;
                        ConsoleError ("Extracting '" +:+ filePath +:+ "' failed")]))
  ∧ (∀ zipUrl unzipLocation w w',
       unzipFromUrl env zipUrl unzipLocation w = (Ok tt, w') →
       ∃ installZipPath w1 evs2 evs3,
         downloadPackage env zipUrl w = (Ok installZipPath, w1)
         ∧ trace w' = trace w1 ++ evs2 ++ RmRF installZipPath :: evs3
         ∧ ExtractAll installZipPath unzipLocation ∈ evs2
         ∧ exists_in (fs w') installZipPath = false)
  ∧ (∀ zipUrl unzipLocation w installZipPath w1,
       downloadPackage env zipUrl w = (Ok installZipPath, w1) →
       rm_error env installZipPath = None →
       ∃ w', unzipFromUrl env zipUrl unzipLocation w = (Ok tt, w')).
Proof.
  split; [|split].
  - intros filePath targetPath w. rewrite unzipFileTo_eq. eexists.
    split; [reflexivity|].
    split; [by destruct (zip_extract env filePath targetPath)|].
    by intros failure ->.
  - intros zipUrl unzipLocation w w' Hrun. unfold unzipFromUrl in Hrun.
    apply bind_Ok_inv in Hrun as (zip & w1 & Hdl & Hrun).
    unfold bind at 1 in Hrun. rewrite unzipFileTo_eq, bind_logDebug in Hrun.
    apply bind_Ok_inv in Hrun as ([] & w4 & Hrm & Hrun).
    rewrite logDebug_eq in Hrun. injection Hrun as <-.
    apply tl_rmRF_Ok_inv in Hrm as (Hfs & Hv & Ht).
    exists zip, w1. simpl. rewrite Hfs, Ht.
    destruct (zip_extract env zip unzipLocation) as [e|entries]; simpl.
    + eexists (_ :: ExtractAll zip unzipLocation :: _ :: debug_events w1 _), _.
      split; [done|]. split; [by rewrite <- !app_assoc|].
      split; [|apply removed_not_exists].
      right. left.
    + eexists (_ :: ExtractAll zip unzipLocation :: _ :: debug_events w1 _), _.
      split; [done|]. split; [by rewrite <- !app_assoc|].
      split; [|apply removed_not_exists].
      right. left.
  - intros zipUrl unzipLocation w zip w1 Hdl Hrm. unfold unzipFromUrl.
    rewrite (bind_Ok _ _ _ _ _ Hdl). unfold bind at 1.
    rewrite unzipFileTo_eq, bind_logDebug.
    rewrite (bind_Ok _ _ _ _ _ (tl_rmRF_Ok _ _ Hrm)), logDebug_eq. by eexists.
Qed.

End Unzip.

(** C3, with an archive that cannot be extracted: the call returns and
    the archive is gone. *)
Lemma unzip_swallows_failure_and_removes_archive_witness :
  zip_extract Broken.env "/agent/_work/1/s/dependency-check-8.0.0-release.zip"
    "/agent/_work/1/s"
  = inl {| zip_failure := mkError "Invalid or unsupported zip format";
           zip_written := [] |}
  ∧ ∃ w', unzipFromUrl Broken.env Example.zipUrl "/agent/_work/1/s" Example.world
          = (Ok tt, w')
          ∧ exists_in (fs w') "/agent/_work/1/s/dependency-check-8.0.0-release.zip"
            = false.
Proof.
  split; [reflexivity|].
  destruct (unzip_swallows_failure_and_removes_archive Broken.env)
    as (_ & Hgone & Hgoes).
  destruct (Hgoes Example.zipUrl "/agent/_work/1/s" Example.world
              "/agent/_work/1/s/dependency-check-8.0.0-release.zip"
              (downloadPackage Broken.env Example.zipUrl Example.world).2)
    as [w' Hrun]; [vm_compute; reflexivity | reflexivity |].
  exists w'. split; [done|].
  destruct (Hgone _ _ _ _ Hrun) as (zip & w1 & evs2 & evs3 & Hdl & _ & _ & Hex).
  assert (zip = "/agent/_work/1/s/dependency-check-8.0.0-release.zip") as <-; [|done].
  assert (H : (downloadPackage Broken.env Example.zipUrl Example.world).1
              = Ok "/agent/_work/1/s/dependency-check-8.0.0-release.zip")
    by (vm_compute; reflexivity).
  rewrite Hdl in H. by injection H.
Defined.

(** ** Paths and glob patterns *)

Section Globs.
Import Path Glob.

Lemma Forall_removelast {A} (P : A → Prop) (l : list A) :
  Forall P l → Forall P (removelast l).
Proof.
  induction 1 as [|x l Hx Hl IH]; simpl; [constructor|].
  destruct l; [constructor|]. by constructor.
Qed.

(** A normalised path has no component [.] or [..]. *)
Lemma segments_clean (p : string) :
  Forall (λ c, is_dots c = false) (segments p).
Proof.
  unfold segments.
  assert (H : ∀ l acc, Forall (λ c, is_dots c = false) acc →
                       Forall (λ c, is_dots c = false) (fold_left step l acc)).
  { induction l as [|c l IH]; intros acc Hacc; [done|]. simpl. apply IH.
    unfold step. destruct (bool_decide (c = "") || bool_decide (c = ".")) eqn:H1;
      [done|].
    apply orb_false_iff in H1 as [_ H1].
    destruct (bool_decide (c = "..")) eqn:H2; [by apply Forall_removelast|].
    apply Forall_app. split; [done|]. constructor; [|done].
    unfold is_dots. by rewrite H1, H2. }
  by apply H.
Qed.

Lemma matchOne_literals (dot : bool) (d : list string) (pat : list segment)
    (file : list string) :
  matchOne dot ((Lit <$> d) ++ pat) file = true
  ↔ ∃ rest, file = d ++ rest ∧ matchOne dot pat rest = true.
Proof.
  revert file. induction d as [|c d IH]; intros file; simpl.
  - split; [by exists file | by intros (rest & -> & H)].
  - destruct file as [|f file].
    + split; [done | by intros (rest & [=] & _)].
    + rewrite andb_true_iff, bool_decide_eq_true, IH. split.
      * intros (-> & rest & -> & H). by exists rest.
      * intros (rest & [= -> ->] & H). eauto.
Qed.

Lemma unswallowed_dot (c : string) : unswallowed true c = is_dots c.
Proof. unfold unswallowed. simpl. apply orb_false_r. Qed.

Lemma matchOne_globstar (file : list string) :
  matchOne true [GlobStar] file = true
  ↔ file ≠ [] ∧ Forall (λ c, is_dots c = false) file.
Proof.
  destruct file as [|f file]; simpl; [by split; [|intros [? _]]|].
  rewrite andb_true_iff, negb_true_iff, forallb_forall, Forall_cons,
    Forall_forall, unswallowed_dot.
  split.
  - intros (Hf & H). repeat split; [done..|].
    intros x Hx. rewrite <- unswallowed_dot. apply negb_true_iff, H.
    by apply list_elem_of_In.
  - intros (_ & Hf & H). split; [done|].
    intros x Hx. apply negb_true_iff. rewrite unswallowed_dot. apply H.
    by apply list_elem_of_In.
Qed.

Lemma matchOne_literal_globstar (c : string) (file : list string) :
  matchOne true [Lit c; GlobStar] file = true
  ↔ ∃ rest, file = c :: rest ∧ rest ≠ []
            ∧ Forall (λ c, is_dots c = false) rest.
Proof.
  change [Lit c; GlobStar] with ((Lit <$> [c]) ++ [GlobStar]).
  rewrite matchOne_literals. setoid_rewrite matchOne_globstar. naive_solver.
Qed.

Lemma matchOne_literal (dot : bool) (c : string) (file : list string) :
  matchOne dot [Lit c] file = true ↔ file = [c].
Proof.
  change [Lit c] with ((Lit <$> [c]) ++ []).
  rewrite matchOne_literals. simpl. split.
  - intros (rest & -> & H). apply bool_decide_eq_true in H. by subst.
  - intros ->. by exists [].
Qed.

(** Sorting the paths found changes their order only. *)
Lemma elem_of_sort_paths (f : string) (l : list string) :
  f ∈ sort_paths l ↔ f ∈ l.
Proof. unfold sort_paths. by rewrite merge_sort_Permutation. Qed.

End Globs.

(** ** Cleaning the install directory *)

Section Clean.
Import Path Glob.
Context (env : Env).

Lemma findMatch_step_all dir found results :
  findMatch_step default_match_options dir found results "**"
  = results ++ filter (λ f, matchOne true ((Lit <$> segments dir) ++ [GlobStar])
                              (segments f) = true ∧ f ∉ results) found.
Proof. reflexivity. Qed.

Lemma findMatch_step_not_data dir found results :
  findMatch_step default_match_options dir found results "!data"
  = filter (λ f, matchOne true ((Lit <$> segments dir) ++ [Lit "data"])
                   (segments f) = false) results.
Proof. reflexivity. Qed.

Lemma findMatch_step_not_below_data dir found results :
  findMatch_step default_match_options dir found results "!data/**"
  = filter (λ f, matchOne true ((Lit <$> segments dir) ++ [Lit "data"; GlobStar])
                   (segments f) = false) results.
Proof. reflexivity. Qed.

Lemma filter_ext_in {A} (P Q : A → Prop) `{∀ x, Decision (P x)}
    `{∀ x, Decision (Q x)} (l : list A) :
  (∀ x, x ∈ l → P x ↔ Q x) → filter P l = filter Q l.
Proof.
  induction l as [|x l IH]; intros HPQ; [done|].
  rewrite !filter_cons.
  destruct (decide (P x)) as [HP|HP], (decide (Q x)) as [HQ|HQ].
  - f_equal. apply IH. intros y Hy. apply HPQ. by right.
  - exfalso. apply HQ, HPQ; [left|done].
  - exfalso. apply HP, HPQ; [left|done].
  - apply IH. intros y Hy. apply HPQ. by right.
Qed.

Lemma filter_all {A} (P : A → Prop) `{∀ x, Decision (P x)} (l : list A) :
  (∀ x, P x) → filter P l = l.
Proof.
  intros HP. induction l as [|x l IH]; [done|].
  rewrite filter_cons_True by done. by f_equal.
Qed.

(** Removing a list of paths one after the other leaves the paths that
    lie beneath none of them. *)
Lemma for_each_rmRF (files : list string) (w : World) :
  (∀ p, rm_error env p = None) →
  ∃ w', for_each files (tl_rmRF env) w = (Ok tt, w')
        ∧ fs w' = filter (λ q, Forall (λ f, ¬ under f q) files) (fs w)
        ∧ variables w' = variables w
        ∧ trace w' = trace w ++ (RmRF <$> files).
Proof.
  intros Hrm. revert w. induction files as [|f files IH]; intros w.
  - exists w. simpl. rewrite app_nil_r. repeat split; try done.
    symmetry. apply filter_all. intros q. constructor.
  - cbn [for_each]. rewrite (bind_Ok _ _ _ _ _ (tl_rmRF_Ok env f w (Hrm f))).
    destruct (IH {| fs := filter (λ q, ¬ under f q) (fs w);
                    variables := variables w;
                    trace := trace w ++ [RmRF f] |})
      as (w' & Hrun & Hfs & Hv & Ht).
    exists w'. split; [done|]. simpl in *. rewrite Hfs, Hv, Ht, <- app_assoc.
    repeat split; try done.
    rewrite list_filter_filter. apply list_filter_iff.
    intros q. rewrite Forall_cons. tauto.
Qed.

Lemma hit_all (dir f : string) :
  matchOne true ((Lit <$> segments dir) ++ [GlobStar]) (segments f) = true
  ↔ ∃ rest, segments f = segments dir ++ rest ∧ rest ≠ [].
Proof.
  rewrite matchOne_literals. setoid_rewrite matchOne_globstar. split.
  - intros (rest & ? & ? & _). eauto.
  - intros (rest & Hf & ?). exists rest. repeat split; try done.
    pose proof (segments_clean f) as Hc. rewrite Hf in Hc.
    by apply Forall_app in Hc as [_ ?].
Qed.

Lemma hit_data (dir f : string) :
  matchOne true ((Lit <$> segments dir) ++ [Lit "data"]) (segments f) = true
  ↔ segments f = segments dir ++ ["data"].
Proof.
  rewrite matchOne_literals. split.
  - intros (rest & Hf & H). apply matchOne_literal in H. by subst.
  - intros Hf. exists ["data"]. split; [done|]. by apply matchOne_literal.
Qed.

Lemma hit_below_data (dir f : string) :
  matchOne true ((Lit <$> segments dir) ++ [Lit "data"; GlobStar]) (segments f) = true
  ↔ ∃ rest, segments f = segments dir ++ "data" :: rest ∧ rest ≠ [].
Proof.
  rewrite matchOne_literals. setoid_rewrite matchOne_literal_globstar. split.
  - intros (rest & -> & r & -> & ? & _). eauto.
  - intros (r & Hf & ?). exists ("data" :: r). split; [done|]. exists r.
    repeat split; try done.
    pose proof (segments_clean f) as Hc. rewrite Hf in Hc.
    apply Forall_app in Hc as [_ Hc]. by apply Forall_cons in Hc as [_ ?].
Qed.

(** The paths that the three patterns select: what exists strictly
    beneath [dir], but for [data] and what is beneath [data]. *)
Lemma findMatch_clean (dir : string) (w : World) :
  exists_in (fs w) dir = true →
  ∃ files,
    tl_findMatch dir ["**"; "!data"; "!data/**"] None w = (Ok files, w)
    ∧ ∀ f, f ∈ files ↔ f ∈ fs w ∧ strictly_under dir f ∧ ¬ in_data_of dir f.
Proof.
  intros Hdir. unfold tl_findMatch. eexists. split; [reflexivity|].
  intros f. rewrite elem_of_sort_paths. cbn [fold_left default].
  rewrite findMatch_step_all, findMatch_step_not_data,
    findMatch_step_not_below_data.
  unfold find_in. rewrite Hdir. cbn [app].
  rewrite !list_elem_of_filter, <- !not_true_iff_false, hit_all, hit_data,
    hit_below_data.
  unfold strictly_under, under, in_data_of. split.
  - intros (Hbelow & Hdata & (Hall & _) & Hunder & Hf).
    destruct Hall as (rest & Hrest & Hne).
    split; [done|]. split; [split; [done|]|].
    + rewrite Hrest. intros Heq. apply Hne.
      apply (app_inv_head (segments dir)). by rewrite app_nil_r.
    + intros [t Ht]. rewrite <- app_assoc in Ht. simpl in Ht.
      destruct t as [|c t]; [by apply Hdata|]. apply Hbelow. by exists (c :: t).
  - intros (Hf & ([rest Hrest] & Hne) & Hdata).
    split; [|split; [|split; [split|split; [|done]]]].
    + intros (r & Hr & _). apply Hdata. exists r. by rewrite <- app_assoc.
    + intros Heq. apply Hdata. exists []. by rewrite app_nil_r.
    + exists rest. split; [done|]. intros ->. by rewrite app_nil_r in Hrest.
    + apply not_elem_of_nil.
    + by exists rest.
Qed.

(** Removing the selected paths leaves what the clean-up keeps. *)
Lemma survivors_kept (dir : string) (files all : list string) :
  (∀ f, f ∈ files ↔ f ∈ all ∧ strictly_under dir f ∧ ¬ in_data_of dir f) →
  filter (λ q, Forall (λ f, ¬ under f q) files) all
  = filter (kept_by_clean dir) all.
Proof.
  intros Hfiles. apply filter_ext_in. intros q Hq.
  rewrite Forall_forall. unfold kept_by_clean. split.
  - intros Hnone.
    destruct (decide (strictly_under dir q)) as [Hs|Hs]; [|by left].
    destruct (decide (in_data_of dir q)) as [Hd|Hd]; [by right|].
    exfalso. apply (Hnone q); [by apply Hfiles | by exists []; rewrite app_nil_r].
  - intros Hkept f Hf Hunder. apply Hfiles in Hf as (_ & Hstrict & Hdata).
    destruct Hstrict as [[rest Hrest] Hne]. destruct Hunder as [t Ht'].
    destruct Hkept as [Hkept|[t' Hin]].
    + apply Hkept. split.
      * exists (rest ++ t). by rewrite Ht', Hrest, <- app_assoc.
      * intros Heq. rewrite <- Heq, Hrest, <- app_assoc in Ht'.
        apply (f_equal length) in Ht'. rewrite !length_app in Ht'.
        destruct rest; [by rewrite app_nil_r in Hrest|simpl in Ht'; lia].
    + apply Hdata. rewrite Ht', Hrest, <- !app_assoc in Hin.
      apply app_inv_head in Hin. simpl in Hin.
      destruct rest as [|c rest]; [by rewrite app_nil_r in Hrest|].
      injection Hin as -> Hin. exists rest. by rewrite Hrest, <- app_assoc.
Qed.

Lemma for_each_rmRF_Ok_inv (files : list string) (w w' : World) :
  for_each files (tl_rmRF env) w = (Ok tt, w') →
  fs w' = filter (λ q, Forall (λ f, ¬ under f q) files) (fs w)
  ∧ variables w' = variables w
  ∧ trace w' = trace w ++ (RmRF <$> files).
Proof.
  revert w. induction files as [|f files IH]; intros w Hrun.
  - injection Hrun as <-. simpl. rewrite app_nil_r. repeat split.
    symmetry. apply filter_all. intros q. constructor.
  - cbn [for_each] in Hrun. apply bind_Ok_inv in Hrun as ([] & w1 & Hrm & Hrun).
    apply tl_rmRF_Ok_inv in Hrm as (Hfs1 & Hv1 & Ht1).
    apply IH in Hrun as (Hfs & Hv & Ht).
    rewrite Hfs, Hv, Ht, Hfs1, Hv1, Ht1, <- app_assoc. repeat split.
    rewrite list_filter_filter. apply list_filter_iff.
    intros q. rewrite Forall_cons. tauto.
Qed.

(** Whenever the clean-up of an existing directory returns, it has
    left what it keeps and nothing else. *)
Lemma cleanDirectory_Ok_inv (dir : string) (w w' : World) :
  exists_in (fs w) dir = true →
  cleanDirectory env dir ["**"; "!data"; "!data/**"] w = (Ok tt, w') →
  fs w' = filter (kept_by_clean dir) (fs w) ∧ variables w' = variables w.
Proof.
  intros Hdir Hrun.
  destruct (findMatch_clean dir w Hdir) as (files & Hfind & Hfiles).
  unfold cleanDirectory in Hrun. rewrite (bind_Ok _ _ _ _ _ Hfind) in Hrun.
  apply for_each_rmRF_Ok_inv in Hrun as (Hfs & Hv & _).
  split; [|done]. rewrite Hfs. by apply survivors_kept.
Qed.

(** C6. Cleaning an existing directory with the patterns [**],
    [!data] and [!data/**] removes every file and folder beneath the
    directory but its [data] folder and what lies beneath that: the
    paths kept are kept as they were, nothing else changes, and nothing
    is removed that is not beneath the directory.  It does so whenever
    no deletion fails, and it has done so whenever it returns. *)
Theorem cleanDirectory_keeps_data (dir : string) (w : World) :
  exists_in (fs w) dir = true →
  ((∀ p, rm_error env p = None) →
   ∃ w' files,
     cleanDirectory env dir ["**"; "!data"; "!data/**"] w = (Ok tt, w')
     ∧ fs w' = filter (kept_by_clean dir) (fs w)
     ∧ variables w' = variables w
     ∧ trace w' = trace w ++ (RmRF <$> files)
     ∧ (∀ f, f ∈ files → strictly_under dir f ∧ ¬ in_data_of dir f))
  ∧ (∀ w', cleanDirectory env dir ["**"; "!data"; "!data/**"] w = (Ok tt, w') →
           fs w' = filter (kept_by_clean dir) (fs w)).
Proof.
  intros Hdir. split.
  - intros Hrm.
    destruct (findMatch_clean dir w Hdir) as (files & Hfind & Hfiles).
    unfold cleanDirectory. rewrite (bind_Ok _ _ _ _ _ Hfind).
    destruct (for_each_rmRF files w Hrm) as (w' & Hrun & Hfs & Hv & Ht).
    exists w', files. split; [done|]. split; [|split; [done|split; [done|]]].
    + rewrite Hfs. by apply survivors_kept.
    + intros f Hf. by apply Hfiles in Hf as (_ & ? & ?).
  - intros w' Hrun. by apply (cleanDirectory_Ok_inv dir w w').
Qed.

End Clean.

(** C6, on an old installation: the script and the lock file go, the
    data and what is outside the directory stay. *)
Lemma cleanDirectory_keeps_data_witness :
  ∃ w', cleanDirectory Example.env Stale.install ["**"; "!data"; "!data/**"]
          Stale.world = (Ok tt, w')
        ∧ fs w' = [Example.sources; Stale.install;
                   Stale.install +:+ "/data";
                   Stale.install +:+ "/data/odc.mv.db";
                   Stale.install +:+ "/data/cache/a.json";
                   Example.sources +:+ "/src/main.ts"].
Proof.
  destruct (cleanDirectory_keeps_data Example.env Stale.install Stale.world)
    as [Hclean _]; [vm_compute; reflexivity|].
  destruct Hclean as (w' & files & Hrun & Hfs & _); [reflexivity|].
  exists w'. split; [done|]. rewrite Hfs. vm_compute. reflexivity.
Defined.

(** ** The update step *)

Section Update.
Context (env : Env).

Lemma conforms_false_Ok {A} P (m : M A) (w : World) :
  conforms false P m →
  ∃ a w' evs, m w = (Ok a, w') ∧ trace w' = trace w ++ evs ∧ Forall P evs.
Proof.
  intros Hm. destruct (Hm w) as [Ho (evs & Ht & Hevs)].
  destruct (m w) as [[a|e|] w']; simpl in *; [|done..].
  by exists a, w', evs.
Qed.

Lemma getExecutableArguments_eq (options : DependencyCheckOptions.t) :
  DependencyCheckOptions.getExecutableArguments options = update_arguments options.
Proof.
  unfold DependencyCheckOptions.getExecutableArguments, update_arguments.
  by destruct (DependencyCheckOptions.isVerboseEnabled options).
Qed.

Lemma getDependencyCheckScriptPath_located (dir : string) (w : World) :
  (tl_exist (Some (script_of env dir)) w).1 = Ok true →
  WithUpdate.getDependencyCheckScriptPath env dir w
  = (Ok (script_of env dir),
     add_events w [ConsoleLog ("Dependency Check script set to "
                               +:+ script_of env dir)]).
Proof.
  intros Hexist. unfold WithUpdate.getDependencyCheckScriptPath.
  unfold tl_getPlatform_is_windows. rewrite bind_ret_l.
  unfold tl_resolve. cbn [mapM mbind option_bind id mret option_ret].
  rewrite bind_ret_l. fold (script_of env dir).
  rewrite bind_console_log. unfold tl_checkPath, bind.
  unfold tl_exist in *. simpl in *. injection Hexist as ->. reflexivity.
Qed.

Lemma bind_tl_setVariable {A} name val (k : unit → M A) w :
  bind (tl_setVariable name val) k w
  = k tt {| fs := fs w; variables := <[name := val]> (variables w);
            trace := trace w ++ [SetVariable name val] |}.
Proof. reflexivity. Qed.

Lemma tool_exec_eq tool args opts w :
  tool_exec env tool args opts w
  = (let o := process env (processes (trace w)) tool args in
     match processError o with
     | Some e =>
         Throw (mkError ("There was an error when attempting to execute the process '"
                         +:+ tool +:+ "'. " +:+ message e))
     | None =>
         if negb (processExitCode o =? 0)%Z && negb (ignoreReturnCode opts)
         then Throw (mkError ("The process '" +:+ tool
                              +:+ "' failed with exit code "
                              +:+ show_Z (processExitCode o)))
         else if processStderr o && failOnStdErr opts
         then Throw (mkError ("The process '" +:+ tool
                              +:+ "' failed because one or more lines were written to the STDERR stream"))
         else Ok (processExitCode o)
     end, add_events w [Exec tool args opts]).
Proof.
  unfold tool_exec. cbv zeta.
  destruct (processError _); [reflexivity|].
  destruct (negb _ && negb _); [reflexivity|].
  by destruct (processStderr _ && failOnStdErr opts).
Qed.

(** C9. Once the script is located, the update step runs it with
    [--version] first, and fails as a whole when that run cannot be
    started or exits with a code other than 0, without running the
    script again.  Otherwise it runs the script a second time, with the
    line [--updateonly], followed by [--log] and the path of the log
    file when verbose is enabled; whatever the exit code of this second
    run and whatever it wrote to STDERR, the step does not fail, and the
    exit code is written to the console. *)
Theorem updateDependencyCheckData_smoke_then_update (dir : string)
    (hasLocalInstallation : bool) (options : DependencyCheckOptions.t)
    (w : World) :
  let script := script_of env dir in
  let smoke := process env (processes (trace w)) script (Arg "--version") in
  let args := update_arguments options in
  let update := process env (S (processes (trace w))) script (Line args) in
  (tl_exist (Some script) w).1 = Ok true →
  (¬ smoke_test_passes smoke →
   ∃ e w' evs,
     WithUpdate.updateDependencyCheckData env dir hasLocalInstallation options w
     = (Throw e, w')
     ∧ trace w' = trace w ++ evs ++ [Exec script (Arg "--version")
                                       default_exec_options]
     ∧ Forall not_Exec evs)
  ∧ (smoke_test_passes smoke →
     ∃ out w' evs1 evs2 evs3,
       WithUpdate.updateDependencyCheckData env dir hasLocalInstallation options w
       = (out, w')
       ∧ trace w' = trace w ++ evs1
                      ++ Exec script (Arg "--version") default_exec_options
                      :: evs2
                      ++ Exec script (Line args)
                           {| failOnStdErr := false; ignoreReturnCode := true |}
                      :: evs3
       ∧ Forall not_Exec evs1 ∧ Forall not_Exec evs2 ∧ Forall not_Exec evs3
       ∧ (processError update = None →
          out = Ok tt
          ∧ evs3 = [ConsoleLog ("Dependency Check completed with exit code "
                                +:+ show_Z (processExitCode update) +:+ ".")])).
Proof.
  intros script smoke args update Hlocated.
  unfold WithUpdate.updateDependencyCheckData.
  rewrite (bind_Ok _ _ _ _ _ (getDependencyCheckScriptPath_located dir w Hlocated)).
  fold script. rewrite getExecutableArguments_eq. fold args.
  rewrite !bind_console_log, bind_tl_setVariable.
  match goal with
  | |- context [bind (tool_exec env script ?a ?o) ?k ?W] =>
      set (w0 := W);
      set (evs1 := [ConsoleLog ("Dependency Check script set to " +:+ script);
                    ConsoleLog "Invoking Dependency Check data update...";
                    ConsoleLog ("Path: " +:+ script);
                    ConsoleLog ("Arguments: " +:+ args);
                    SetVariable "JAVA_OPTS" "-Xss8192k"])
  end.
  assert (Ht0 : trace w0 = trace w ++ evs1)
    by (subst w0 evs1; simpl; by rewrite <- !app_assoc).
  assert (Hq1 : Forall not_Exec evs1) by (by repeat constructor).
  assert (Hn0 : processes (trace w0) = processes (trace w))
    by (rewrite Ht0, processes_app, (processes_quiet evs1); [lia|done]).
  clearbody w0 evs1.
  unfold smoke_test_passes. split.
  - intros Hfail.
    unfold bind at 1. rewrite tool_exec_eq. cbv zeta. rewrite Hn0.
    change (process env (processes (trace w)) script (Arg _)) with smoke.
    destruct (processError smoke) as [e|] eqn:He.
    + eexists _, _, evs1. split; [reflexivity|]. simpl.
      by rewrite Ht0, <- app_assoc.
    + destruct (processExitCode smoke =? 0)%Z eqn:Hc.
      * exfalso. apply Hfail. split; [done|]. by apply Z.eqb_eq.
      * eexists _, _, evs1. split; [reflexivity|]. simpl.
      by rewrite Ht0, <- app_assoc.
  - intros [He Hc].
    unfold bind at 1. rewrite tool_exec_eq. cbv zeta. rewrite Hn0.
    change (process env (processes (trace w)) script (Arg _)) with smoke.
    rewrite He, Hc. simpl. rewrite andb_false_r.
    set (w1 := add_events w0 _).
    assert (Hlock : conforms false not_Exec
                      (if negb hasLocalInstallation
                       then WithUpdate.removeLockFile env dir else ret tt)).
    { destruct hasLocalInstallation; simpl.
      - apply conforms_ret.
      - apply conforms_removeLockFile. auto with conforms. }
    destruct (conforms_false_Ok _ _ w1 Hlock) as ([] & w2 & evs2 & E2 & Ht2 & Hq2).
    rewrite (bind_Ok _ _ _ _ _ E2).
    assert (Hn2 : processes (trace w2) = S (processes (trace w))).
    { rewrite Ht2. subst w1. simpl.
      rewrite !processes_app, Hn0, (processes_quiet evs2) by done.
      unfold processes. simpl. lia. }
    unfold WithUpdate.runDependencyCheck.
    unfold bind at 1. unfold bind at 1. rewrite tool_exec_eq. cbv zeta.
    rewrite Hn2. fold update. simpl.
    destruct (processError update) as [e|] eqn:He2.
    + eexists _, _, evs1, evs2, []. split; [reflexivity|]. simpl.
      rewrite Ht2. subst w1. simpl. rewrite Ht0, <- !app_assoc. simpl.
      by repeat split.
    + rewrite !andb_false_r. simpl.
      eexists _, _, evs1, evs2, [_]. split; [reflexivity|]. simpl.
      rewrite Ht2. subst w1. simpl. rewrite Ht0, <- !app_assoc. simpl.
      repeat split; try done. by repeat constructor.
Qed.

End Update.

(** C9, with a verbose update that exits with code 14 after writing to
    STDERR: the step returns, and the second run got the log file. *)
Lemma updateDependencyCheckData_smoke_then_update_witness :
  ∃ w' evs,
    WithUpdate.updateDependencyCheckData Updating.env Stale.install false
      Updating.options Updating.world = (Ok tt, w')
    ∧ trace w' = trace Updating.world ++ evs
    ∧ Exec "/agent/_work/1/s/dependency-check/bin/dependency-check.sh"
        (Line "--updateonly --log /agent/_work/1/a/dependency-check/dependency-check-log.txt")
        {| failOnStdErr := false; ignoreReturnCode := true |} ∈ evs
    ∧ ConsoleLog "Dependency Check completed with exit code 14." ∈ evs.
Proof.
  destruct (updateDependencyCheckData_smoke_then_update Updating.env
              Stale.install false Updating.options Updating.world)
    as [_ Hpass]; [vm_compute; reflexivity|].
  destruct Hpass as (out & w' & evs1 & evs2 & evs3 & Hrun & Ht & _ & _ & _ & Hout);
    [by split|].
  destruct Hout as [-> ->]; [reflexivity|].
  eexists w', _. split; [done|]. split; [exact Ht|].
  split.
  - rewrite elem_of_app. right. right. rewrite elem_of_app. right. left.
  - rewrite elem_of_app. right. right. rewrite elem_of_app. right. right. left.
Defined.

(** ** The orchestration *)

Section Orchestration.
Context (env : Env).

Lemma bind_tl_getVariable {A} name (k : option string → M A) w :
  bind (tl_getVariable name) k w = k (variables w !! name) w.
Proof. reflexivity. Qed.

Lemma tl_resolve_1 (a : string) :
  tl_resolve env [Some a] = ret (path_resolve env [a]).
Proof. reflexivity. Qed.

Lemma tl_resolve_2 (a b : string) :
  tl_resolve env [Some a; Some b] = ret (path_resolve env [a; b]).
Proof. reflexivity. Qed.

Lemma tl_resolve_3 (a b c : string) :
  tl_resolve env [Some a; Some b; Some c] = ret (path_resolve env [a; b; c]).
Proof. reflexivity. Qed.

Tactic Notation "invert_bind" hyp(H) "as" ident(a) ident(w) ident(E) :=
  apply bind_Ok_inv in H as (a & w & E & H).
Tactic Notation "skip_bind" hyp(H) :=
  let a := fresh "skipped" in let w := fresh "world" in let E := fresh "E" in
  apply bind_Ok_inv in H as (a & w & E & H); clear E.

(** A run of the revision with the update step that returns normally
    with the install path unset has gone through the installation:
    after the preparation of the log and export directories, it created
    the install directory, chose the URL of the archive, cleaned the
    install directory, downloaded and extracted the archive into the
    working directory, and ran the update. *)
Lemma WithUpdate_run_try_Ok_inv (w w' : World) :
  WithUpdate.run_try env w = (Ok tt, w') →
  install_path_unset env w →
  ∃ wp w1 w2 w3 w4 installZipUrl options,
    isVersionFormatValid (requested_version env) = true
    ∧ tl_mkdirP env (Some (path_resolve env ["."; "dependency-check"])) wp
      = (Ok tt, w1)
    ∧ (if JsString.truthy (custom_url env)
       then installZipUrl = custom_url env
            ∧ w2 = add_events w1
                     [ConsoleLog ("Downloading Dependency Check installer from "
                                  +:+ JsString.show (custom_url env) +:+ "...")]
       else getDependencyCheckDownloadUrl env (requested_version env)
              (add_events w1
                 [ConsoleLog ("Downloading Dependency Check "
                              +:+ requested_version env
                              +:+ " installer from GitHub...")])
            = (Ok installZipUrl, w2))
    ∧ cleanDirectory env (path_resolve env ["."; "dependency-check"])
        clean_patterns w2 = (Ok tt, w3)
    ∧ unzipFromUrl env (JsString.show installZipUrl) (path_resolve env ["./"]) w3
      = (Ok tt, w4)
    ∧ WithUpdate.updateDependencyCheckData env
        (path_resolve env ["."; "dependency-check"]) false options w4
      = (Ok tt, w').
Proof.
  intros H Hunset. unfold WithUpdate.run_try in H.
  unfold tl_getInput, tl_getPathInput, tl_getBoolInput in H.
  repeat (rewrite bind_ret_l in H; cbv beta in H).
  rewrite !bind_tl_getVariable in H.
  fold (custom_url env) in H.
  change (JsString.trim (if JsString.truthy _ then _ else _))
    with (requested_version env) in H.
  do 10 skip_bind H.
  invert_bind H as valid wp Evalid.
  destruct (isVersionFormatValid (requested_version env)) eqn:Hvalid;
    [|discriminate].
  unfold install_path_unset in Hunset. rewrite Hunset in H.
  rewrite tl_resolve_2, bind_ret_l in H.
  invert_bind H as created w1 Emkdir. destruct created.
  invert_bind H as installZipUrl w2 Eurl.
  invert_bind H as cleaned w3 Eclean. destruct cleaned.
  rewrite tl_resolve_1, bind_ret_l in H.
  invert_bind H as unzipped w4 Eunzip. destruct unzipped.
  eexists wp, w1, w2, w3, w4, installZipUrl, _.
  split; [done|]. split; [exact Emkdir|]. split; [|by repeat split].
  destruct (JsString.truthy (custom_url env)).
  - rewrite bind_console_log in Eurl. by injection Eurl as <- <-.
  - by rewrite bind_console_log in Eurl.
Qed.

Lemma conforms_ext {A} b P (m m' : M A) :
  (∀ w, m w = m' w) → conforms b P m → conforms b P m'.
Proof. intros Heq Hm w. rewrite <- Heq. apply Hm. Qed.

Lemma conforms_bind_log_ret {A C} b P msg (c : C) (k : C → M A) :
  conforms b P (bind (console_log msg) (λ _, k c)) →
  conforms b P (bind (bind (console_log msg) (λ _, ret c)) k).
Proof. by apply conforms_ext. Qed.

Lemma gets_only_Exec u tool args opts : gets_only u (Exec tool args opts).
Proof. intros ? [=]. Qed.

Lemma gets_only_self u : gets_only u (HttpGet u).
Proof. by intros ? [= ->]. Qed.

Ltac custom_url_step :=
  match goal with
  | |- conforms ?b ?P
         (bind (if JsString.truthy (Some (String _ _)) then ?a else _) ?k) =>
      change (conforms b P (bind a k))
  | |- conforms _ _ (bind (bind (console_log _) (λ _, ret _)) _) =>
      apply conforms_bind_log_ret
  | |- conforms true _ (unzipFromUrl _ _ _) =>
      apply conforms_unzipFromUrl;
      [auto with conforms | apply gets_only_self]
  | |- conforms true _ (WithUpdate.updateDependencyCheckData _ _ _ _) =>
      apply conforms_updateDependencyCheckData;
      [auto with conforms | apply gets_only_Exec]
  | |- _ => conforms_step
  end.

(** With a custom source URL, all requests of the [try] block go to
    that URL. *)
Lemma conforms_WithUpdate_run_try_custom (u : string) :
  custom_url env = Some u → u ≠ "" →
  conforms true (gets_only u) (WithUpdate.run_try env).
Proof.
  intros Hcustom Hu. destruct u as [|c u]; [done|].
  unfold WithUpdate.run_try, tl_getInput, tl_getPathInput, tl_getBoolInput.
  repeat (rewrite bind_ret_l; cbv beta).
  fold (custom_url env). rewrite Hcustom.
  change (JsString.show (Some (String c u))) with (String c u).
  repeat custom_url_step.
Qed.

Lemma conforms_DownloadOnly_run_try_custom (u : string) :
  custom_url env = Some u → u ≠ "" →
  conforms true (gets_only u) (DownloadOnly.run_try env).
Proof.
  intros Hcustom Hu. destruct u as [|c u]; [done|].
  unfold DownloadOnly.run_try, tl_getInput, tl_getPathInput, tl_getBoolInput.
  repeat (rewrite bind_ret_l; cbv beta).
  fold (custom_url env). rewrite Hcustom.
  change (JsString.show (Some (String c u))) with (String c u).
  repeat custom_url_step.
Qed.

(** Resolving the URL touches no file. *)
Lemma getDependencyCheckDownloadUrl_fs (version : string) (w w' : World) out :
  getDependencyCheckDownloadUrl env version w = (out, w') → fs w' = fs w.
Proof.
  unfold getDependencyCheckDownloadUrl. rewrite bind_logDebug.
  unfold bind at 1, client_get.
  destruct (http env _ _) as [e|resp]; [by intros [= <- <-]|].
  unfold readBody. rewrite bind_ret_l. unfold JSON_parse.
  destruct (json_parse env (body resp)) as [e|info]; [by intros [= <- <-]|].
  rewrite bind_ret_l.
  destruct (assets info) as [l|]; [|by intros [= <- <-]].
  destruct (List.find is_zip_asset l) as [asset|]; [|by intros [= <- <-]].
  rewrite bind_logDebug. by intros [= <- <-].
Qed.

Lemma tl_mkdirP_Ok_inv (p : string) (w w1 : World) :
  tl_mkdirP env (Some p) w = (Ok tt, w1) →
  fs w1 = fs w ++ Path.ancestors p ++ [p]
  ∧ trace w1 = trace w ++ [MkdirP p]
  ∧ exists_in (fs w1) p = true.
Proof.
  unfold tl_mkdirP. destruct p as [|c p]; [discriminate|].
  unfold bind, emit. simpl. destruct (mkdir_error env _); [discriminate|].
  unfold set_fs. simpl. intros [= <-]. simpl. repeat split.
  unfold exists_in. apply bool_decide_eq_true_2, Exists_exists.
  exists (String c p). split; [|done]. rewrite !elem_of_app. right. right. left.
Qed.

(** The download-only revision checks that the install directory
    exists before anything else is done to it: when the directory is
    missing, the [try] block throws and the world is as it was. *)
Lemma DownloadOnly_run_try_missing (w : World) :
  isVersionFormatValid (requested_version env) = true →
  install_path_unset env w →
  (tl_exist (Some (path_resolve env ["./dependency-check"])) w).1 = Ok false →
  DownloadOnly.run_try env w
  = (Throw (mkError ("Not found Dependency Check installer: "
                     +:+ path_resolve env ["./dependency-check"])), w).
Proof.
  intros Hvalid Hunset Hmissing. unfold DownloadOnly.run_try.
  unfold tl_getInput, tl_getPathInput.
  repeat (rewrite bind_ret_l; cbv beta).
  rewrite bind_tl_getVariable.
  fold (requested_version env). rewrite Hvalid, bind_ret_l.
  unfold install_path_unset in Hunset. rewrite Hunset.
  rewrite tl_resolve_1, bind_ret_l.
  unfold tl_checkPath. unfold bind at 1. unfold bind at 1.
  destruct (tl_exist _ w) as [out w0] eqn:E. simpl in Hmissing. subst out.
  unfold tl_exist in E. injection E as _ <-. reflexivity.
Qed.

(** A run of the download-only revision that returns normally with
    the install path unset found the install directory in place. *)
Lemma DownloadOnly_run_try_Ok_inv (w w' : World) :
  DownloadOnly.run_try env w = (Ok tt, w') →
  install_path_unset env w →
  ∃ w2 w3 installZipUrl,
    isVersionFormatValid (requested_version env) = true
    ∧ (tl_exist (Some (path_resolve env ["./dependency-check"])) w).1 = Ok true
    ∧ (if JsString.truthy (custom_url env)
       then installZipUrl = custom_url env
            ∧ w2 = add_events w
                     [ConsoleLog ("Downloading Dependency Check installer from "
                                  +:+ JsString.show (custom_url env) +:+ "...")]
       else getDependencyCheckDownloadUrl env (requested_version env)
              (add_events w
                 [ConsoleLog ("Downloading Dependency Check "
                              +:+ requested_version env
                              +:+ " installer from GitHub...")])
            = (Ok installZipUrl, w2))
    ∧ cleanDirectory env (path_resolve env ["./dependency-check"])
        clean_patterns w2 = (Ok tt, w3)
    ∧ unzipFromUrl env (JsString.show installZipUrl) (path_resolve env ["./"]) w3
      = (Ok tt, w').
Proof.
  intros H Hunset. unfold DownloadOnly.run_try in H.
  unfold tl_getInput, tl_getPathInput in H.
  repeat (rewrite bind_ret_l in H; cbv beta in H).
  rewrite bind_tl_getVariable in H.
  fold (requested_version env) (custom_url env) in H.
  destruct (isVersionFormatValid (requested_version env)) eqn:Hvalid;
    [|discriminate].
  rewrite bind_ret_l in H.
  unfold install_path_unset in Hunset. rewrite Hunset in H.
  rewrite tl_resolve_1, bind_ret_l in H.
  invert_bind H as checked w1 Echeck. destruct checked.
  unfold tl_checkPath, bind in Echeck.
  destruct (tl_exist _ w) as [[found| |] w0] eqn:Eexist; try discriminate.
  destruct found; [|discriminate]. injection Echeck as <-.
  assert (w0 = w) as -> by (unfold tl_exist in Eexist; by injection Eexist).
  invert_bind H as installZipUrl w2 Eurl.
  invert_bind H as cleaned w3 Eclean. destruct cleaned.
  rewrite tl_resolve_1, bind_ret_l in H.
  exists w2, w3, installZipUrl.
  split; [done|]. split; [done|]. split; [|by split].
  destruct (JsString.truthy (custom_url env)).
  - rewrite bind_console_log in Eurl. by injection Eurl as <- <-.
  - by rewrite bind_console_log in Eurl.
Qed.

End Orchestration.

(** Membership in a trace that can be computed. *)
Ltac compute_trace :=
  match goal with
  | |- ?x ∈ ?t => let t' := eval vm_compute in t in change (x ∈ t')
  | |- ?x ∉ ?t => let t' := eval vm_compute in t in change (x ∉ t')
  end.

Ltac in_trace := compute_trace; repeat first [left | right].

Ltac not_in_trace :=
  compute_trace;
  let H := fresh in
  intros H;
  repeat (apply elem_of_cons in H as [H|H]; [discriminate H|]);
  by apply elem_of_nil in H.

(** ** The install step and the choice of the URL *)

Section Install.
Context (env : Env).

(** C10, as the code has it.  When the custom source URL is not empty
    once trimmed, every request of a run goes to the trimmed URL, so
    the release is never asked for, whatever the version; and a run
    with the install path unset whose [try] block completes has
    downloaded and extracted the archive from that URL. *)
Theorem custom_url_bypasses_resolution (w : World) (u : string) :
  custom_url env = Some u → u ≠ "" →
  (∀ out w',
     WithUpdate.run env w = (out, w') →
     ∃ evs, trace w' = trace w ++ evs ∧ Forall (gets_only u) evs)
  ∧ (∀ out w',
       DownloadOnly.run env w = (out, w') →
       ∃ evs, trace w' = trace w ++ evs ∧ Forall (gets_only u) evs)
  ∧ (install_path_unset env w →
     ∀ w', WithUpdate.run_try env w = (Ok tt, w') →
           ∃ w3 w4, unzipFromUrl env u (path_resolve env ["./"]) w3 = (Ok tt, w4))
  ∧ (install_path_unset env w →
     ∀ w', DownloadOnly.run_try env w = (Ok tt, w') →
           ∃ w3, unzipFromUrl env u (path_resolve env ["./"]) w3 = (Ok tt, w')).
Proof.
  intros Hcustom Hu.
  assert (Htruthy : JsString.truthy (Some u) = true) by (by destruct u).
  assert (Hwrap : ∀ body : M unit,
             conforms true (gets_only u) body →
             conforms true (gets_only u)
               (console_log "Starting Dependency Check download..." ;;
                try_catch body
                  (λ err, console_log (message err) ;;
                          tl_setResult Failed (message err) true) ;;
                console_log "Ending Dependency Check download...")%task).
  { intros body Hbody. unfold tl_setResult.
    repeat first [ apply conforms_bind; [|intros]
                 | apply conforms_try_catch; [done|intros]
                 | apply conforms_console_log; auto with conforms
                 | apply conforms_emit; by intros ? [=] ]. }
  split; [|split; [|split]].
  - intros out w' Hrun.
    eapply conforms_trace in Hrun as [_ H]; [exact H|].
    apply Hwrap. by apply conforms_WithUpdate_run_try_custom.
  - intros out w' Hrun.
    eapply conforms_trace in Hrun as [_ H]; [exact H|].
    apply Hwrap. by apply conforms_DownloadOnly_run_try_custom.
  - intros Hunset w' Hrun.
    destruct (WithUpdate_run_try_Ok_inv env w w' Hrun Hunset)
      as (wp & w1 & w2 & w3 & w4 & url & options & _ & _ & Hurl & _ & Hunzip & _).
    rewrite Hcustom, Htruthy in Hurl. destruct Hurl as [-> _]. by exists w3, w4.
  - intros Hunset w' Hrun.
    destruct (DownloadOnly_run_try_Ok_inv env w w' Hrun Hunset)
      as (w2 & w3 & url & _ & _ & Hurl & _ & Hunzip).
    rewrite Hcustom, Htruthy in Hurl. destruct Hurl as [-> _]. by exists w3.
Qed.

End Install.


(** C10, with blanks around the custom URL and a version of its own:
    the requests of the run all go to the trimmed URL. *)
Lemma custom_url_bypasses_resolution_witness :
  input Custom.env "customRepoUrl" = Some ("  " +:+ Example.zipUrl +:+ " ")
  ∧ ∃ evs,
      trace (WithUpdate.run Custom.env Example.world).2
      = trace Example.world ++ evs
      ∧ Forall (gets_only Example.zipUrl) evs
      ∧ HttpGet Example.zipUrl ∈ evs.
Proof.
  split; [reflexivity|].
  destruct (custom_url_bypasses_resolution Custom.env Example.world
              Example.zipUrl) as (Hrun & _); [reflexivity | discriminate |].
  destruct (Hrun (WithUpdate.run Custom.env Example.world).1
              (WithUpdate.run Custom.env Example.world).2)
    as (evs & Ht & Hevs); [by destruct (WithUpdate.run _ _)|].
  exists evs. split; [exact Ht|]. split; [exact Hevs|].
  assert (H : HttpGet Example.zipUrl
              ∈ trace (WithUpdate.run Custom.env Example.world).2)
    by in_trace.
  rewrite Ht in H. exact H.
Defined.

(** C10, against the claim for every non-empty custom URL.  A custom
    URL that is one blank is not empty, and the run asks GitHub for the
    latest release; a custom URL with blanks around it is not requested
    as it was given, but trimmed. *)
Lemma custom_url_not_verbatim :
  (input Blank.env "customRepoUrl" = Some " "
   ∧ " " ≠ ""
   ∧ HttpGet "https://api.github.com/repos/jeremylong/DependencyCheck/releases/latest"
     ∈ trace (WithUpdate.run Blank.env Example.world).2
   ∧ HttpGet " " ∉ trace (WithUpdate.run Blank.env Example.world).2)
  ∧ (input Custom.env "customRepoUrl"
     = Some "  https://example.org/dl/dependency-check-8.0.0-release.zip "
     ∧ HttpGet "https://example.org/dl/dependency-check-8.0.0-release.zip"
       ∈ trace (WithUpdate.run Custom.env Example.world).2
     ∧ HttpGet "  https://example.org/dl/dependency-check-8.0.0-release.zip "
       ∉ trace (WithUpdate.run Custom.env Example.world).2).
Proof.
  split.
  - split; [reflexivity|]. split; [discriminate|]. split; [in_trace|not_in_trace].
  - split; [reflexivity|]. split; [in_trace|not_in_trace].
Qed.

(** * Further properties of the task *)

(** ** What the validator accepts *)

Section Accepted.
Import JsString Regex.

(** X1. The validator accepts exactly two shapes of version: the word
    [latest] in any letter case, and five code units with a letter [d]
    (of either case) at the first, third and fifth place and anything but
    a line terminator at the second and fourth. *)
Theorem isVersionFormatValid_accepts (v : string) :
  isVersionFormatValid v = true ↔
    toLowerCase v = "latest"
    ∨ ∃ a x b y c,
        v = String a (String x (String b (String y (String c ""))))
        ∧ lower_char a = "d"%char ∧ lower_char b = "d"%char
        ∧ lower_char c = "d"%char
        ∧ is_line_terminator x = false ∧ is_line_terminator y = false.
Proof.
  rewrite isVersionFormatValid_cooked.
  unfold accepted_by_cooked_pattern, same_letter, dependencyCheckVersionLatest.
  rewrite orb_true_iff, bool_decide_eq_true. split.
  - intros [H|H]; [right|by left].
    destruct v as [|a [|x [|b [|y [|c [|f v]]]]]]; try discriminate H.
    rewrite !andb_true_iff, !bool_decide_eq_true, !negb_true_iff in H.
    destruct H as ((((Ha & Hx) & Hb) & Hy) & Hc).
    by exists a, x, b, y, c.
  - intros [H|(a & x & b & y & c & -> & Ha & Hb & Hc & Hx & Hy)]; [by right|left].
    by rewrite Ha, Hb, Hc, Hx, Hy.
Qed.

End Accepted.

(** ** A version that the validator rejects *)

Section InvalidVersion.
Context (env : Env).

Lemma DownloadOnly_run_try_invalid (w : World) :
  isVersionFormatValid (requested_version env) = false →
  DownloadOnly.run_try env w
  = (Throw (mkError (invalid_version_message env)), w).
Proof.
  intros Hinvalid. unfold DownloadOnly.run_try, tl_getInput, tl_getPathInput.
  repeat (rewrite bind_ret_l; cbv beta).
  rewrite bind_tl_getVariable.
  fold (requested_version env). by rewrite Hinvalid.
Qed.

(** X2. In the download-only revision a rejected version ends the run
    at once: the message is logged, the task result is set to [Failed]
    with it, and nothing else happens; files and variables are as they
    were. *)
Theorem DownloadOnly_run_invalid_version (w : World) :
  isVersionFormatValid (requested_version env) = false →
  DownloadOnly.run env w
  = (Ok tt,
     add_events w
       [ConsoleLog "Starting Dependency Check download...";
        ConsoleLog (invalid_version_message env);
        SetResult Failed (invalid_version_message env) true;
        ConsoleLog "Ending Dependency Check download..."]).
Proof.
  intros Hinvalid. unfold DownloadOnly.run.
  rewrite bind_console_log. unfold bind at 1, try_catch.
  rewrite (DownloadOnly_run_try_invalid _ Hinvalid).
  unfold tl_setResult. rewrite bind_console_log. unfold bind, emit, console_log, emit.
  unfold add_events. simpl. by rewrite <- !app_assoc.
Qed.

End InvalidVersion.

(** X2, with the version 8.0.0, which starts with a digit. *)
Lemma DownloadOnly_run_invalid_version_witness :
  requested_version Pinned.env = "8.0.0"
  ∧ DownloadOnly.run Pinned.env Example.world
    = (Ok tt,
       add_events Example.world
         [ConsoleLog "Starting Dependency Check download...";
          ConsoleLog "Invalid Dependency Check version format '8.0.0'.";
          SetResult Failed "Invalid Dependency Check version format '8.0.0'." true;
          ConsoleLog "Ending Dependency Check download..."]).
Proof.
  split; [reflexivity|].
  apply (DownloadOnly_run_invalid_version Pinned.env Example.world).
  vm_compute. reflexivity.
Defined.

(** ** An installation that the caller provides *)

Section GivenInstallation.
Context (env : Env).

Lemma DownloadOnly_run_try_given (w : World) :
  isVersionFormatValid (requested_version env) = true →
  install_path_given env w →
  DownloadOnly.run_try env w = (Ok tt, w).
Proof.
  intros Hvalid Hgiven.
  unfold DownloadOnly.run_try, tl_getInput, tl_getPathInput.
  repeat (rewrite bind_ret_l; cbv beta).
  rewrite bind_tl_getVariable.
  fold (requested_version env). rewrite Hvalid, bind_ret_l.
  unfold install_path_given in Hgiven. by rewrite Hgiven.
Qed.

(** X3. In the download-only revision a local install path that differs
    from the sources directory means that nothing is installed and
    nothing is checked: the run writes its first and its last line and
    leaves the world as it is, whether the path exists or not. *)
Theorem DownloadOnly_run_given_install_path (w : World) :
  isVersionFormatValid (requested_version env) = true →
  install_path_given env w →
  DownloadOnly.run env w
  = (Ok tt,
     add_events w
       [ConsoleLog "Starting Dependency Check download...";
        ConsoleLog "Ending Dependency Check download..."]).
Proof.
  intros Hvalid Hgiven. unfold DownloadOnly.run.
  rewrite bind_console_log. unfold bind at 1, try_catch.
  rewrite (DownloadOnly_run_try_given (add_events w _) Hvalid Hgiven).
  unfold console_log, emit, add_events. simpl. by rewrite <- !app_assoc.
Qed.

End GivenInstallation.

(** X3, with an install path that does not exist. *)
Lemma DownloadOnly_run_given_install_path_witness :
  input Installed.env "localInstallPath" = Some "/opt/dependency-check"
  ∧ exists_in (fs Example.world) "/opt/dependency-check" = false
  ∧ DownloadOnly.run Installed.env Example.world
    = (Ok tt,
       add_events Example.world
         [ConsoleLog "Starting Dependency Check download...";
          ConsoleLog "Ending Dependency Check download..."]).
Proof.
  split; [reflexivity|]. split; [reflexivity|].
  apply (DownloadOnly_run_given_install_path Installed.env Example.world);
    vm_compute; reflexivity.
Defined.

(** ** Effects by kind *)

Ltac kinds_solve :=
  solve [unfold only; simpl; repeat first [left | right]].

Lemma effects_tl_setVariable b (P : Event → Prop) name val :
  P (SetVariable name val) → conforms b P (tl_setVariable name val).
Proof.
  intros HP. unfold tl_setVariable. apply conforms_bind.
  - by apply conforms_emit.
  - intros _ w. split; [done|]. exists []. simpl. by rewrite app_nil_r.
Qed.

Lemma conforms_bind_throw {A B} (P : Event → Prop) (e : Error) (k : A → M B) :
  conforms true P (bind (throw e) k).
Proof. intros w. split; [done|]. exists []. simpl. by rewrite app_nil_r. Qed.

(** One step through a computation: the control structure is followed,
    a primitive is unfolded down to the events it emits. *)
Ltac effects_step :=
  match goal with
  | |- conforms true _ (bind (throw _) _) => apply conforms_bind_throw
  | |- conforms _ _ (bind (tl_resolve _ [Some _]) _) =>
      rewrite tl_resolve_1, bind_ret_l
  | |- conforms _ _ (bind (tl_resolve _ [Some _; Some _]) _) =>
      rewrite tl_resolve_2, bind_ret_l
  | |- conforms _ _ (bind (tl_resolve _ [Some _; Some _; Some _]) _) =>
      rewrite tl_resolve_3, bind_ret_l
  | |- conforms _ _ (bind _ _) => apply conforms_bind; [|intros]
  | |- conforms _ _ (ret _) => apply conforms_ret
  | |- conforms true _ (throw _) => apply conforms_throw
  | |- conforms _ _ (try_catch _ _) => apply conforms_try_catch; [|intros]
  | |- conforms _ _ (for_each _ _) => apply conforms_for_each; intros
  | |- conforms _ _ (emit _) => apply conforms_emit; kinds_solve
  | |- conforms _ _ (set_fs _) => apply conforms_set_fs
  | |- conforms _ _ (client_get _ _) => apply conforms_client_get; kinds_solve
  | |- conforms _ _ (tool_exec _ _ _ _) => apply conforms_tool_exec; kinds_solve
  | |- conforms _ _ (tl_setVariable _ _) =>
      apply effects_tl_setVariable; kinds_solve
  | |- conforms _ _ (tl_getVariable _) => apply conforms_read
  | |- conforms _ _ (tl_exist _) => apply conforms_read
  | |- conforms _ _ (tl_findMatch _ _ _) => apply conforms_read
  | |- conforms _ _ (if ?c then _ else _) => destruct c
  | |- conforms _ _ (match ?c with _ => _ end) => destruct c
  | |- conforms _ _ _ =>
      progress unfold console_log, console_error, tl_getInput, tl_getPathInput,
        tl_getBoolInput, tl_getPlatform_is_windows, tl_resolve, tl_mkdirP,
        tl_checkPath, tl_rmRF, readBody, JSON_parse, new_URL_pathname,
        pipe_to_file, zip_extractAllTo, tl_setResult, isSystemDebugEnabled,
        logDebug, WithUpdate.new_DependencyCheckOptionsBuilder
  | |- conforms true _ _ => apply conforms_may_throw
  end.

Ltac effects_go := repeat effects_step.

(** ** The script of the tool *)

Section Script.
Context (env : Env).

Lemma getDependencyCheckScriptPath_missing (dir : string) (w : World) :
  (tl_exist (Some (script_of env dir)) w).1 = Ok false →
  WithUpdate.getDependencyCheckScriptPath env dir w
  = (Throw (mkError ("Not found Dependency Check script: " +:+ script_of env dir)),
     add_events w
       [ConsoleLog ("Dependency Check script set to " +:+ script_of env dir)]).
Proof.
  intros Hmissing. unfold WithUpdate.getDependencyCheckScriptPath.
  unfold tl_getPlatform_is_windows. rewrite bind_ret_l.
  rewrite tl_resolve_3, bind_ret_l. fold (script_of env dir).
  rewrite bind_console_log. unfold tl_checkPath, bind.
  unfold tl_exist in *. simpl in *. injection Hmissing as ->. reflexivity.
Qed.

(** X4. When the script of the platform is not in [bin] beneath the
    directory, the update step throws before it does anything else: the
    path is written to the console, and then no variable is set and no
    process is started. *)
Theorem updateDependencyCheckData_script_missing (dir : string)
    (hasLocalInstallation : bool) (options : DependencyCheckOptions.t)
    (w : World) :
  (tl_exist (Some (script_of env dir)) w).1 = Ok false →
  WithUpdate.updateDependencyCheckData env dir hasLocalInstallation options w
  = (Throw (mkError ("Not found Dependency Check script: " +:+ script_of env dir)),
     add_events w
       [ConsoleLog ("Dependency Check script set to " +:+ script_of env dir)]).
Proof.
  intros Hmissing. unfold WithUpdate.updateDependencyCheckData.
  by rewrite (bind_Throw _ _ _ _ _ (getDependencyCheckScriptPath_missing dir w Hmissing)).
Qed.

End Script.

(** X4, on an agent without the tool. *)
Lemma updateDependencyCheckData_script_missing_witness :
  WithUpdate.updateDependencyCheckData Example.env Stale.install false
    Updating.options Example.world
  = (Throw (mkError "Not found Dependency Check script: /agent/_work/1/s/dependency-check/bin/dependency-check.sh"),
     add_events Example.world
       [ConsoleLog "Dependency Check script set to /agent/_work/1/s/dependency-check/bin/dependency-check.sh"]).
Proof.
  apply (updateDependencyCheckData_script_missing Example.env Stale.install
           false Updating.options Example.world).
  vm_compute. reflexivity.
Defined.

(** ** A release without an archive *)

Section NoAsset.
Context (env : Env).

Lemma find_zip_asset_none (l : list (gmap string string)) :
  Forall (λ a : gmap string string,
            a !! "content_type" ≠ Some "application/zip") l →
  List.find is_zip_asset l = None.
Proof.
  induction 1 as [|a l Ha _ IH]; [done|]. simpl.
  unfold is_zip_asset at 1. by rewrite bool_decide_eq_false_2.
Qed.

(** X5. When the release that the server describes has no asset of
    content type [application/zip] (or no assets at all), the
    resolution of the download URL throws a [TypeError], after the one
    request and without touching files or variables. *)
Theorem getDependencyCheckDownloadUrl_without_zip_asset (version : string)
    (w : World) (resp : Response) (info : ReleaseInfo) :
  http env (http_requests (trace w)) (release_url version) = inr resp →
  json_parse env (body resp) = inr info →
  (∀ l, assets info = Some l →
        Forall (λ a : gmap string string,
                  a !! "content_type" ≠ Some "application/zip") l) →
  ∃ e w',
    getDependencyCheckDownloadUrl env version w = (Throw e, w')
    ∧ error_name e = "TypeError"
    ∧ fs w' = fs w ∧ variables w' = variables w
    ∧ trace w' = trace w ++ debug_events w "Determine GitHub package URL..."
                   ++ [HttpGet (release_url version)].
Proof.
  intros Hhttp Hjson Hnone. unfold getDependencyCheckDownloadUrl.
  rewrite bind_logDebug. unfold bind at 1, client_get at 1.
  cbn [trace add_events]. rewrite http_requests_app, http_requests_debug,
    Nat.add_0_r, Hhttp.
  unfold readBody. rewrite bind_ret_l. unfold JSON_parse.
  rewrite Hjson, bind_ret_l.
  destruct (assets info) as [l|] eqn:Hassets.
  - rewrite (find_zip_asset_none l (Hnone l eq_refl)).
    eexists _, _. split; [reflexivity|]. simpl. by rewrite <- app_assoc.
  - eexists _, _. split; [reflexivity|]. simpl. by rewrite <- app_assoc.
Qed.

End NoAsset.

Module SourceOnly.
(** A release that offers the sources as a tar ball only. *)
Definition release : ReleaseInfo := {| assets := Some [Example.gzip_asset] |}.

Definition env : Env :=
  {| input := Example.unset_paths;
     bool_input := λ _, false;
     path_resolve := Example.resolve;
     path_basename := Example.basename;
     url_pathname := Example.pathname;
     platform_is_windows := false;
     http := Example.web_ok;
     json_parse := λ _, inr release;
     write_error := λ _, None;
     zip_extract := Example.unzip_ok;
     mkdir_error := λ _, None;
     rm_error := λ _, None;
     process := Example.refuses |}.
End SourceOnly.

(** X5, on a release whose only asset is a gzip archive. *)
Lemma getDependencyCheckDownloadUrl_without_zip_asset_witness :
  ∃ e w',
    getDependencyCheckDownloadUrl SourceOnly.env "latest" Example.world
    = (Throw e, w')
    ∧ error_name e = "TypeError"
    ∧ fs w' = fs Example.world ∧ variables w' = variables Example.world
    ∧ trace w'
      = [HttpGet "https://api.github.com/repos/jeremylong/DependencyCheck/releases/latest"].
Proof.
  apply (getDependencyCheckDownloadUrl_without_zip_asset SourceOnly.env
           "latest" Example.world
           {| body := "content of " +:+ release_url "latest" |}
           SourceOnly.release); [reflexivity | reflexivity |].
  intros l [= <-]. repeat constructor. vm_compute. discriminate.
Defined.

(** ** A download that fails *)

Section FailedDownload.
Context (env : Env).

Lemma effects_download_loop (fuel : nat) (url : string) (retries : Z) :
  (0 < fuel)%nat → (retries < Z.of_nat fuel)%Z →
  conforms false (only [KConsole; KRequest]) (download_loop env fuel url retries).
Proof.
  revert retries.
  induction fuel as [|fuel IH]; intros retries Hpos Hfuel; [lia|].
  simpl. apply conforms_try_catch.
  - effects_go.
  - intros e. apply conforms_bind; [effects_go|]. intros _.
    apply conforms_bind; [effects_go|]. intros _.
    destruct (retries - 1 >=? 0)%Z eqn:Hr.
    + apply IH; lia.
    + apply conforms_ret.
Qed.

Lemma debug_events_only (ks : list Kind) (w : World) (msg : string) :
  KConsole ∈ ks → Forall (only ks) (debug_events w msg).
Proof.
  intros Hks. unfold debug_events.
  destruct (variables w !! "system.debug") as [s|]; [case_bool_decide|];
    by repeat constructor.
Qed.


End FailedDownload.


(** ** What the clean-up never removes *)

Section CleanSafety.
Import Path.
Context (env : Env).

Lemma kept_not_under_selected (dir f q : string) :
  strictly_under dir f → ¬ in_data_of dir f → kept_by_clean dir q →
  ¬ under f q.
Proof.
  intros [[rest Hrest] Hne] Hdata Hkept [t Ht].
  destruct Hkept as [Hkept|[t' Hin]].
  - apply Hkept. split.
    + exists (rest ++ t). by rewrite Ht, Hrest, <- app_assoc.
    + intros Heq. rewrite <- Heq, Hrest, <- app_assoc in Ht.
      apply (f_equal length) in Ht. rewrite !length_app in Ht.
      destruct rest; [by rewrite app_nil_r in Hrest|simpl in Ht; lia].
  - apply Hdata. rewrite Ht, Hrest, <- !app_assoc in Hin.
    apply app_inv_head in Hin. simpl in Hin.
    destruct rest as [|c rest]; [by rewrite app_nil_r in Hrest|].
    injection Hin as -> Hin. exists rest. by rewrite Hrest, <- app_assoc.
Qed.

(** Removing paths one after the other, whatever the outcome: no path
    appears, a path that lies beneath none of them stays, and the
    removals tried are a prefix of the list. *)
Lemma for_each_rmRF_any (files : list string) (w w' : World)
    (out : Outcome unit) :
  for_each files (tl_rmRF env) w = (out, w') →
  variables w' = variables w
  ∧ (∀ q, q ∈ fs w' → q ∈ fs w)
  ∧ (∀ q, q ∈ fs w → Forall (λ f, ¬ under f q) files → q ∈ fs w')
  ∧ ∃ tried, tried `prefix_of` files ∧ trace w' = trace w ++ (RmRF <$> tried).
Proof.
  revert w. induction files as [|f files IH]; intros w Hrun.
  - injection Hrun as <- <-. repeat split; [done..|].
    exists []. split; [done|]. by rewrite app_nil_r.
  - cbn [for_each] in Hrun. unfold bind at 1, tl_rmRF at 1 in Hrun.
    unfold bind at 1, emit at 1 in Hrun.
    destruct (rm_error env f) as [e|].
    + injection Hrun as <- <-. simpl. repeat split; [done..|].
      exists [f]. split; [|done]. by exists files.
    + cbn [set_fs] in Hrun. apply IH in Hrun as (Hv & Hsub & Hkeep & tried & Hp & Ht).
      simpl in *. split; [done|]. split; [|split].
      * intros q Hq. apply Hsub in Hq. by apply list_elem_of_filter in Hq as [_ ?].
      * intros q Hq Hall. apply Forall_cons in Hall as [Hf Hall].
        apply Hkeep; [|done]. by apply list_elem_of_filter.
      * exists (f :: tried). split; [by apply prefix_cons|].
        by rewrite Ht, <- app_assoc.
Qed.

(** X7. Whatever the outcome of the clean-up with the patterns of the
    task, also when a deletion fails half-way or when the directory does
    not exist: no variable changes, no path appears, every path that is
    outside the directory or in its [data] folder stays, and each
    removal that was tried is that of an existing path beneath the
    directory and outside [data]. *)
Theorem cleanDirectory_never_removes_kept (dir : string) (w w' : World)
    (out : Outcome unit) :
  cleanDirectory env dir ["**"; "!data"; "!data/**"] w = (out, w') →
  variables w' = variables w
  ∧ (∀ q, q ∈ fs w' → q ∈ fs w)
  ∧ (∀ q, q ∈ fs w → kept_by_clean dir q → q ∈ fs w')
  ∧ ∃ tried,
      trace w' = trace w ++ (RmRF <$> tried)
      ∧ Forall (λ f, f ∈ fs w ∧ strictly_under dir f ∧ ¬ in_data_of dir f) tried.
Proof.
  intros Hrun. unfold cleanDirectory in Hrun.
  destruct (exists_in (fs w) dir) eqn:Hdir.
  - destruct (findMatch_clean dir w Hdir) as (files & Hfind & Hfiles).
    rewrite (bind_Ok _ _ _ _ _ Hfind) in Hrun.
    apply for_each_rmRF_any in Hrun as (Hv & Hsub & Hkeep & tried & Hp & Ht).
    split; [done|]. split; [done|]. split.
    + intros q Hq Hkept. apply Hkeep; [done|].
      apply Forall_forall. intros f Hf. apply Hfiles in Hf as (_ & Hs & Hd).
      by apply kept_not_under_selected with dir.
    + exists tried. split; [done|]. apply Forall_forall. intros f Hf.
      apply Hfiles. destruct Hp as [rest ->]. apply elem_of_app. by left.
  - assert (Hfind : tl_findMatch dir ["**"; "!data"; "!data/**"] None w
                    = (Ok [], w)).
    { unfold tl_findMatch, find_in. rewrite Hdir. reflexivity. }
    rewrite (bind_Ok _ _ _ _ _ Hfind) in Hrun. injection Hrun as <- <-.
    repeat split; [done..|]. exists []. split; [by rewrite app_nil_r|constructor].
Qed.

End CleanSafety.

(** X7, with a deletion that fails: the clean-up throws, and the data
    base is still there. *)
Lemma cleanDirectory_never_removes_kept_witness :
  (cleanDirectory Busy.env Stale.install ["**"; "!data"; "!data/**"]
     Stale.world).1
  = Throw (mkError "EBUSY: resource busy or locked")
  ∧ "/agent/_work/1/s/dependency-check/data/odc.mv.db"
    ∈ fs (cleanDirectory Busy.env Stale.install ["**"; "!data"; "!data/**"]
            Stale.world).2.
Proof.
  split; [vm_compute; reflexivity|].
  destruct (cleanDirectory_never_removes_kept Busy.env Stale.install Stale.world
              (cleanDirectory Busy.env Stale.install ["**"; "!data"; "!data/**"]
                 Stale.world).2
              (cleanDirectory Busy.env Stale.install ["**"; "!data"; "!data/**"]
                 Stale.world).1)
    as (_ & _ & Hkept & _).
  - by destruct (cleanDirectory _ _ _ _).
  - apply Hkept.
    + vm_compute. repeat first [left | right].
    + right. exists ["odc.mv.db"]. vm_compute. reflexivity.
Defined.

(** ** Lock files *)

Section LockFiles.
Import Path Glob.
Context (env : Env).

Lemma removeLockFile_each_eq (dir : string) :
  WithUpdate.removeLockFile env dir
  = (console_log "Searching for left over lock files..." ;;
     lockFiles <- tl_findMatch dir ["*.lock"] (Some lock_options) ;;
     if (0 <? length lockFiles)%nat then
       console_log ("found " +:+ show_Z (Z.of_nat (length lockFiles))
                    +:+ " left over lock files, removing them now...") ;;
       for_each lockFiles (removeLockFile_each env)
     else console_log "found no left over lock files, continuing...")%task.
Proof. reflexivity. Qed.

Lemma effects_removeLockFile_each (lockfile : string) :
  conforms false (only [KConsole; KRemoved]) (removeLockFile_each env lockfile).
Proof. unfold removeLockFile_each. effects_go. Qed.

(** The callback leaves the variables alone and creates no path, also
    when the deletion fails. *)
Lemma removeLockFile_each_frame (lockfile : string) (w : World) :
  variables (removeLockFile_each env lockfile w).2 = variables w
  ∧ ∀ q, q ∈ fs (removeLockFile_each env lockfile w).2 → q ∈ fs w.
Proof.
  unfold removeLockFile_each. rewrite tl_resolve_1, bind_ret_l.
  unfold try_catch, bind, tl_exist, tl_rmRF, console_log, console_error, emit,
    throw, set_fs.
  destruct (path_resolve env [lockfile]) as [|c s]; simpl; [done|].
  destruct (exists_in (fs w) (String c s)); simpl; [|done].
  destruct (rm_error env (String c s)) as [e|]; simpl; [done|].
  split; [done|]. intros q Hq.
  by apply list_elem_of_filter in Hq as [_ ?].
Qed.

Lemma for_each_removeLockFile_frame (files : list string) (w : World) :
  variables (for_each files (removeLockFile_each env) w).2 = variables w
  ∧ ∀ q, q ∈ fs (for_each files (removeLockFile_each env) w).2 → q ∈ fs w.
Proof.
  revert w. induction files as [|f files IH]; intros w; [done|].
  cbn [for_each]. unfold bind.
  destruct (removeLockFile_each_frame f w) as [Hv Hfs].
  destruct (removeLockFile_each env f w) as [[[]|e|] w1]; simpl in *;
    [|by split..].
  destruct (IH w1) as [Hv' Hfs']. split; [congruence|]. auto.
Qed.

(** X8. A deletion that fails does not stop [removeLockFile]: the loop
    over the lock files found catches the error, writes two lines about
    it and goes on with the next file.  Whatever the files and whatever
    deletion fails, the loop returns; all that it does is to write to the
    console and to remove paths, so that no variable changes and no path
    appears.  Hence [removeLockFile] returns whenever its search for the
    lock files has returned. *)
Theorem removeLockFile_swallows_failed_deletions :
  (∀ files w,
     ∃ w' evs,
       for_each files (removeLockFile_each env) w = (Ok tt, w')
       ∧ trace w' = trace w ++ evs
       ∧ Forall (only [KConsole; KRemoved]) evs
       ∧ variables w' = variables w
       ∧ ∀ q, q ∈ fs w' → q ∈ fs w)
  ∧ (∀ dir w lockFiles,
       (tl_findMatch dir ["*.lock"] (Some lock_options)
          (add_events w [ConsoleLog "Searching for left over lock files..."])).1
       = Ok lockFiles →
       ∃ w' evs,
         WithUpdate.removeLockFile env dir w = (Ok tt, w')
         ∧ trace w' = trace w ++ evs
         ∧ Forall (only [KConsole; KRemoved]) evs
         ∧ variables w' = variables w
         ∧ ∀ q, q ∈ fs w' → q ∈ fs w).
Proof.
  assert (Hloop : ∀ files w,
            ∃ w' evs,
              for_each files (removeLockFile_each env) w = (Ok tt, w')
              ∧ trace w' = trace w ++ evs
              ∧ Forall (only [KConsole; KRemoved]) evs
              ∧ variables w' = variables w
              ∧ ∀ q, q ∈ fs w' → q ∈ fs w).
  { intros files w.
    destruct (conforms_false_Ok (only [KConsole; KRemoved])
                (for_each files (removeLockFile_each env)) w)
      as ([] & w' & evs & Hrun & Ht & Hevs).
    { apply conforms_for_each. intros f. apply effects_removeLockFile_each. }
    destruct (for_each_removeLockFile_frame files w) as [Hv Hfs].
    rewrite Hrun in Hv, Hfs. by exists w', evs. }
  split; [exact Hloop|].
  intros dir w lockFiles Hfind. rewrite removeLockFile_each_eq, bind_console_log.
  unfold bind at 1.
  destruct (tl_findMatch dir ["*.lock"] (Some lock_options) _) as [out w0] eqn:E.
  simpl in Hfind. subst out.
  assert (w0 = add_events w [ConsoleLog "Searching for left over lock files..."])
    as -> by (unfold tl_findMatch in E; by injection E).
  destruct (0 <? length lockFiles)%nat.
  - rewrite bind_console_log.
    match goal with
    | |- ∃ w' evs, for_each _ _ ?W = _ ∧ _ =>
        destruct (Hloop lockFiles W) as (w' & evs & Hrun & Ht & Hevs & Hv & Hfs)
    end.
    exists w'. eexists (_ :: _ :: evs). split; [exact Hrun|].
    split; [rewrite Ht; simpl; by rewrite <- !app_assoc|].
    split; [|done].
    constructor; [kinds_solve|]. constructor; [kinds_solve|done].
  - eexists _, [_; _]. split; [reflexivity|]. simpl.
    split; [by rewrite <- app_assoc|]. split; [|done].
    constructor; [kinds_solve|]. constructor; [kinds_solve|constructor].
Qed.

End LockFiles.

(** X8, on an agent on which the lock file cannot be removed: the
    function returns, says so on the console, and the file is still
    there. *)
Lemma removeLockFile_swallows_failed_deletions_witness :
  ∃ w',
    WithUpdate.removeLockFile Cancelled.env Stale.install Stale.world
    = (Ok tt, w')
    ∧ ConsoleLog ("could not delete lock file " +:+ dquote
                  +:+ "/agent/_work/1/s/dependency-check/odc.update.lock"
                  +:+ dquote +:+ "!") ∈ trace w'
    ∧ "/agent/_work/1/s/dependency-check/odc.update.lock" ∈ fs w'.
Proof.
  destruct (removeLockFile_swallows_failed_deletions Cancelled.env)
    as [_ Hreturns].
  destruct (Hreturns Stale.install Stale.world
              ["/agent/_work/1/s/dependency-check/odc.update.lock"])
    as (w' & evs & Hrun & _); [vm_compute; reflexivity|].
  exists w'. split; [exact Hrun|].
  assert (Hw : w' = (WithUpdate.removeLockFile Cancelled.env Stale.install
                       Stale.world).2) by (by rewrite Hrun).
  rewrite Hw. split; vm_compute; repeat first [left | right].
Defined.

(** ** Which lock files are removed *)

Section LockFilesRemoved.
Import Path Glob.
Context (env : Env).

Lemma ends_with_spec (suffix s : string) :
  ends_with suffix s = true ↔ ∃ pre, s = pre +:+ suffix.
Proof.
  induction s as [|c s IH]; simpl.
  - rewrite orb_false_r, bool_decide_eq_true. split.
    + intros <-. by exists "".
    + intros ([|c pre] & H); [done|discriminate H].
  - rewrite orb_true_iff, bool_decide_eq_true, IH. split.
    + intros [<-|[pre ->]]; [by exists ""|by exists (String c pre)].
    + intros ([|c' pre] & H); [by left|]. right. exists pre.
      simpl in H. by injection H.
Qed.

Lemma lock_name_spec (p : string) : lock_name p = true ↔ is_lock_file p.
Proof.
  unfold lock_name, is_lock_file. destruct (last (segments p)) as [base|].
  - rewrite andb_true_iff, negb_true_iff, ends_with_spec. split.
    + intros [Hends Hdot]. by exists base.
    + by intros (base' & [= <-] & Hends & Hdot).
  - split; [done|]. by intros (base & H & _).
Qed.

Lemma minimatch_lock (file : list string) :
  minimatch lock_options [Suffix ".lock"] file
  = match last file with
    | Some base => ends_with ".lock" base && negb (leading_dot base)
    | None => false
    end.
Proof.
  unfold minimatch. cbn [matchBase dot lock_options].
  destruct (last file) as [base|] eqn:Hlast.
  - cbn [matchOne segment_match orb]. by rewrite andb_true_r.
  - apply last_None in Hlast. by subst.
Qed.

(** The lock files found: what exists at or beneath the directory and
    has a base name that ends in [.lock] and does not start with a dot,
    sorted. *)
Lemma findMatch_lock (dir : string) (w : World) :
  tl_findMatch dir ["*.lock"] (Some lock_options) w
  = (Ok (sort_paths (filter (λ f, lock_name f = true) (find_in (fs w) dir))), w).
Proof.
  unfold tl_findMatch. cbn [fold_left default].
  change (findMatch_step lock_options dir (find_in (fs w) dir) [] "*.lock")
    with (filter (λ f, minimatch lock_options [Suffix ".lock"] (segments f) = true
                       ∧ f ∉ []) (find_in (fs w) dir)).
  do 3 f_equal. apply filter_ext_in. intros f _.
  unfold lock_name. rewrite minimatch_lock. split; [by intros [? _]|].
  intros H. split; [done|]. apply not_elem_of_nil.
Qed.

Lemma under_same (p p' q : string) : same p' p → under p' q ↔ under p q.
Proof. unfold same, under. by intros ->. Qed.

Lemma exists_in_same (files : list string) (p p' : string) :
  same p' p → exists_in files p' = exists_in files p.
Proof.
  intros Hsame. unfold exists_in. apply bool_decide_ext.
  rewrite !Exists_exists. unfold same in *. by rewrite Hsame.
Qed.

Lemma removeLockFile_each_Ok (f : string) (w : World) :
  (∀ p, rm_error env p = None) →
  segments f ≠ [] → same (path_resolve env [f]) f →
  ∃ w', removeLockFile_each env f w = (Ok tt, w')
        ∧ variables w' = variables w
        ∧ fs w' = if exists_in (fs w) f
                  then filter (λ q, ¬ under f q) (fs w) else fs w.
Proof.
  intros Hrm Hne Hsame. unfold removeLockFile_each.
  rewrite tl_resolve_1, bind_ret_l.
  destruct (path_resolve env [f]) as [|c s] eqn:Hres; [done|].
  unfold try_catch, bind at 1, tl_exist at 1.
  rewrite (exists_in_same _ f (String c s) Hsame).
  destruct (exists_in (fs w) f).
  - rewrite bind_console_log, tl_rmRF_Ok by done.
    eexists. split; [reflexivity|]. split; [done|]. simpl.
    apply list_filter_iff. intros q. by rewrite (under_same f (String c s) q).
  - eexists. split; [reflexivity|]. done.
Qed.

(** The loop over the lock files found in [files0]: what lies beneath
    one of them is gone, the rest is as it was. *)
Lemma for_each_removeLockFile (files0 l removed : list string) (w : World) :
  (∀ p, rm_error env p = None) →
  (∀ f, f ∈ l → f ∈ files0 ∧ segments f ≠ [] ∧ same (path_resolve env [f]) f) →
  fs w = filter (λ q, Forall (λ g, ¬ under g q) removed) files0 →
  ∃ w', for_each l (removeLockFile_each env) w = (Ok tt, w')
        ∧ variables w' = variables w
        ∧ fs w' = filter (λ q, Forall (λ g, ¬ under g q) (removed ++ l)) files0.
Proof.
  intros Hrm. revert removed w.
  induction l as [|f l IH]; intros removed w Hl Hfs.
  - exists w. by rewrite app_nil_r.
  - destruct (Hl f) as (Hf0 & Hne & Hsame); [by left|].
    destruct (removeLockFile_each_Ok f w Hrm Hne Hsame) as (w1 & Hrun1 & Hv1 & Hfs1).
    destruct (IH (removed ++ [f]) w1) as (w' & Hrun & Hv & Hfs').
    { intros g Hg. apply Hl. by right. }
    { destruct (exists_in (fs w) f) eqn:Hex; rewrite Hfs1, Hfs.
      - rewrite list_filter_filter. apply list_filter_iff. intros q.
        rewrite Forall_app, Forall_singleton. tauto.
      - apply filter_ext_in. intros q Hq. rewrite Forall_app, Forall_singleton.
        split; [|tauto]. intros Hall. split; [done|]. intros Hunder.
        assert (Hgone : ¬ Forall (λ g, ¬ under g f) removed).
        { intros Hstill. apply bool_decide_eq_false_1 in Hex. apply Hex.
          apply Exists_exists. exists f. split; [|done].
          rewrite Hfs. by apply list_elem_of_filter. }
        apply not_Forall_Exists in Hgone; [|apply _].
        apply Exists_exists in Hgone as (g & Hg & Hgf). simpl in Hgf.
        apply dec_stable in Hgf.
        rewrite Forall_forall in Hall. apply (Hall g Hg).
        unfold under in *. by etrans. }
    exists w'. cbn [for_each]. rewrite (bind_Ok _ _ _ _ _ Hrun1).
    split; [done|]. split; [congruence|].
    by rewrite Hfs', <- app_assoc.
Qed.


End LockFilesRemoved.


(** ** The run of the revision with the update step *)

Tactic Notation "open_bind" hyp(H) "as" ident(a) ident(w) ident(E) :=
  apply bind_Ok_inv in H as (a & w & E & H).
Tactic Notation "pass_bind" hyp(H) :=
  let a := fresh "passed" in let w := fresh "world" in let E := fresh "E" in
  apply bind_Ok_inv in H as (a & w & E & H); clear E.

(** The [try] block with the inputs and the two variables read. *)
Ltac read_inputs :=
  unfold WithUpdate.run_try, tl_getInput, tl_getPathInput, tl_getBoolInput;
  repeat (rewrite bind_ret_l; cbv beta);
  rewrite !bind_tl_getVariable.

Ltac read_inputs_in H :=
  unfold WithUpdate.run_try, tl_getInput, tl_getPathInput, tl_getBoolInput in H;
  repeat (rewrite bind_ret_l in H; cbv beta in H);
  rewrite !bind_tl_getVariable in H.

Section WithUpdateRun.
Context (env : Env).

Lemma tl_checkPath_Ok_inv (p name : string) (w w' : World) :
  tl_checkPath p name w = (Ok tt, w') →
  w' = w ∧ (tl_exist (Some p) w).1 = Ok true.
Proof.
  unfold tl_checkPath, bind, tl_exist. simpl.
  destruct p as [|c s]; [discriminate|].
  destruct (exists_in (fs w) (String c s)); [|discriminate].
  by intros [= <-].
Qed.

(** X10. When the local install path is given (it differs from the
    sources directory), the revision with the update step installs
    nothing and updates nothing: whatever the outcome of the [try]
    block, its only effects are console lines and the creation of
    directories (those for the log and the export).  When the block
    completes and the path is not empty, the path exists: it is all
    that was checked. *)
Theorem WithUpdate_run_try_given_install_path (w : World) :
  install_path_given env w →
  ∀ out w',
    WithUpdate.run_try env w = (out, w') →
    (∃ evs, trace w' = trace w ++ evs
            ∧ Forall (only [KConsole; KCreated]) evs)
    ∧ (out = Ok tt →
       ∀ p, JsString.trim_opt (input env "localInstallPath") = Some p →
            p ≠ "" → exists_in (fs w') p = true).
Proof.
  intros Hgiven out w' Hrun. unfold install_path_given in Hgiven. split.
  - revert Hrun. read_inputs. rewrite Hgiven. cbv iota. intros Hrun.
    eapply (conforms_trace true) in Hrun as [_ H]; [exact H|].
    effects_go.
  - intros -> p Hp Hne. read_inputs_in Hrun.
    rewrite Hgiven, Hp in Hrun. cbv iota in Hrun.
    do 11 pass_bind Hrun.
    destruct p as [|c s]; [done|]. cbn [JsString.truthy JsString.show default] in Hrun.
    apply tl_checkPath_Ok_inv in Hrun as [-> Hex].
    unfold tl_exist in Hex. simpl in Hex. by injection Hex.
Qed.

(** The choice of the log or export directory. *)
Lemma directory_block_Ok_inv (name : string) (w w0 w1 : World)
    (r : option string) :
  (if JsString.loose_eq (JsString.trim_opt (input env name))
        (variables w !! "Build.SourcesDirectory")
   then d <- tl_resolve env [variables w !! "Build.ArtifactStagingDirectory";
                             Some DCConst.DependencyCheckFolderName] ;;
        ret (Some d)
   else ret (JsString.trim_opt (input env name)))%task w0 = (Ok r, w1) →
  r = directory_input env w name ∧ w1 = w0.
Proof.
  unfold directory_input. destruct (JsString.loose_eq _ _).
  - destruct (variables w !! "Build.ArtifactStagingDirectory") as [a|];
      [|discriminate].
    rewrite tl_resolve_2, bind_ret_l. by intros [= <- <-].
  - by intros [= <- <-].
Qed.

Lemma directory_block_Ok (name : string) (w w0 : World) (d : string) :
  directory_input env w name = Some d →
  (if JsString.loose_eq (JsString.trim_opt (input env name))
        (variables w !! "Build.SourcesDirectory")
   then d <- tl_resolve env [variables w !! "Build.ArtifactStagingDirectory";
                             Some DCConst.DependencyCheckFolderName] ;;
        ret (Some d)
   else ret (JsString.trim_opt (input env name)))%task w0 = (Ok (Some d), w0).
Proof.
  unfold directory_input. destruct (JsString.loose_eq _ _).
  - destruct (variables w !! "Build.ArtifactStagingDirectory") as [a|];
      [|discriminate].
    rewrite tl_resolve_2, bind_ret_l. by intros [= <-].
  - by intros ->.
Qed.

Lemma exists_in_app (files more : list string) (p : string) :
  exists_in files p = true → exists_in (files ++ more) p = true.
Proof.
  unfold exists_in. rewrite !bool_decide_eq_true, Exists_app. by left.
Qed.

(** The creation of a directory that is not there yet. *)
Lemma ensure_directory {A} (d msg : string) (rest : M A) (w : World) :
  d ≠ "" → mkdir_error env d = None →
  ∃ w1,
    (found <- tl_exist (Some d) ;;
     (if negb found then console_log msg ;; tl_mkdirP env (Some d)
      else ret tt) ;;
     rest)%task w = rest w1
    ∧ exists_in (fs w1) d = true
    ∧ variables w1 = variables w
    ∧ trace w `prefix_of` trace w1
    ∧ (∀ q, exists_in (fs w) q = true → exists_in (fs w1) q = true).
Proof.
  intros Hd Hmk. destruct d as [|c s]; [done|].
  unfold bind at 1, tl_exist at 1.
  destruct (exists_in (fs w) (String c s)) eqn:Hex; cbn [negb].
  - exists w. rewrite bind_ret_l. by repeat split.
  - destruct (tl_mkdirP env (Some (String c s))
                (add_events w [ConsoleLog msg])) as [out w1] eqn:Hrun.
    assert (out = Ok tt ∧ variables w1 = variables w) as [-> Hv].
    { revert Hrun. unfold tl_mkdirP, bind, emit. simpl. rewrite Hmk.
      by intros [= <- <-]. }
    apply tl_mkdirP_Ok_inv in Hrun as Hmade. destruct Hmade as (Hfs & Ht & Hnow).
    exists w1. split; [|split; [done|split; [done|split]]].
    + unfold bind at 1. rewrite bind_console_log. by rewrite Hrun.
    + rewrite Ht. simpl. rewrite <- app_assoc. by apply prefix_app_r.
    + intros q Hq. rewrite Hfs. by apply exists_in_app.
Qed.

Lemma new_DependencyCheckOptionsBuilder_Ok (w : World) :
  ∃ builder,
    WithUpdate.new_DependencyCheckOptionsBuilder env w = (Ok builder, w).
Proof.
  unfold WithUpdate.new_DependencyCheckOptionsBuilder.
  rewrite bind_tl_getVariable, tl_resolve_2, bind_ret_l, tl_resolve_3, bind_ret_l.
  by eexists.
Qed.

(** X11. In the revision with the update step the version is validated
    after the log and export directories have been prepared.  With a
    version that the validator rejects the [try] block always throws,
    and its only effects are console lines and the creation of
    directories: nothing is requested, removed, extracted or executed.
    When the two directories are determined and can be created, the
    error thrown is the one about the version, and both directories
    exist by then. *)
Theorem WithUpdate_run_try_invalid_version (w : World) :
  isVersionFormatValid (requested_version env) = false →
  (∀ out w',
     WithUpdate.run_try env w = (out, w') →
     (∃ e, out = Throw e)
     ∧ ∃ evs, trace w' = trace w ++ evs
              ∧ Forall (only [KConsole; KCreated]) evs)
  ∧ (∀ logDir exportDir,
       directory_input env w "logDirectory" = Some logDir → logDir ≠ "" →
       directory_input env w "exportDirectory" = Some exportDir →
       exportDir ≠ "" →
       mkdir_error env logDir = None → mkdir_error env exportDir = None →
       ∃ w',
         WithUpdate.run_try env w
         = (Throw (mkError (invalid_version_message env)), w')
         ∧ exists_in (fs w') logDir = true
         ∧ exists_in (fs w') exportDir = true).
Proof.
  intros Hinvalid. split.
  - intros out w' Hrun. split.
    + destruct out as [[]|e|]; [|by exists e|].
      * read_inputs_in Hrun.
        change (JsString.trim (if JsString.truthy _ then _ else _))
          with (requested_version env) in Hrun.
        do 10 pass_bind Hrun.
        rewrite Hinvalid in Hrun. discriminate Hrun.
      * eapply (conforms_trace true not_SetResult) in Hrun as [[] _].
        apply conforms_WithUpdate_run_try; auto with conforms; done.
    + revert Hrun. read_inputs.
      change (JsString.trim (if JsString.truthy _ then _ else _))
        with (requested_version env).
      rewrite Hinvalid. cbv iota. intros Hrun.
      eapply (conforms_trace true) in Hrun as [_ H]; [exact H|].
      effects_go.
  - intros logDir exportDir Hlog Hlogne Hexport Hexportne Hmklog Hmkexport.
    read_inputs.
    change (JsString.trim (if JsString.truthy _ then _ else _))
      with (requested_version env).
    rewrite Hinvalid. cbv iota.
    rewrite (bind_Ok _ _ _ _ _ (directory_block_Ok "logDirectory" w w logDir Hlog)).
    rewrite bind_console_log.
    match goal with
    | |- context [bind (tl_exist (Some logDir))
                    (λ found, bind (if negb found
                                    then bind (console_log ?msg) _ else _)
                                (λ _, ?rest)) ?W] =>
        destruct (ensure_directory logDir msg rest W Hlogne Hmklog)
          as (w1 & -> & Hex1 & Hv1 & _ & _)
    end.
    rewrite (bind_Ok _ _ _ _ _
               (directory_block_Ok "exportDirectory" w w1 exportDir Hexport)).
    rewrite bind_console_log.
    match goal with
    | |- context [bind (tl_exist (Some exportDir))
                    (λ found, bind (if negb found
                                    then bind (console_log ?msg) _ else _)
                                (λ _, ?rest)) ?W] =>
        destruct (ensure_directory exportDir msg rest W Hexportne Hmkexport)
          as (w2 & -> & Hex2 & Hv2 & _ & Hkeep)
    end.
    rewrite tl_resolve_2, bind_ret_l.
    destruct (new_DependencyCheckOptionsBuilder_Ok w2) as [builder Hb].
    rewrite (bind_Ok _ _ _ _ _ Hb).
    exists w2. split; [reflexivity|]. split; [|done]. by apply Hkeep.
Qed.

Lemma getDependencyCheckScriptPath_Ok_inv (dir p : string) (w w1 : World) :
  WithUpdate.getDependencyCheckScriptPath env dir w = (Ok p, w1) →
  p = script_of env dir.
Proof.
  unfold WithUpdate.getDependencyCheckScriptPath, tl_getPlatform_is_windows.
  rewrite bind_ret_l, tl_resolve_3, bind_ret_l. fold (script_of env dir).
  intros H. do 2 pass_bind H. by injection H as <- _.
Qed.

Lemma tl_resolve_2_Ok_inv (a : option string) (b r : string) (w w' : World) :
  tl_resolve env [a; Some b] w = (Ok r, w') →
  ∃ a', a = Some a' ∧ r = path_resolve env [a'; b].
Proof.
  destruct a as [a'|]; [|discriminate].
  rewrite tl_resolve_2. intros [= <- _]. by exists a'.
Qed.

(** The argument line of the options that [run] builds. *)
Lemma built_arguments (logFile : string) (verbose : bool)
    (builder : DependencyCheckOptionsBuilder.t) :
  DependencyCheckOptions.getExecutableArguments
    (build (DependencyCheckOptionsBuilder.setLogFilePath logFile
              (DependencyCheckOptionsBuilder.setIsVerboseEnabled verbose
                 builder)))
  = if verbose then "--updateonly --log " +:+ logFile else "--updateonly".
Proof. by destruct verbose. Qed.

End WithUpdateRun.

(** X10, with an install path that does not exist: the directories for
    the log and the export are created, and the check fails. *)
Lemma WithUpdate_run_try_given_install_path_witness :
  ∃ evs,
    trace (WithUpdate.run_try Installed.env Example.world).2
    = trace Example.world ++ evs
    ∧ Forall (only [KConsole; KCreated]) evs.
Proof.
  destruct (WithUpdate_run_try_given_install_path Installed.env Example.world)
    with (out := (WithUpdate.run_try Installed.env Example.world).1)
         (w' := (WithUpdate.run_try Installed.env Example.world).2)
    as [Hevs _].
  - vm_compute. reflexivity.
  - by destruct (WithUpdate.run_try _ _).
  - exact Hevs.
Defined.

(** X11, with the version 8.0.0: the run fails on the version, and the
    directory for the log and the export is there. *)
Lemma WithUpdate_run_try_invalid_version_witness :
  exists_in (fs Example.world) "/agent/_work/1/a/dependency-check" = false
  ∧ ∃ w',
      WithUpdate.run_try Pinned.env Example.world
      = (Throw (mkError "Invalid Dependency Check version format '8.0.0'."), w')
      ∧ exists_in (fs w') "/agent/_work/1/a/dependency-check" = true.
Proof.
  split; [reflexivity|].
  destruct (WithUpdate_run_try_invalid_version Pinned.env Example.world)
    as [_ Hprepared]; [vm_compute; reflexivity|].
  destruct (Hprepared "/agent/_work/1/a/dependency-check"
              "/agent/_work/1/a/dependency-check")
    as (w' & Hrun & Hlog & _);
    [vm_compute; reflexivity | discriminate | vm_compute; reflexivity
    | discriminate | reflexivity | reflexivity |].
  exists w'. split; [exact Hrun | exact Hlog].
Defined.

(** ** The debug mode *)

Section DebugMode.
Context (env : Env).

Lemma strip_debug_app (t1 t2 : list Event) :
  strip_debug (t1 ++ t2) = strip_debug t1 ++ strip_debug t2.
Proof. apply List.filter_app. Qed.

Lemma strip_debug_events (w : World) (msg : string) :
  strip_debug (debug_events w msg) = [].
Proof.
  unfold debug_events. destruct (variables w !! "system.debug") as [s|];
    [case_bool_decide|]; reflexivity.
Qed.

Lemma filter_strip_debug (f : Event → bool) (t : list Event) :
  (∀ e, is_debug_line e = true → f e = false) →
  List.filter f (strip_debug t) = List.filter f t.
Proof.
  intros Hf. unfold strip_debug. induction t as [|e t IH]; [done|].
  cbn [List.filter]. destruct (is_debug_line e) eqn:He; cbn [negb List.filter].
  - by rewrite (Hf e He).
  - destruct (f e); by rewrite IH.
Qed.

Lemma http_requests_strip (t : list Event) :
  http_requests (strip_debug t) = http_requests t.
Proof.
  unfold http_requests. rewrite filter_strip_debug; [done|]. by intros [].
Qed.

Lemma processes_strip (t : list Event) :
  processes (strip_debug t) = processes t.
Proof.
  unfold processes. rewrite filter_strip_debug; [done|]. by intros [].
Qed.

Lemma indifferent_ret {A} (a : A) : indifferent (ret a).
Proof. by intros w1 w2 H. Qed.

Lemma indifferent_throw {A} (e : Error) : indifferent (throw (A:=A) e).
Proof. by intros w1 w2 H. Qed.

Lemma indifferent_bind {A B} (m : M A) (k : A → M B) :
  indifferent m → (∀ x, indifferent (k x)) → indifferent (bind m k).
Proof.
  intros Hm Hk w1 w2 H. unfold bind. destruct (Hm w1 w2 H) as [Ho Hw].
  destruct (m w1) as [[a|e|] w1'], (m w2) as [[a'|e'|] w2'];
    simpl in *; try discriminate Ho.
  - injection Ho as <-. by apply Hk.
  - by injection Ho as <-.
  - done.
Qed.

Lemma indifferent_try_catch {A} (m : M A) (h : Error → M A) :
  indifferent m → (∀ e, indifferent (h e)) → indifferent (try_catch m h).
Proof.
  intros Hm Hh w1 w2 H. unfold try_catch. destruct (Hm w1 w2 H) as [Ho Hw].
  destruct (m w1) as [[a|e|] w1'], (m w2) as [[a'|e'|] w2'];
    simpl in *; try discriminate Ho.
  - by injection Ho as <-.
  - injection Ho as <-. by apply Hh.
  - done.
Qed.

Lemma indifferent_for_each {A} (l : list A) (f : A → M unit) :
  (∀ x, indifferent (f x)) → indifferent (for_each l f).
Proof.
  intros Hf. induction l as [|x l IH]; simpl.
  - apply indifferent_ret.
  - apply indifferent_bind; auto.
Qed.

Lemma indifferent_emit (e : Event) : indifferent (emit e).
Proof.
  intros w1 w2 (Hfs & Hv & Ht). split; [done|]. split; [done|]. split; [done|].
  simpl. by rewrite !strip_debug_app, Ht.
Qed.

Lemma indifferent_set_fs (f : list string → list string) :
  indifferent (set_fs f).
Proof.
  intros w1 w2 (Hfs & Hv & Ht). split; [done|]. split; [|done].
  simpl. by rewrite Hfs.
Qed.

Lemma indifferent_read {A} (f : World → A) :
  (∀ w1 w2, same_but_debug w1 w2 → f w1 = f w2) →
  indifferent (λ w, (Ok (f w), w)).
Proof. intros Hf w1 w2 H. simpl. split; [|done]. by rewrite (Hf w1 w2 H). Qed.

Lemma indifferent_tl_getVariable (name : string) :
  name ≠ "system.debug" → indifferent (tl_getVariable name).
Proof.
  intros Hname. apply indifferent_read. intros w1 w2 (_ & Hv & _). by apply Hv.
Qed.

Lemma indifferent_tl_exist (p : option string) : indifferent (tl_exist p).
Proof.
  apply (indifferent_read
           (λ w, match p with
                 | Some (String c s) => exists_in (fs w) (String c s)
                 | _ => false
                 end)).
  intros w1 w2 (Hfs & _). by rewrite Hfs.
Qed.

Lemma indifferent_tl_findMatch (root : string) (patterns : list string)
    (matchOptions : option Glob.MatchOptions) :
  indifferent (tl_findMatch root patterns matchOptions).
Proof.
  apply (indifferent_read
           (λ w, sort_paths
                   (fold_left
                      (findMatch_step (default default_match_options matchOptions)
                         root (find_in (fs w) root))
                      patterns []))).
  intros w1 w2 (Hfs & _). by rewrite Hfs.
Qed.

Lemma indifferent_tl_setVariable (name val : string) :
  indifferent (tl_setVariable name val).
Proof.
  unfold tl_setVariable. apply indifferent_bind; [apply indifferent_emit|].
  intros _ w1 w2 (Hfs & Hv & Ht). split; [done|]. split; [done|].
  split; [|done]. intros k Hk. simpl.
  destruct (decide (name = k)) as [->|Hne].
  - by rewrite !lookup_insert_eq.
  - rewrite !lookup_insert_ne by done. by apply Hv.
Qed.

Lemma indifferent_client_get (url : string) : indifferent (client_get env url).
Proof.
  intros w1 w2 (Hfs & Hv & Ht). unfold client_get.
  rewrite <- (http_requests_strip (trace w1)), Ht, http_requests_strip.
  assert (same_but_debug
            {| fs := fs w1; variables := variables w1;
               trace := trace w1 ++ [HttpGet url] |}
            {| fs := fs w2; variables := variables w2;
               trace := trace w2 ++ [HttpGet url] |}).
  { split; [done|]. split; [done|]. simpl. by rewrite !strip_debug_app, Ht. }
  by destruct (http env _ url).
Qed.

Lemma indifferent_tool_exec (tool : string) (args : ToolArgs)
    (opts : ExecOptions) :
  indifferent (tool_exec env tool args opts).
Proof.
  intros w1 w2 (Hfs & Hv & Ht). rewrite !tool_exec_eq. cbv zeta.
  rewrite <- (processes_strip (trace w1)), Ht, processes_strip.
  split; [done|]. split; [done|]. split; [done|].
  simpl. by rewrite !strip_debug_app, Ht.
Qed.

(** The debug lines are all that [logDebug] leaves. *)
Lemma indifferent_logDebug (msg : string) : indifferent (logDebug msg).
Proof.
  intros w1 w2 (Hfs & Hv & Ht). rewrite !logDebug_eq.
  split; [done|]. split; [done|]. split; [done|].
  simpl. by rewrite !strip_debug_app, !strip_debug_events, !app_nil_r.
Qed.

Ltac indifferent_step :=
  match goal with
  | |- indifferent (bind _ _) => apply indifferent_bind; [|intros]
  | |- indifferent (ret _) => apply indifferent_ret
  | |- indifferent (throw _) => apply indifferent_throw
  | |- indifferent (try_catch _ _) => apply indifferent_try_catch; [|intros]
  | |- indifferent (for_each _ _) => apply indifferent_for_each; intros
  | |- indifferent (emit _) => apply indifferent_emit
  | |- indifferent (set_fs _) => apply indifferent_set_fs
  | |- indifferent (logDebug _) => apply indifferent_logDebug
  | |- indifferent (client_get _ _) => apply indifferent_client_get
  | |- indifferent (tool_exec _ _ _ _) => apply indifferent_tool_exec
  | |- indifferent (tl_setVariable _ _) => apply indifferent_tl_setVariable
  | |- indifferent (tl_getVariable _) =>
      apply indifferent_tl_getVariable; discriminate
  | |- indifferent (tl_exist _) => apply indifferent_tl_exist
  | |- indifferent (tl_findMatch _ _ _) => apply indifferent_tl_findMatch
  | |- indifferent (if ?c then _ else _) => destruct c
  | |- indifferent (match ?c with _ => _ end) => destruct c
  | |- indifferent _ =>
      progress unfold console_log, console_error, tl_getInput, tl_getPathInput,
        tl_getBoolInput, tl_getPlatform_is_windows, tl_resolve, tl_mkdirP,
        tl_checkPath, tl_rmRF, readBody, JSON_parse, new_URL_pathname,
        pipe_to_file, zip_extractAllTo, tl_setResult,
        getDependencyCheckDownloadUrl, cleanDirectory, downloadPackage,
        unzipFileTo, unzipFromUrl,
        WithUpdate.new_DependencyCheckOptionsBuilder,
        WithUpdate.getDependencyCheckScriptPath, WithUpdate.removeLockFile,
        WithUpdate.runDependencyCheck, WithUpdate.updateDependencyCheckData
  end.

Lemma indifferent_download_loop (fuel : nat) (url : string) (retries : Z) :
  indifferent (download_loop env fuel url retries).
Proof.
  revert retries. induction fuel as [|fuel IH]; intros retries; simpl.
  - by intros w1 w2 H.
  - apply indifferent_try_catch; [repeat indifferent_step|]. intros e.
    apply indifferent_bind; [repeat indifferent_step|]. intros _.
    apply indifferent_bind; [repeat indifferent_step|]. intros _.
    destruct (retries - 1 >=? 0)%Z; [apply IH | apply indifferent_ret].
Qed.

Ltac indifferent_go :=
  repeat first [apply indifferent_download_loop | indifferent_step].

(** X13. The debug mode changes nothing but the console: started in two
    worlds that differ at most in the variable [system.debug] and in
    debug lines already written, a run of either revision has the same
    outcome, leaves the same files and the same other variables, and
    leaves the same trace once the lines that start with [##[debug]]
    are taken out: the same requests, processes, removals and result. *)
Theorem debug_mode_only_adds_lines (w1 w2 : World) :
  same_but_debug w1 w2 →
  ((WithUpdate.run env w1).1 = (WithUpdate.run env w2).1
   ∧ same_but_debug (WithUpdate.run env w1).2 (WithUpdate.run env w2).2)
  ∧ ((DownloadOnly.run env w1).1 = (DownloadOnly.run env w2).1
     ∧ same_but_debug (DownloadOnly.run env w1).2 (DownloadOnly.run env w2).2).
Proof.
  intros H. split.
  - revert w1 w2 H. change (indifferent (WithUpdate.run env)).
    unfold WithUpdate.run, WithUpdate.run_try. indifferent_go.
  - revert w1 w2 H. change (indifferent (DownloadOnly.run env)).
    unfold DownloadOnly.run, DownloadOnly.run_try. indifferent_go.
Qed.

End DebugMode.

(** X13, on the example agent with and without the debug mode: the run
    with it writes debug lines, and without them its trace is that of
    the other run. *)
Lemma debug_mode_only_adds_lines_witness :
  ConsoleLog "##[debug]Determine GitHub package URL..."
    ∈ trace (WithUpdate.run Example.env Debugging.world).2
  ∧ (WithUpdate.run Example.env Debugging.world).1
    = (WithUpdate.run Example.env Example.world).1
  ∧ strip_debug (trace (WithUpdate.run Example.env Debugging.world).2)
    = strip_debug (trace (WithUpdate.run Example.env Example.world).2).
Proof.
  split; [in_trace|].
  destruct (debug_mode_only_adds_lines Example.env Debugging.world
              Example.world) as [[Hout (_ & _ & Ht)] _].
  - split; [reflexivity|]. split; [|reflexivity].
    intros name Hname. simpl. by rewrite lookup_insert_ne.
  - split; [exact Hout | exact Ht].
Defined.

(** ** How many requests and processes a run takes *)

#[local] Hint Extern 1 (not_Exec _) => reflexivity : conforms.
#[local] Hint Extern 1 (not_HttpGet _) => reflexivity : conforms.
#[local] Hint Resolve conforms_getDependencyCheckScriptPath
  conforms_removeLockFile conforms_updateDependencyCheckData : conforms.

Section Budget.
Context (env : Env).

Lemma at_most_quiet {A} (f : Event → bool) (P : Event → Prop) (b : bool)
    (n : nat) (m : M A) :
  (∀ e, P e → f e = false) → conforms b P m → at_most f n m.
Proof.
  intros HP Hm w. destruct (Hm w) as [_ (evs & Ht & Hevs)].
  exists evs. split; [done|].
  assert (List.filter f evs = []) as ->; [|simpl; lia].
  clear Ht. induction Hevs as [|e evs He _ IH]; [done|].
  cbn [List.filter]. by rewrite (HP e He).
Qed.

Lemma at_most_bind {A B} (f : Event → bool) (n1 n2 : nat) (m : M A)
    (k : A → M B) :
  at_most f n1 m → (∀ x, at_most f n2 (k x)) → at_most f (n1 + n2) (bind m k).
Proof.
  intros Hm Hk w. unfold bind. destruct (Hm w) as (evs1 & Ht1 & Hn1).
  destruct (m w) as [[a|e|] w1]; simpl in *.
  - destruct (Hk a w1) as (evs2 & Ht2 & Hn2). exists (evs1 ++ evs2).
    rewrite Ht2, Ht1, app_assoc. split; [done|].
    rewrite List.filter_app, length_app. lia.
  - exists evs1. split; [done|lia].
  - exists evs1. split; [done|lia].
Qed.

Lemma at_most_try_catch {A} (f : Event → bool) (n1 n2 : nat) (m : M A)
    (h : Error → M A) :
  at_most f n1 m → (∀ e, at_most f n2 (h e)) →
  at_most f (n1 + n2) (try_catch m h).
Proof.
  intros Hm Hh w. unfold try_catch. destruct (Hm w) as (evs1 & Ht1 & Hn1).
  destruct (m w) as [[a|e|] w1]; simpl in *.
  - exists evs1. split; [done|lia].
  - destruct (Hh e w1) as (evs2 & Ht2 & Hn2). exists (evs1 ++ evs2).
    rewrite Ht2, Ht1, app_assoc. split; [done|].
    rewrite List.filter_app, length_app. lia.
  - exists evs1. split; [done|lia].
Qed.

Lemma at_most_bind_quiet {A B} (f : Event → bool) (P : Event → Prop)
    (n : nat) (m : M A) (k : A → M B) :
  (∀ e, P e → f e = false) → conforms true P m →
  (∀ x, at_most f n (k x)) → at_most f n (bind m k).
Proof.
  intros HP Hm Hk. apply (at_most_bind f 0 n); [|done].
  by apply at_most_quiet with P true.
Qed.

Lemma at_most_client_get (url : string) :
  at_most is_HttpGet 1 (client_get env url).
Proof.
  intros w. exists [HttpGet url]. unfold client_get.
  by destruct (http env _ url).
Qed.

Lemma at_most_tool_exec (tool : string) (args : ToolArgs) (opts : ExecOptions) :
  at_most is_Exec 1 (tool_exec env tool args opts).
Proof. intros w. exists [Exec tool args opts]. by rewrite tool_exec_eq. Qed.

Ltac quiet_requests :=
  apply at_most_quiet with not_HttpGet true; [done | solve [conforms_go]].
Ltac pass_requests :=
  match goal with
  | |- at_most _ _ (bind _ _) =>
      apply (at_most_bind_quiet is_HttpGet not_HttpGet);
      [done | solve [conforms_go] | intros]
  end.
Ltac quiet_processes :=
  apply at_most_quiet with not_Exec true; [done | solve [conforms_go]].
Ltac pass_processes :=
  match goal with
  | |- at_most _ _ (bind _ _) =>
      apply (at_most_bind_quiet is_Exec not_Exec);
      [done | solve [conforms_go] | intros]
  end.

(** The loop sends one request, and one more for every retry. *)
Lemma requests_download_loop (fuel : nat) (url : string) (retries : Z) :
  at_most is_HttpGet (1 + Z.to_nat retries) (download_loop env fuel url retries).
Proof.
  revert retries. induction fuel as [|fuel IH]; intros retries.
  - intros w. exists []. simpl. rewrite app_nil_r. split; [done|lia].
  - cbn [download_loop]. apply at_most_try_catch.
    + pass_requests. apply (at_most_bind is_HttpGet 1 0).
      * apply at_most_client_get.
      * intros r. quiet_requests.
    + intros e. do 2 pass_requests.
      destruct (retries - 1 >=? 0)%Z eqn:Hr.
      * replace (Z.to_nat retries) with (1 + Z.to_nat (retries - 1)) by lia.
        apply IH.
      * quiet_requests.
Qed.

Lemma requests_downloadPackage (url : string) :
  at_most is_HttpGet 6 (downloadPackage env url).
Proof.
  unfold downloadPackage. do 2 pass_requests.
  apply (at_most_bind is_HttpGet 6 0).
  - apply (requests_download_loop download_fuel url 5).
  - intros [e|r]; quiet_requests.
Qed.

Lemma requests_unzipFromUrl (zipUrl unzipLocation : string) :
  at_most is_HttpGet 6 (unzipFromUrl env zipUrl unzipLocation).
Proof.
  unfold unzipFromUrl. apply (at_most_bind is_HttpGet 6 0).
  - apply requests_downloadPackage.
  - intros zip. quiet_requests.
Qed.

Lemma requests_getDependencyCheckDownloadUrl (version : string) :
  at_most is_HttpGet 1 (getDependencyCheckDownloadUrl env version).
Proof.
  unfold getDependencyCheckDownloadUrl. pass_requests.
  apply (at_most_bind is_HttpGet 1 0).
  - apply at_most_client_get.
  - intros r. quiet_requests.
Qed.

Lemma requests_WithUpdate_run_try :
  at_most is_HttpGet 7 (WithUpdate.run_try env).
Proof.
  unfold WithUpdate.run_try. repeat pass_requests.
  destruct (JsString.loose_eq _ _); [|quiet_requests].
  repeat pass_requests. apply (at_most_bind is_HttpGet 1 6).
  - destruct (JsString.truthy _); [quiet_requests|].
    pass_requests. apply requests_getDependencyCheckDownloadUrl.
  - intros url. repeat pass_requests. apply (at_most_bind is_HttpGet 6 0).
    + apply requests_unzipFromUrl.
    + intros _. quiet_requests.
Qed.

Lemma requests_DownloadOnly_run_try :
  at_most is_HttpGet 7 (DownloadOnly.run_try env).
Proof.
  unfold DownloadOnly.run_try. repeat pass_requests.
  destruct (JsString.loose_eq _ _); [|quiet_requests].
  repeat pass_requests. apply (at_most_bind is_HttpGet 1 6).
  - destruct (JsString.truthy _); [quiet_requests|].
    pass_requests. apply requests_getDependencyCheckDownloadUrl.
  - intros url. repeat pass_requests. apply requests_unzipFromUrl.
Qed.

Lemma processes_updateDependencyCheckData (dir : string) (hasLocal : bool)
    (options : DependencyCheckOptions.t) :
  at_most is_Exec 2 (WithUpdate.updateDependencyCheckData env dir hasLocal options).
Proof.
  unfold WithUpdate.updateDependencyCheckData. repeat pass_processes.
  apply (at_most_bind is_Exec 1 1); [apply at_most_tool_exec|]. intros _.
  pass_processes. apply (at_most_bind is_Exec 1 0); [|intros; quiet_processes].
  unfold WithUpdate.runDependencyCheck.
  apply (at_most_bind is_Exec 1 0); [apply at_most_tool_exec|].
  intros code. quiet_processes.
Qed.

Lemma processes_WithUpdate_run_try :
  at_most is_Exec 2 (WithUpdate.run_try env).
Proof.
  unfold WithUpdate.run_try. repeat pass_processes.
  destruct (JsString.loose_eq _ _); [|quiet_processes].
  repeat pass_processes. apply processes_updateDependencyCheckData.
Qed.

(** The wrapper of [run] adds no request and no process. *)
Lemma at_most_run (f : Event → bool) (n : nat) (body : M unit) :
  (∀ msg, f (ConsoleLog msg) = false) →
  (∀ msg, f (SetResult Failed msg true) = false) →
  at_most f n body →
  at_most f n
    (console_log "Starting Dependency Check download..." ;;
     try_catch body
       (λ err, console_log (message err) ;;
               tl_setResult Failed (message err) true) ;;
     console_log "Ending Dependency Check download...")%task.
Proof.
  intros Hlog Hres Hbody.
  assert (Hemit : ∀ e, f e = false → at_most f 0 (emit e)).
  { intros e He w. exists [e]. simpl. rewrite He. by split. }
  apply (at_most_bind f 0 n); [by apply Hemit|]. intros _.
  replace n with (n + 0 + 0) by lia.
  apply at_most_bind; [|intros; by apply Hemit].
  apply at_most_try_catch; [done|]. intros e.
  apply (at_most_bind f 0 0); [by apply Hemit|]. intros _. by apply Hemit.
Qed.

Lemma conforms_run (P : Event → Prop) (body : M unit) :
  (∀ msg, P (ConsoleLog msg)) → (∀ msg, P (SetResult Failed msg true)) →
  conforms true P body →
  conforms true P
    (console_log "Starting Dependency Check download..." ;;
     try_catch body
       (λ err, console_log (message err) ;;
               tl_setResult Failed (message err) true) ;;
     console_log "Ending Dependency Check download...")%task.
Proof.
  intros Hlog Hres Hbody. unfold tl_setResult, console_log.
  apply conforms_bind; [by apply conforms_emit|]. intros _.
  apply conforms_bind; [|intros _; by apply conforms_emit].
  apply conforms_try_catch; [done|]. intros e.
  apply conforms_bind; [by apply conforms_emit|]. intros _.
  by apply conforms_emit.
Qed.

(** X14. A run sends at most seven requests, one for the release and
    six for the archive, and the revision with the update step starts
    at most two processes; the download-only revision starts none. *)
Theorem run_takes_at_most_seven_requests (w : World) :
  ((http_requests (trace (WithUpdate.run env w).2)
    ≤ http_requests (trace w) + 7)%nat
   ∧ (processes (trace (WithUpdate.run env w).2) ≤ processes (trace w) + 2)%nat)
  ∧ ((http_requests (trace (DownloadOnly.run env w).2)
      ≤ http_requests (trace w) + 7)%nat
     ∧ processes (trace (DownloadOnly.run env w).2) = processes (trace w)).
Proof.
  assert (Hcount : ∀ (f : Event → bool) n (m : M unit),
             at_most f n m →
             (length (List.filter f (trace (m w).2))
              ≤ length (List.filter f (trace w)) + n)%nat).
  { intros f n m Hm. destruct (Hm w) as (evs & -> & Hn).
    rewrite List.filter_app, length_app. lia. }
  split; split.
  - apply (Hcount is_HttpGet). apply at_most_run; try done.
    apply requests_WithUpdate_run_try.
  - apply (Hcount is_Exec). apply at_most_run; try done.
    apply processes_WithUpdate_run_try.
  - apply (Hcount is_HttpGet). apply at_most_run; try done.
    apply requests_DownloadOnly_run_try.
  - destruct (conforms_trace true not_Exec (DownloadOnly.run env) w
                (DownloadOnly.run env w).1 (DownloadOnly.run env w).2)
      as [_ (evs & -> & Hevs)].
    + apply conforms_run; [done..|].
      apply conforms_DownloadOnly_run_try; auto with conforms; done.
    + by destruct (DownloadOnly.run env w).
    + rewrite processes_app, (processes_quiet evs Hevs). lia.
Qed.

End Budget.

(** ** The variables that a run assigns *)

Section Assigned.
Context (env : Env).

Lemma assigns_only_ret {A} names (a : A) : assigns_only names (ret a).
Proof. by intros w name _. Qed.

Lemma assigns_only_throw {A} names (e : Error) :
  assigns_only names (throw (A:=A) e).
Proof. by intros w name _. Qed.

Lemma assigns_only_bind {A B} names (m : M A) (k : A → M B) :
  assigns_only names m → (∀ x, assigns_only names (k x)) →
  assigns_only names (bind m k).
Proof.
  intros Hm Hk w name Hname. unfold bind. specialize (Hm w name Hname).
  destruct (m w) as [[a|e|] w1]; simpl in *; [|done..].
  by rewrite (Hk a w1 name Hname).
Qed.

Lemma assigns_only_try_catch {A} names (m : M A) (h : Error → M A) :
  assigns_only names m → (∀ e, assigns_only names (h e)) →
  assigns_only names (try_catch m h).
Proof.
  intros Hm Hh w name Hname. unfold try_catch. specialize (Hm w name Hname).
  destruct (m w) as [[a|e|] w1]; simpl in *; [done| |done].
  by rewrite (Hh e w1 name Hname).
Qed.

Lemma assigns_only_for_each {A} names (l : list A) (f : A → M unit) :
  (∀ x, assigns_only names (f x)) → assigns_only names (for_each l f).
Proof.
  intros Hf. induction l as [|x l IH]; simpl.
  - apply assigns_only_ret.
  - apply assigns_only_bind; auto.
Qed.

(** What leaves the variables as they are assigns none. *)
Lemma assigns_only_kept {A} names (m : M A) :
  (∀ w, variables (m w).2 = variables w) → assigns_only names m.
Proof. intros Hm w name _. by rewrite Hm. Qed.

Lemma assigns_only_tl_setVariable names (name val : string) :
  name ∈ names → assigns_only names (tl_setVariable name val).
Proof.
  intros Hin w k Hk. simpl. apply lookup_insert_ne. by intros ->.
Qed.

Lemma assigns_only_client_get names (url : string) :
  assigns_only names (client_get env url).
Proof.
  apply assigns_only_kept. intros w. unfold client_get.
  by destruct (http env _ url).
Qed.

Lemma assigns_only_tool_exec names (tool : string) (args : ToolArgs)
    (opts : ExecOptions) :
  assigns_only names (tool_exec env tool args opts).
Proof. apply assigns_only_kept. intros w. by rewrite tool_exec_eq. Qed.

Ltac assigns_step :=
  match goal with
  | |- assigns_only _ (bind _ _) => apply assigns_only_bind; [|intros]
  | |- assigns_only _ (ret _) => apply assigns_only_ret
  | |- assigns_only _ (throw _) => apply assigns_only_throw
  | |- assigns_only _ (try_catch _ _) => apply assigns_only_try_catch; [|intros]
  | |- assigns_only _ (for_each _ _) => apply assigns_only_for_each; intros
  | |- assigns_only _ (emit _) => by apply assigns_only_kept
  | |- assigns_only _ (set_fs _) => by apply assigns_only_kept
  | |- assigns_only _ (tl_getVariable _) => by apply assigns_only_kept
  | |- assigns_only _ (tl_exist _) => by apply assigns_only_kept
  | |- assigns_only _ (tl_findMatch _ _ _) => by apply assigns_only_kept
  | |- assigns_only _ (client_get _ _) => apply assigns_only_client_get
  | |- assigns_only _ (tool_exec _ _ _ _) => apply assigns_only_tool_exec
  | |- assigns_only _ (tl_setVariable _ _) =>
      apply assigns_only_tl_setVariable; repeat first [left | right]
  | |- assigns_only _ (if ?c then _ else _) => destruct c
  | |- assigns_only _ (match ?c with _ => _ end) => destruct c
  | |- assigns_only _ _ =>
      progress unfold console_log, console_error, tl_getInput, tl_getPathInput,
        tl_getBoolInput, tl_getPlatform_is_windows, tl_resolve, tl_mkdirP,
        tl_checkPath, tl_rmRF, readBody, JSON_parse, new_URL_pathname,
        pipe_to_file, zip_extractAllTo, tl_setResult, isSystemDebugEnabled,
        logDebug, getDependencyCheckDownloadUrl, cleanDirectory,
        downloadPackage, unzipFileTo, unzipFromUrl,
        WithUpdate.new_DependencyCheckOptionsBuilder,
        WithUpdate.getDependencyCheckScriptPath, WithUpdate.removeLockFile,
        WithUpdate.runDependencyCheck, WithUpdate.updateDependencyCheckData
  end.

Lemma assigns_only_download_loop names (fuel : nat) (url : string)
    (retries : Z) :
  assigns_only names (download_loop env fuel url retries).
Proof.
  revert retries. induction fuel as [|fuel IH]; intros retries; simpl.
  - by intros w name _.
  - apply assigns_only_try_catch; [repeat assigns_step|]. intros e.
    apply assigns_only_bind; [repeat assigns_step|]. intros _.
    apply assigns_only_bind; [repeat assigns_step|]. intros _.
    destruct (retries - 1 >=? 0)%Z; [apply IH | apply assigns_only_ret].
Qed.

Ltac assigns_go :=
  repeat first [apply assigns_only_download_loop | assigns_step].

(** X15. The only pipeline variable that a run ever assigns is
    [JAVA_OPTS], and only the revision with the update step does so:
    every other variable is after the run what it was before, and the
    download-only revision leaves all variables as they are. *)
Theorem run_assigns_only_JAVA_OPTS (w : World) :
  (∀ name, name ≠ "JAVA_OPTS" →
           variables (WithUpdate.run env w).2 !! name = variables w !! name)
  ∧ variables (DownloadOnly.run env w).2 = variables w.
Proof.
  split.
  - intros name Hname.
    assert (H : assigns_only ["JAVA_OPTS"] (WithUpdate.run env))
      by (unfold WithUpdate.run, WithUpdate.run_try; assigns_go).
    apply H. intros Hin. apply elem_of_cons in Hin as [->|Hin]; [done|].
    by apply elem_of_nil in Hin.
  - apply map_eq. intros name.
    assert (H : assigns_only [] (DownloadOnly.run env))
      by (unfold DownloadOnly.run, DownloadOnly.run_try; assigns_go).
    apply H, not_elem_of_nil.
Qed.

(** X16. Once the script is located, the update step sets [JAVA_OPTS]
    to [-Xss8192k] before it starts any process, and that is the only
    change to the variables, whatever the outcome of the step. *)
Theorem updateDependencyCheckData_sets_JAVA_OPTS (dir : string)
    (hasLocalInstallation : bool) (options : DependencyCheckOptions.t)
    (w w' : World) (out : Outcome unit) :
  (tl_exist (Some (script_of env dir)) w).1 = Ok true →
  WithUpdate.updateDependencyCheckData env dir hasLocalInstallation options w
  = (out, w') →
  variables w' = <["JAVA_OPTS" := "-Xss8192k"]> (variables w)
  ∧ ∃ evs1 evs2,
      trace w' = trace w ++ evs1 ++ SetVariable "JAVA_OPTS" "-Xss8192k" :: evs2
      ∧ Forall (only [KConsole]) evs1.
Proof.
  intros Hlocated. unfold WithUpdate.updateDependencyCheckData.
  rewrite (bind_Ok _ _ _ _ _ (getDependencyCheckScriptPath_located env dir w Hlocated)).
  rewrite !bind_console_log, bind_tl_setVariable.
  match goal with
  | |- ?m ?W = _ → _ =>
      set (w0 := W); intros Hrun;
      assert (Hkeep : assigns_only [] m) by assigns_go;
      assert (Htrace : conforms true (λ _, True) m)
  end.
  { unfold WithUpdate.removeLockFile, WithUpdate.runDependencyCheck, tl_resolve.
    repeat first
      [ apply conforms_bind; [|intros]
      | apply conforms_try_catch; [|intros]
      | apply conforms_for_each; intros
      | apply conforms_tool_exec; done
      | apply conforms_emit; done
      | apply conforms_ret | apply conforms_throw | apply conforms_set_fs
      | apply conforms_read
      | match goal with
        | |- conforms _ _ (if ?c then _ else _) => destruct c
        | |- conforms _ _ (match ?c with _ => _ end) => destruct c
        end
      | progress unfold console_log, console_error, tl_rmRF, tl_exist,
          tl_findMatch ]. }
  split.
  - apply map_eq. intros name.
    specialize (Hkeep w0 name (not_elem_of_nil _)). rewrite Hrun in Hkeep.
    exact Hkeep.
  - eapply conforms_trace in Htrace as [_ (evs2 & Ht & _)]; [|exact Hrun].
    exists [ConsoleLog ("Dependency Check script set to " +:+ script_of env dir);
            ConsoleLog "Invoking Dependency Check data update...";
            ConsoleLog ("Path: " +:+ script_of env dir);
            ConsoleLog ("Arguments: "
                        +:+ DependencyCheckOptions.getExecutableArguments options)],
      evs2.
    rewrite Ht. subst w0. simpl. rewrite <- !app_assoc. simpl.
    split; [reflexivity|]. repeat constructor; kinds_solve.
Qed.

End Assigned.

(** X15, on the example agent: the run leaves the sources directory as it
    was and has set [JAVA_OPTS]. *)
Lemma run_assigns_only_JAVA_OPTS_witness :
  variables (WithUpdate.run Example.env Example.world).2
    !! "Build.SourcesDirectory" = Some Example.sources
  ∧ variables (WithUpdate.run Example.env Example.world).2 !! "JAVA_OPTS"
    = Some "-Xss8192k".
Proof.
  split; [|vm_compute; reflexivity].
  destruct (run_assigns_only_JAVA_OPTS Example.env Example.world) as [H _].
  rewrite H; [reflexivity | discriminate].
Defined.

(** X16, with a script that cannot be started: the step fails at the
    smoke test, and the variable is set all the same. *)
Lemma updateDependencyCheckData_sets_JAVA_OPTS_witness :
  (∃ e, (WithUpdate.updateDependencyCheckData Unstartable.env Stale.install
           false Updating.options Updating.world).1 = Throw e)
  ∧ variables
      (WithUpdate.updateDependencyCheckData Unstartable.env Stale.install false
         Updating.options Updating.world).2 !! "JAVA_OPTS"
    = Some "-Xss8192k".
Proof.
  split; [eexists; vm_compute; reflexivity|].
  destruct (updateDependencyCheckData_sets_JAVA_OPTS Unstartable.env
              Stale.install false Updating.options Updating.world
              (WithUpdate.updateDependencyCheckData Unstartable.env
                 Stale.install false Updating.options Updating.world).2
              (WithUpdate.updateDependencyCheckData Unstartable.env
                 Stale.install false Updating.options Updating.world).1)
    as [-> _].
  - vm_compute. reflexivity.
  - by destruct (WithUpdate.updateDependencyCheckData _ _ _ _ _).
  - apply lookup_insert_eq.
Defined.

(** ** The defaults of the options builder *)

Section BuilderDefaults.
Import DependencyCheckOptionsBuilder.
Context (env : Env).

(** X17. A new builder is made without any effect and never fails.  Its
    root folder is the staging directory, or [./] when that variable is
    unset or empty; its export directory is the folder of the task in the
    root folder, and its log file lies in that folder once more beneath
    the export directory; both flags are off.  Setting an export
    directory that is undefined, empty or blank gives the default back,
    whatever was set before, and any other value is stored trimmed. *)
Theorem new_builder_defaults (w : World) :
  ∃ b,
    WithUpdate.new_DependencyCheckOptionsBuilder env w = (Ok b, w)
    ∧ defaultRootFolder b
      = (if JsString.truthy (variables w !! "Build.ArtifactStagingDirectory")
         then JsString.show (variables w !! "Build.ArtifactStagingDirectory")
         else "./")
    ∧ exportDirectory b
      = path_resolve env [defaultRootFolder b; DCConst.DependencyCheckFolderName]
    ∧ logFilePath b
      = path_resolve env [exportDirectory b; DCConst.DependencyCheckFolderName;
                          "dependency-check-log.txt"]
    ∧ isVerboseEnabled b = false ∧ isUpdateOnlyEnabled b = false
    ∧ (∀ value,
         exportDirectory (setExportDirectory value b)
         = if JsString.truthy (JsString.trim_opt value)
           then JsString.trim (JsString.show value)
           else exportDirectory b)
    ∧ (∀ value value',
         setExportDirectory value (setExportDirectory value' b)
         = setExportDirectory value b).
Proof.
  unfold WithUpdate.new_DependencyCheckOptionsBuilder.
  rewrite bind_tl_getVariable, tl_resolve_2, bind_ret_l, tl_resolve_3, bind_ret_l.
  eexists. split; [reflexivity|]. repeat split.
  intros [[|c s]|]; try reflexivity.
  unfold exportDirectory, setExportDirectory. simpl.
  by destruct (JsString.trim (String c s)).
Qed.

End BuilderDefaults.

(** ** Cleaning twice, and what an installation leaves *)

Section Installed.
Import Path.
Context (env : Env).

(** X18. The clean-up is idempotent: once it has completed, a second
    clean-up of the same directory finds nothing to remove and leaves
    the world exactly as it is. *)
Theorem cleanDirectory_twice (dir : string) (w w1 : World) :
  exists_in (fs w) dir = true →
  cleanDirectory env dir ["**"; "!data"; "!data/**"] w = (Ok tt, w1) →
  cleanDirectory env dir ["**"; "!data"; "!data/**"] w1 = (Ok tt, w1).
Proof.
  intros Hdir Hrun.
  apply cleanDirectory_Ok_inv in Hrun as [Hfs _]; [|done].
  assert (Hdir1 : exists_in (fs w1) dir = true).
  { unfold exists_in in *. apply bool_decide_eq_true.
    apply bool_decide_eq_true, Exists_exists in Hdir as (q & Hq & Hsame).
    apply Exists_exists. exists q. split; [|done].
    rewrite Hfs. apply list_elem_of_filter. split; [|done].
    left. intros [_ Hne]. by apply Hne. }
  destruct (findMatch_clean dir w1 Hdir1) as (files & Hfind & Hfiles).
  assert (files = []) as ->.
  { destruct files as [|f files]; [done|]. exfalso.
    destruct (Hfiles f) as [Hf _]. destruct Hf as (Hin & Hs & Hd); [by left|].
    rewrite Hfs in Hin. apply list_elem_of_filter in Hin as [[Hk|Hk] _]; tauto. }
  unfold cleanDirectory. by rewrite (bind_Ok _ _ _ _ _ Hfind).
Qed.

End Installed.

(** X18, on the old installation. *)
Lemma cleanDirectory_twice_witness :
  let w1 := (cleanDirectory Example.env Stale.install ["**"; "!data"; "!data/**"]
               Stale.world).2 in
  trace w1 ≠ []
  ∧ cleanDirectory Example.env Stale.install ["**"; "!data"; "!data/**"] w1
    = (Ok tt, w1).
Proof.
  split; [vm_compute; discriminate|].
  apply (cleanDirectory_twice Example.env Stale.install Stale.world);
    vm_compute; reflexivity.
Defined.

(** ** The steps of the [try] block, one after the other *)

Section Steps.
Context (env : Env).

Lemma bind_assoc_at {A B C} (m : M A) (k : A → M B) (k' : B → M C) (w : World) :
  bind (bind m k) k' w = bind m (λ a, bind (k a) k') w.
Proof. unfold bind. by destruct (m w) as [[a|e|] w1]. Qed.

Lemma bind_ext_at {A B} (m : M A) (k k' : A → M B) (w : World) :
  (∀ a w1, k a w1 = k' a w1) → bind m k w = bind m k' w.
Proof. intros H. unfold bind. destruct (m w) as [[a|e|] w1]; auto. Qed.

Lemma bind_OutOfFuel {A B} (m : M A) (k : A → M B) (w w1 : World) :
  m w = (OutOfFuel, w1) → bind m k w = (OutOfFuel, w1).
Proof. intros H. unfold bind. by rewrite H. Qed.

(** The [try] block is its preparation, followed by the installation
    when the install path is unset and by the check of the path when it
    is given. *)
Lemma run_try_prepared (w : World) :
  WithUpdate.run_try env w
  = (prepared <- preparation env ;;
     let localInstallPath := JsString.trim_opt (input env "localInstallPath") in
     if JsString.loose_eq localInstallPath prepared.1 then
       localInstallPath <-
         tl_resolve env [Some "."; Some DCConst.DependencyCheckFolderName] ;;
       tl_mkdirP env (Some localInstallPath) ;;
       installZipUrl <- chooseInstallZipUrl env ;;
       cleanDirectory env localInstallPath ["**"; "!data"; "!data/**"] ;;
       unzipLocation <- tl_resolve env [Some "./"] ;;
       unzipFromUrl env (JsString.show installZipUrl) unzipLocation ;;
       WithUpdate.updateDependencyCheckData env localInstallPath false
         prepared.2
     else if JsString.truthy localInstallPath then
       tl_checkPath (JsString.show localInstallPath) "Dependency Check installer"
     else ret tt)%task w.
Proof.
  unfold WithUpdate.run_try, preparation, tl_getInput, tl_getPathInput,
    tl_getBoolInput.
  repeat (rewrite bind_ret_l; cbv beta).
  symmetry.
  do 2 (rewrite bind_assoc_at, !bind_tl_getVariable).
  do 11 (rewrite bind_assoc_at; apply bind_ext_at; intros ? ?).
  by rewrite bind_ret_l.
Qed.

Lemma continues_trans (P : Event → Prop) (w1 w2 w3 : World) :
  continues P w1 w2 → continues P w2 w3 → continues P w1 w3.
Proof.
  intros (evs1 & Ht1 & H1) (evs2 & Ht2 & H2). exists (evs1 ++ evs2).
  split; [by rewrite Ht2, Ht1, app_assoc | by apply Forall_app].
Qed.

Lemma conforms_continues {A} (b : bool) (P : Event → Prop) (m : M A)
    (w w' : World) (out : Outcome A) :
  conforms b P m → m w = (out, w') → continues P w w'.
Proof. intros Hm Hrun. by eapply conforms_trace in Hrun as [_ H]. Qed.

Lemma conforms_preparation (P : Event → Prop) :
  quiet P → conforms true P (preparation env).
Proof. intros HP. unfold preparation. conforms_go. Qed.

(** A preparation that returns: the version is accepted, the log
    directory is determined, and the argument line of the options is the
    one that the inputs give. *)
Lemma preparation_Ok_inv (w wp : World)
    (prepared : option string * DependencyCheckOptions.t) :
  preparation env w = (Ok prepared, wp) →
  prepared.1 = variables w !! "Build.SourcesDirectory"
  ∧ isVersionFormatValid (requested_version env) = true
  ∧ ∃ logDir,
      directory_input env w "logDirectory" = Some logDir
      ∧ DependencyCheckOptions.getExecutableArguments prepared.2
        = run_update_line env logDir.
Proof.
  intros H. unfold preparation, tl_getInput, tl_getPathInput, tl_getBoolInput in H.
  repeat (rewrite bind_ret_l in H; cbv beta in H).
  rewrite !bind_tl_getVariable in H.
  change (JsString.trim (if JsString.truthy _ then _ else _))
    with (requested_version env) in H.
  open_bind H as logDirectory w1 Elog.
  apply (directory_block_Ok_inv env) in Elog as [-> ->].
  do 7 pass_bind H.
  open_bind H as logFile w9 Efile.
  apply (tl_resolve_2_Ok_inv env) in Efile as (logDir & Hlog & ->).
  pass_bind H.
  destruct (isVersionFormatValid (requested_version env)); [|discriminate H].
  rewrite bind_ret_l in H. injection H as <- <-.
  split; [done|]. split; [done|]. exists logDir. split; [done|].
  cbn [snd]. by rewrite built_arguments.
Qed.

Lemma chooseInstallZipUrl_fs (w w' : World) (out : Outcome (option string)) :
  chooseInstallZipUrl env w = (out, w') → fs w' = fs w.
Proof.
  unfold chooseInstallZipUrl. destruct (JsString.truthy (custom_url env)).
  - rewrite bind_console_log. by intros [= <- <-].
  - rewrite bind_console_log. intros H.
    by apply (getDependencyCheckDownloadUrl_fs env) in H.
Qed.

Lemma conforms_chooseInstallZipUrl (P : Event → Prop) :
  quiet P → (∀ u, P (HttpGet u)) → conforms true P (chooseInstallZipUrl env).
Proof. intros HP HGet. unfold chooseInstallZipUrl. conforms_go. Qed.

End Steps.

(** One stage of a sequence [H] that passes, or ends the sequence. *)
Tactic Notation "stage_step" hyp(H) "as" ident(a) ident(w1) ident(E) :=
  unfold stage at 1;
  match goal with
  | |- match ?m ?w with _ => _ end =>
      let e := fresh "e" in
      destruct (m w) as [[a|e|] w1] eqn:E;
      [ rewrite (bind_Ok _ _ _ _ _ E) in H
      | rewrite (bind_Throw _ _ _ _ _ E) in H; by injection H as <- <-
      | rewrite (bind_OutOfFuel _ _ _ _ E) in H; by injection H as <- <- ]
  end.

(** ** The install step *)

Section Install.
Context (env : Env).


End Install.

(** A stage that returns hands its result to the next one. *)
Lemma stage_Ok {A : Type} (m : M A) (w : World) (out : Outcome unit)
    (w' : World) (next : A → World → Prop) (a : A) (w1 : World) :
  m w = (Ok a, w1) → stage m w out w' next → next a w1.
Proof. unfold stage. by intros ->. Qed.

(** A stage of a sequence in a world that can be computed. *)
Ltac compute_stage H E :=
  match type of H with
  | stage ?m ?w _ _ _ =>
      let r := eval vm_compute in (m w) in
      assert (E : m w = r) by (vm_compute; reflexivity);
      apply (stage_Ok _ _ _ _ _ _ _ E) in H; cbv beta in H
  end.


(** ** What an installation leaves *)

Section Unzipped.
Import Path.
Context (env : Env).


End Unzipped.


(** ** A run that installs the tool *)

Section Installs.
Import Path.
Context (env : Env).

Lemma quiet_calm : quiet calm.
Proof. by intros e _ He Hr. Qed.

Lemma calm_not_Exec (evs : list Event) : Forall calm evs → Forall not_Exec evs.
Proof. intros H. eapply Forall_impl; [exact H|]. by intros e [He _]. Qed.

Lemma calm_not_SetResult (evs : list Event) :
  Forall calm evs → Forall not_SetResult evs.
Proof. intros H. eapply Forall_impl; [exact H|]. by intros e [_ He]. Qed.

Lemma tl_mkdirP_Ok (p : string) (w : World) :
  p ≠ "" → mkdir_error env p = None →
  tl_mkdirP env (Some p) w
  = (Ok tt, {| fs := fs w ++ ancestors p ++ [p]; variables := variables w;
               trace := trace w ++ [MkdirP p] |}).
Proof.
  intros Hp Hmk. destruct p as [|c s]; [done|].
  unfold tl_mkdirP, bind, emit. simpl. by rewrite Hmk.
Qed.

(** The preparation returns when the version is accepted and the two
    directories are determined and can be created. *)
Lemma preparation_Ok (w : World) (logDir exportDir : string) :
  isVersionFormatValid (requested_version env) = true →
  directory_input env w "logDirectory" = Some logDir → logDir ≠ "" →
  directory_input env w "exportDirectory" = Some exportDir → exportDir ≠ "" →
  (∀ p, mkdir_error env p = None) →
  ∃ prepared wp, preparation env w = (Ok prepared, wp).
Proof.
  intros Hvalid Hlog Hlogne Hexport Hexportne Hmk.
  unfold preparation, tl_getInput, tl_getPathInput, tl_getBoolInput.
  repeat (rewrite bind_ret_l; cbv beta).
  rewrite !bind_tl_getVariable.
  change (JsString.trim (if JsString.truthy _ then _ else _))
    with (requested_version env).
  rewrite Hvalid.
  rewrite (bind_Ok _ _ _ _ _ (directory_block_Ok env "logDirectory" w w logDir Hlog)).
  rewrite bind_console_log.
  match goal with
  | |- context [bind (tl_exist (Some logDir))
                  (λ found, bind (if negb found
                                  then bind (console_log ?msg) _ else _)
                              (λ _, ?rest)) ?W] =>
      destruct (ensure_directory env logDir msg rest W Hlogne (Hmk logDir))
        as (w1 & -> & _)
  end.
  rewrite (bind_Ok _ _ _ _ _
             (directory_block_Ok env "exportDirectory" w w1 exportDir Hexport)).
  rewrite bind_console_log.
  match goal with
  | |- context [bind (tl_exist (Some exportDir))
                  (λ found, bind (if negb found
                                  then bind (console_log ?msg) _ else _)
                              (λ _, ?rest)) ?W] =>
      destruct (ensure_directory env exportDir msg rest W Hexportne (Hmk exportDir))
        as (w2 & -> & _)
  end.
  rewrite tl_resolve_2, bind_ret_l.
  destruct (new_DependencyCheckOptionsBuilder_Ok env w2) as [builder Hb].
  rewrite (bind_Ok _ _ _ _ _ Hb), !bind_ret_l.
  by eexists _, _.
Qed.

Lemma getDependencyCheckDownloadUrl_Ok (version : string) (w : World)
    (resp : Response) (info : ReleaseInfo)
    (before after : list (gmap string string)) (asset : gmap string string) :
  (∀ n, http env n (release_url version) = inr resp) →
  json_parse env (body resp) = inr info →
  assets info = Some (before ++ asset :: after) →
  Forall (λ a : gmap string string,
            a !! "content_type" ≠ Some "application/zip") before →
  asset !! "content_type" = Some "application/zip" →
  ∃ w', getDependencyCheckDownloadUrl env version w
        = (Ok (asset !! "browser_download_url"), w')
        ∧ fs w' = fs w.
Proof.
  intros Hhttp Hjson Hassets Hbefore Hasset.
  unfold getDependencyCheckDownloadUrl. rewrite bind_logDebug.
  unfold bind at 1, client_get at 1. rewrite Hhttp.
  unfold readBody. rewrite bind_ret_l. unfold JSON_parse.
  rewrite Hjson, bind_ret_l, Hassets.
  assert (List.find is_zip_asset (before ++ asset :: after) = Some asset) as ->.
  { clear -Hbefore Hasset. induction Hbefore as [|a l Ha _ IH]; simpl.
    - unfold is_zip_asset. by rewrite bool_decide_eq_true_2.
    - unfold is_zip_asset at 1. by rewrite bool_decide_eq_false_2. }
  rewrite bind_logDebug. by eexists.
Qed.

(** The choice of the URL of the archive. *)
Lemma chooseInstallZipUrl_Ok (u : string) (w : World) :
  archive_url_from env u →
  ∃ w', chooseInstallZipUrl env w = (Ok (Some u), w') ∧ fs w' = fs w.
Proof.
  unfold archive_url_from, chooseInstallZipUrl.
  destruct (JsString.truthy (custom_url env)).
  - intros ->. rewrite bind_console_log. by eexists.
  - intros (resp & info & before & asset & after & Hhttp & Hjson & Hassets
            & Hbefore & Hasset & Hu).
    rewrite bind_console_log.
    match goal with
    | |- context [getDependencyCheckDownloadUrl env _ ?W] =>
        destruct (getDependencyCheckDownloadUrl_Ok (requested_version env) W
                    resp info before after asset Hhttp Hjson Hassets Hbefore
                    Hasset) as (w' & Hrun & Hfs)
    end.
    exists w'. by rewrite Hrun, Hu.
Qed.

Lemma cleanDirectory_Ok (dir : string) (w : World) :
  exists_in (fs w) dir = true → (∀ p, rm_error env p = None) →
  ∃ w', cleanDirectory env dir ["**"; "!data"; "!data/**"] w = (Ok tt, w')
        ∧ fs w' = filter (kept_by_clean dir) (fs w).
Proof.
  intros Hdir Hrm.
  destruct (findMatch_clean dir w Hdir) as (files & Hfind & Hfiles).
  destruct (for_each_rmRF env files w Hrm) as (w' & Hrun & Hfs & _ & Ht).
  exists w'. unfold cleanDirectory. rewrite (bind_Ok _ _ _ _ _ Hfind).
  split; [done|]. rewrite Hfs. by apply survivors_kept.
Qed.

(** Requests that all go to one URL, and at least one of them. *)
Lemma requested (url : string) (evs : list Event) :
  Forall (gets_only url) evs → (0 < http_requests evs)%nat →
  HttpGet url ∈ evs.
Proof.
  induction 1 as [|e evs He _ IH]; [unfold http_requests; simpl; lia|].
  rewrite http_requests_cons. destruct (is_HttpGet e) eqn:Hget.
  - intros _. destruct e; try discriminate Hget.
    rewrite (He _ eq_refl). by left.
  - intros Hn. right. apply IH. simpl in Hn. lia.
Qed.

Lemma downloadPackage_Ok (url pathname : string) (resp : Response) (w : World) :
  url_pathname env url = inr pathname →
  (∀ n, http env n url = inr resp) →
  write_error env (path_resolve env [path_basename env pathname]) = None →
  ∃ w' evs,
    downloadPackage env url w
    = (Ok (path_resolve env [path_basename env pathname]), w')
    ∧ fs w' = fs w ++ [path_resolve env [path_basename env pathname]]
    ∧ trace w' = trace w ++ evs ∧ HttpGet url ∈ evs.
Proof.
  intros Hurl Hhttp Hwrite.
  destruct (downloadPackage_spec env url pathname w Hurl)
    as (out & w' & evs & k & Erun & Ht & Hg & _ & _ & Hend).
  destruct Hend as [(_ & Hn & resp' & _ & Hw)|(_ & _ & _ & e & He & _)].
  - rewrite Hwrite in Hw. destruct Hw as (-> & Hfs & _).
    exists w', evs. repeat (split; [done|]). apply requested; [done|lia].
  - by rewrite Hhttp in He.
Qed.

Lemma unzipFromUrl_Ok (url unzipLocation pathname : string) (resp : Response)
    (entries : list string) (w : World) :
  url_pathname env url = inr pathname →
  (∀ n, http env n url = inr resp) →
  write_error env (path_resolve env [path_basename env pathname]) = None →
  zip_extract env (path_resolve env [path_basename env pathname]) unzipLocation
  = inr entries →
  rm_error env (path_resolve env [path_basename env pathname]) = None →
  ∃ w' evs,
    unzipFromUrl env url unzipLocation w = (Ok tt, w')
    ∧ fs w'
      = filter (λ q, ¬ under (path_resolve env [path_basename env pathname]) q)
          (fs w ++ [path_resolve env [path_basename env pathname]] ++ entries)
    ∧ trace w' = trace w ++ evs ∧ HttpGet url ∈ evs.
Proof.
  intros Hurl Hhttp Hwrite Hzip Hrm.
  destruct (downloadPackage_Ok url pathname resp w Hurl Hhttp Hwrite)
    as (w1 & evs1 & Hdl & Hfs1 & Ht1 & Hget).
  unfold unzipFromUrl. rewrite (bind_Ok _ _ _ _ _ Hdl). unfold bind at 1.
  rewrite unzipFileTo_eq, Hzip, bind_logDebug.
  rewrite (bind_Ok _ _ _ _ _ (tl_rmRF_Ok _ _ _ Hrm)), logDebug_eq.
  eexists _, (evs1 ++ _). split; [reflexivity|]. simpl.
  split; [by rewrite Hfs1, <- app_assoc|]. split.
  - rewrite Ht1, <- !app_assoc. reflexivity.
  - apply elem_of_app. by left.
Qed.

Lemma script_installed (zip script : string) (files entries : list string) :
  script ≠ "" → script ∈ entries → ¬ under zip script →
  ∀ w, fs w = filter (λ q, ¬ under zip q) (files ++ [zip] ++ entries) →
       (tl_exist (Some script) w).1 = Ok true.
Proof.
  intros Hne Hin Hout w Hfs. destruct script as [|c s]; [done|].
  unfold tl_exist. simpl. f_equal. unfold exists_in.
  apply bool_decide_eq_true, Exists_exists. exists (String c s).
  split; [|done]. rewrite Hfs. apply list_elem_of_filter. split; [done|].
  rewrite !elem_of_app. right. by right.
Qed.

End Installs.

(** ** The runs of the script *)

Section Script.
Context (env : Env).

Lemma conforms_bind_val {A B} (P : Event → Prop) (Q : A → Prop)
    (m : M A) (k : A → M B) :
  conforms true P m →
  (∀ w a w1, m w = (Ok a, w1) → Q a) →
  (∀ a, Q a → conforms true P (k a)) →
  conforms true P (bind m k).
Proof.
  intros Hm HQ Hk w. unfold bind.
  destruct (Hm w) as [Ha (evs1 & Ht1 & H1)].
  destruct (m w) as [[a|e|] w1] eqn:E; simpl in *; [|by eauto..].
  destruct (Hk a (HQ _ _ _ E) w1) as [Hb (evs2 & Ht2 & H2)].
  split; [done|]. exists (evs1 ++ evs2).
  split; [by rewrite Ht2, Ht1, app_assoc | by apply Forall_app].
Qed.

Lemma quiet_runs_script (script line : string) : quiet (runs_script script line).
Proof. intros e _ He _ tool args opts ->. discriminate He. Qed.

Lemma runs_script_HttpGet (script line u : string) :
  runs_script script line (HttpGet u).
Proof. by intros tool args opts. Qed.

(** The update step runs nothing but the script that it has located:
    with [--version], and with the argument line of the options. *)
Lemma execs_update (dir : string) (hasLocal : bool)
    (options : DependencyCheckOptions.t) :
  conforms true
    (runs_script (script_of env dir)
       (DependencyCheckOptions.getExecutableArguments options))
    (WithUpdate.updateDependencyCheckData env dir hasLocal options).
Proof.
  pose proof (quiet_runs_script (script_of env dir)
                (DependencyCheckOptions.getExecutableArguments options)) as HP.
  unfold WithUpdate.updateDependencyCheckData.
  apply (conforms_bind_val _ (λ p, p = script_of env dir)).
  - by apply conforms_getDependencyCheckScriptPath.
  - intros w p w1. apply getDependencyCheckScriptPath_Ok_inv.
  - intros p ->. cbv zeta.
    do 4 (apply conforms_bind; [conforms_go|intros _]).
    apply conforms_bind; [|intros _].
    { apply conforms_tool_exec. intros tool args opts [= <- <- <-].
      split; [done|]. by left. }
    apply conforms_bind; [|intros _].
    { destruct hasLocal; simpl; [apply conforms_ret|].
      apply conforms_may_throw. by apply conforms_removeLockFile. }
    apply conforms_bind; [|intros; apply conforms_ret].
    unfold WithUpdate.runDependencyCheck.
    apply conforms_bind; [|intros; conforms_go].
    apply conforms_tool_exec. intros tool args opts [= <- <- <-].
    split; [done|]. by right.
Qed.

(** The update step up to the smoke test, once the script is located. *)
Lemma updateDependencyCheckData_located (dir : string) (hasLocal : bool)
    (options : DependencyCheckOptions.t) (w : World) :
  (tl_exist (Some (script_of env dir)) w).1 = Ok true →
  ∃ w0 evs0,
    trace w0 = trace w ++ evs0 ∧ Forall calm evs0 ∧ fs w0 = fs w
    ∧ WithUpdate.updateDependencyCheckData env dir hasLocal options w
      = (tool_exec env (script_of env dir) (Arg "--version")
           default_exec_options ;;
         (if negb hasLocal then WithUpdate.removeLockFile env dir
          else ret tt) ;;
         exitCode <- WithUpdate.runDependencyCheck env (script_of env dir)
                       (DependencyCheckOptions.getExecutableArguments options) ;;
         ret tt)%task w0.
Proof.
  intros Hlocated. unfold WithUpdate.updateDependencyCheckData.
  rewrite (bind_Ok _ _ _ _ _
             (getDependencyCheckScriptPath_located env dir w Hlocated)).
  cbv zeta. rewrite !bind_console_log, bind_tl_setVariable.
  match goal with
  | |- context [bind (tool_exec env _ _ _) _ ?W] =>
      exists W,
        [ConsoleLog ("Dependency Check script set to " +:+ script_of env dir);
         ConsoleLog "Invoking Dependency Check data update...";
         ConsoleLog ("Path: " +:+ script_of env dir);
         ConsoleLog ("Arguments: "
                     +:+ DependencyCheckOptions.getExecutableArguments options);
         SetVariable "JAVA_OPTS" "-Xss8192k"]
  end.
  split; [simpl; by rewrite <- !app_assoc|].
  split; [by repeat constructor|]. by split.
Qed.

(** The outcomes of the update step once the script is located: the
    smoke test is run; when it does not pass, the step throws with the
    files as they were and nothing else is run; when it passes, the
    update is run, and the step returns when the update could be
    started. *)
Lemma updateDependencyCheckData_outcome (dir : string)
    (options : DependencyCheckOptions.t) (w : World) :
  let script := script_of env dir in
  let line := DependencyCheckOptions.getExecutableArguments options in
  let smoke := process env (processes (trace w)) script (Arg "--version") in
  let update := process env (S (processes (trace w))) script (Line line) in
  (tl_exist (Some script) w).1 = Ok true →
  ∃ out w' evs,
    WithUpdate.updateDependencyCheckData env dir false options w = (out, w')
    ∧ trace w' = trace w ++ evs
    ∧ Exec script (Arg "--version") default_exec_options ∈ evs
    ∧ (¬ smoke_test_passes smoke →
       (∃ e, out = Throw e) ∧ fs w' = fs w
       ∧ ∀ tool args opts, Exec tool args opts ∈ evs → args = Arg "--version")
    ∧ (smoke_test_passes smoke →
       Exec script (Line line)
         {| failOnStdErr := false; ignoreReturnCode := true |} ∈ evs
       ∧ (processError update = None → out = Ok tt)).
Proof.
  intros script line smoke update Hlocated.
  destruct (updateDependencyCheckData_located dir false options w Hlocated)
    as (w0 & evs0 & Ht0 & Hc0 & Hfs0 & ->).
  fold script line.
  assert (Hn0 : processes (trace w0) = processes (trace w)).
  { rewrite Ht0, processes_app, (processes_quiet evs0); [lia|].
    by apply calm_not_Exec. }
  assert (Hsmoke_only :
            ∀ tool args opts,
              Exec tool args opts
              ∈ evs0 ++ [Exec script (Arg "--version") default_exec_options] →
              args = Arg "--version").
  { intros tool args opts [Hin|Hin]%elem_of_app.
    - rewrite Forall_forall in Hc0. by destruct (Hc0 _ Hin) as [[=] _].
    - apply list_elem_of_singleton in Hin. by injection Hin as _ -> _. }
  unfold bind at 1. rewrite tool_exec_eq. cbv zeta. rewrite Hn0.
  change (process env (processes (trace w)) script (Arg "--version"))
    with smoke.
  unfold smoke_test_passes.
  destruct (processError smoke) as [e|] eqn:He.
  { eexists _, _, (evs0 ++ [_]). split; [reflexivity|]. simpl.
    split; [by rewrite Ht0, <- app_assoc|].
    split; [apply elem_of_app; right; by left|].
    split; [|by intros [[=] _]].
    intros _. split; [by eexists|]. by split. }
  destruct (processExitCode smoke =? 0)%Z eqn:Hc; simpl.
  2:{ eexists _, _, (evs0 ++ [_]). split; [reflexivity|]. simpl.
      split; [by rewrite Ht0, <- app_assoc|].
      split; [apply elem_of_app; right; by left|].
      split; [|intros [_ Hz]; rewrite Hz in Hc; discriminate Hc].
      intros _. split; [by eexists|]. by split. }
  rewrite andb_false_r.
  set (w1 := add_events w0 _).
  destruct (conforms_false_Ok calm (WithUpdate.removeLockFile env dir) w1)
    as ([] & w2 & evs2 & E2 & Ht2 & Hq2).
  { apply conforms_removeLockFile. apply quiet_calm. }
  rewrite (bind_Ok _ _ _ _ _ E2).
  assert (Hn2 : processes (trace w2) = S (processes (trace w))).
  { rewrite Ht2. subst w1. simpl.
    rewrite !processes_app, Hn0, (processes_quiet evs2)
      by (by apply calm_not_Exec).
    unfold processes. simpl. lia. }
  unfold WithUpdate.runDependencyCheck.
  unfold bind at 1. unfold bind at 1. rewrite tool_exec_eq. cbv zeta.
  rewrite Hn2. fold update. simpl.
  destruct (processError update) as [e|] eqn:He2.
  - eexists _, _, (evs0 ++ [_] ++ evs2 ++ [_]). split; [reflexivity|]. simpl.
    rewrite Ht2. subst w1. simpl. rewrite Ht0, <- !app_assoc. simpl.
    split; [done|].
    split; [apply elem_of_app; right; by left|].
    split; [intros Hnot; exfalso; apply Hnot; split; [done|by apply Z.eqb_eq]|].
    intros _. split; [|done].
    apply elem_of_app. right. right. apply elem_of_app. right. by left.
  - rewrite !andb_false_r. simpl.
    eexists _, _, (evs0 ++ [_] ++ evs2 ++ [_; _]). split; [reflexivity|]. simpl.
    rewrite Ht2. subst w1. simpl. rewrite Ht0, <- !app_assoc. simpl.
    split; [done|].
    split; [apply elem_of_app; right; by left|].
    split; [intros Hnot; exfalso; apply Hnot; split; [done|by apply Z.eqb_eq]|].
    intros _. split; [|done].
    apply elem_of_app. right. right. apply elem_of_app. right. by left.
Qed.

End Script.

(** ** The run with the install path unset *)

Section Unset.
Import Path.
Context (env : Env).


(** The [try] block of the revision with the update step, when all
    that the installation needs is there: it ends as the update step
    does, which starts with the script in place, after the archive has
    been requested, and before any process has been run. *)
Lemma WithUpdate_run_try_installs (w : World)
    (logDir exportDir u pathname : string) (resp : Response)
    (entries : list string) :
  isVersionFormatValid (requested_version env) = true →
  install_path_unset env w →
  directory_input env w "logDirectory" = Some logDir → logDir ≠ "" →
  directory_input env w "exportDirectory" = Some exportDir → exportDir ≠ "" →
  path_resolve env ["."; DCConst.DependencyCheckFolderName] ≠ "" →
  (∀ p, mkdir_error env p = None) → (∀ p, rm_error env p = None) →
  archive_url_from env u →
  url_pathname env u = inr pathname →
  (∀ n, http env n u = inr resp) →
  write_error env (path_resolve env [path_basename env pathname]) = None →
  zip_extract env (path_resolve env [path_basename env pathname])
    (path_resolve env ["./"]) = inr entries →
  script_of env (path_resolve env ["."; DCConst.DependencyCheckFolderName])
    ∈ entries →
  script_of env (path_resolve env ["."; DCConst.DependencyCheckFolderName]) ≠ "" →
  ¬ under (path_resolve env [path_basename env pathname])
      (script_of env (path_resolve env ["."; DCConst.DependencyCheckFolderName])) →
  ∃ options w5 evs5,
    WithUpdate.run_try env w
    = WithUpdate.updateDependencyCheckData env
        (path_resolve env ["."; DCConst.DependencyCheckFolderName]) false
        options w5
    ∧ trace w5 = trace w ++ evs5 ∧ Forall calm evs5 ∧ HttpGet u ∈ evs5
    ∧ (tl_exist
         (Some (script_of env
                  (path_resolve env ["."; DCConst.DependencyCheckFolderName])))
         w5).1 = Ok true
    ∧ DependencyCheckOptions.getExecutableArguments options
      = run_update_line env logDir.
Proof.
  intros Hvalid Hunset Hlog Hlogne Hexport Hexportne Hinstall Hmk Hrm Hfrom
    Hurl Hhttp Hwrite Hzip Hscript Hscriptne Hout.
  destruct (preparation_Ok env w logDir exportDir Hvalid Hlog Hlogne Hexport
              Hexportne Hmk) as (prepared & wp & Eprep).
  destruct (preparation_Ok_inv env _ _ _ Eprep)
    as (Hs & _ & logDir' & Hlog' & Hline).
  rewrite Hlog in Hlog'. injection Hlog' as <-.
  pose proof (conforms_continues true calm _ _ _ _
                (conforms_preparation env calm quiet_calm) Eprep) as Hc0.
  rewrite run_try_prepared, (bind_Ok _ _ _ _ _ Eprep). cbv zeta.
  unfold install_path_unset in Hunset.
  rewrite Hs, Hunset, tl_resolve_2, bind_ret_l.
  set (install := path_resolve env ["."; DCConst.DependencyCheckFolderName]) in *.
  pose proof (tl_mkdirP_Ok env install wp Hinstall (Hmk install)) as Emk.
  set (w1 := {| fs := fs wp ++ ancestors install ++ [install];
                variables := variables wp;
                trace := trace wp ++ [MkdirP install] |}) in Emk.
  destruct (tl_mkdirP_Ok_inv env install wp w1 Emk) as (_ & _ & Hex1).
  pose proof (conforms_continues true calm _ _ _ _
                (conforms_tl_mkdirP env calm quiet_calm _) Emk) as Hc1.
  rewrite (bind_Ok _ _ _ _ _ Emk).
  destruct (chooseInstallZipUrl_Ok env u w1 Hfrom) as (w2 & Echoose & Hfs2).
  pose proof (conforms_continues true calm _ _ _ _
                (conforms_chooseInstallZipUrl env calm quiet_calm
                   (λ _, conj eq_refl eq_refl)) Echoose) as Hc2.
  rewrite (bind_Ok _ _ _ _ _ Echoose).
  rewrite <- Hfs2 in Hex1.
  destruct (cleanDirectory_Ok env install w2 Hex1 Hrm) as (w3 & Eclean & Hfs3).
  pose proof (conforms_continues true calm _ _ _ _
                (conforms_cleanDirectory env calm quiet_calm _ _) Eclean) as Hc3.
  rewrite (bind_Ok _ _ _ _ _ Eclean), tl_resolve_1, bind_ret_l.
  change (JsString.show (Some u)) with u.
  destruct (unzipFromUrl_Ok env u (path_resolve env ["./"]) pathname resp
              entries w3 Hurl Hhttp Hwrite Hzip (Hrm _))
    as (w4 & evs4 & Eunzip & Hfs4 & Ht4 & Hget).
  assert (Hc4 : Forall calm evs4).
  { destruct (conforms_continues true calm _ _ _ _
                (conforms_unzipFromUrl env calm quiet_calm u _
                   (conj eq_refl eq_refl)) Eunzip) as (evs & Ht & Hq).
    rewrite Ht4 in Ht. apply app_inv_head in Ht. by subst. }
  rewrite (bind_Ok _ _ _ _ _ Eunzip).
  destruct (continues_trans _ _ _ _ Hc0
              (continues_trans _ _ _ _ Hc1 (continues_trans _ _ _ _ Hc2 Hc3)))
    as (evs3 & Ht3 & Hq3).
  exists prepared.2, w4, (evs3 ++ evs4).
  split; [done|]. split; [by rewrite Ht4, Ht3, app_assoc|].
  split; [by apply Forall_app|]. split; [apply elem_of_app; by right|].
  split; [|done].
  by apply (script_installed (path_resolve env [path_basename env pathname])
              (script_of env install) (fs w3) entries).
Qed.

(** X20. The revision with the update step installs the tool and then
    tests it.  With an accepted version, the install path unset, log and
    export directories that are determined, no failing creation or
    deletion of a path, and an archive URL (the custom one, or the one of
    the first zip asset of the release) that parses and is served, with
    an archive that can be written and extracted and contains the script
    of the platform: [run] returns, after having requested the archive
    and run the script with [--version].  When that smoke test does not
    pass (the script cannot be started, or exits with a code other than
    0), the task result is set to [Failed], the script is in place, and
    nothing else has been run.  When it passes, the update has been run
    with its argument line, and no task result is set when the update
    could be started. *)
Theorem WithUpdate_run_installs_then_tests (w : World)
    (logDir exportDir u pathname : string) (resp : Response)
    (entries : list string) :
  let script :=
    script_of env (path_resolve env ["."; DCConst.DependencyCheckFolderName]) in
  let smoke := process env (processes (trace w)) script (Arg "--version") in
  let update := process env (S (processes (trace w))) script
                  (Line (run_update_line env logDir)) in
  isVersionFormatValid (requested_version env) = true →
  install_path_unset env w →
  directory_input env w "logDirectory" = Some logDir → logDir ≠ "" →
  directory_input env w "exportDirectory" = Some exportDir → exportDir ≠ "" →
  path_resolve env ["."; DCConst.DependencyCheckFolderName] ≠ "" →
  (∀ p, mkdir_error env p = None) → (∀ p, rm_error env p = None) →
  archive_url_from env u →
  url_pathname env u = inr pathname →
  (∀ n, http env n u = inr resp) →
  write_error env (path_resolve env [path_basename env pathname]) = None →
  zip_extract env (path_resolve env [path_basename env pathname])
    (path_resolve env ["./"]) = inr entries →
  script ∈ entries →
  script ≠ "" →
  ¬ under (path_resolve env [path_basename env pathname]) script →
  ∃ w' evs,
    WithUpdate.run env w = (Ok tt, w')
    ∧ trace w' = trace w ++ evs
    ∧ HttpGet u ∈ evs
    ∧ Exec script (Arg "--version") default_exec_options ∈ evs
    ∧ (¬ smoke_test_passes smoke →
       (∃ msg, SetResult Failed msg true ∈ evs)
       ∧ exists_in (fs w') script = true
       ∧ ∀ tool args opts, Exec tool args opts ∈ evs → args = Arg "--version")
    ∧ (smoke_test_passes smoke →
       Exec script (Line (run_update_line env logDir))
         {| failOnStdErr := false; ignoreReturnCode := true |} ∈ evs
       ∧ (processError update = None → Forall not_SetResult evs)).
Proof.
  intros script smoke update Hvalid Hunset Hlog Hlogne Hexport Hexportne
    Hinstall Hmk Hrm Hfrom Hurl Hhttp Hwrite Hzip Hscript Hscriptne Hout.
  destruct (WithUpdate_run_try_installs (starting w) logDir exportDir u
              pathname resp entries Hvalid Hunset Hlog Hlogne Hexport
              Hexportne Hinstall Hmk Hrm Hfrom Hurl Hhttp Hwrite Hzip Hscript
              Hscriptne Hout)
    as (options & w5 & evs5 & Htry & Ht5 & Hc5 & Hget & Hlocated & Hline).
  destruct (updateDependencyCheckData_outcome env _ options w5 Hlocated)
    as (out & w6 & evs6 & Hupdate & Ht6 & Hexec & Hfails & Hpasses).
  rewrite Hline in Hpasses. rewrite Hupdate in Htry.
  assert (Hn5 : processes (trace w5) = processes (trace w)).
  { rewrite Ht5. unfold starting. simpl.
    rewrite !processes_app, (processes_quiet evs5) by (by apply calm_not_Exec).
    unfold processes. simpl. lia. }
  rewrite Hn5 in Hfails, Hpasses. fold script smoke update in Hfails, Hpasses.
  fold script in Hexec, Hlocated.
  assert (Hquiet6 : Forall not_SetResult evs6 ∧ out ≠ OutOfFuel).
  { destruct (conforms_trace true not_SetResult _ _ _ _
                (conforms_updateDependencyCheckData env not_SetResult
                   quiet_not_SetResult (λ _ _ _, eq_refl) _ false options)
                Hupdate) as [Ha (evs & Ht & Hq)].
    rewrite Ht6 in Ht. apply app_inv_head in Ht. subst evs.
    split; [done|]. by intros ->. }
  destruct Hquiet6 as [Hquiet6 Hfuel].
  assert (Hhas : exists_in (fs w5) script = true).
  { revert Hlocated. unfold tl_exist. simpl. destruct script; [done|].
    by intros [= ->]. }
  unfold WithUpdate.run. rewrite bind_console_log.
  change (add_events w [ConsoleLog "Starting Dependency Check download..."])
    with (starting w).
  unfold bind at 1, try_catch. rewrite Htry.
  destruct out as [[]|e|]; [| |done].
  - eexists _, (ConsoleLog "Starting Dependency Check download..."
                :: evs5 ++ evs6
                ++ [ConsoleLog "Ending Dependency Check download..."]).
    split; [reflexivity|]. simpl.
    split.
    { rewrite Ht6, Ht5. unfold starting. simpl. by rewrite <- !app_assoc. }
    split; [right; apply elem_of_app; by left|].
    split; [right; rewrite !elem_of_app; right; by left|].
    split.
    { intros Hnot. by destruct (Hfails Hnot) as ([e He] & _). }
    intros Hp. destruct (Hpasses Hp) as [Hin _].
    split; [right; rewrite !elem_of_app; right; by left|].
    intros _. constructor; [done|]. rewrite !Forall_app.
    split; [by apply calm_not_SetResult|]. split; [done|].
    by repeat constructor.
  - unfold bind, console_log, tl_setResult, emit. simpl.
    eexists _, (ConsoleLog "Starting Dependency Check download..."
                :: evs5 ++ evs6
                ++ [ConsoleLog (message e); SetResult Failed (message e) true;
                    ConsoleLog "Ending Dependency Check download..."]).
    split; [reflexivity|]. simpl.
    split.
    { rewrite Ht6, Ht5. unfold starting. simpl. by rewrite <- !app_assoc. }
    split; [right; apply elem_of_app; by left|].
    split; [right; rewrite !elem_of_app; right; by left|].
    split.
    + intros Hnot. destruct (Hfails Hnot) as (_ & Hfs6 & Honly).
      split.
      { exists (message e). right. rewrite !elem_of_app. right. right.
        right. by left. }
      split; [by rewrite Hfs6|].
      intros tool args opts Hin.
      apply elem_of_cons in Hin as [[=]|Hin].
      rewrite !elem_of_app in Hin. destruct Hin as [Hin|[Hin|Hin]].
      * rewrite Forall_forall in Hc5. by destruct (Hc5 _ Hin) as [[=] _].
      * by eapply Honly.
      * repeat (apply elem_of_cons in Hin as [[=]|Hin]).
        by apply elem_of_nil in Hin.
    + intros Hp. destruct (Hpasses Hp) as [Hin Hok].
      split; [right; rewrite !elem_of_app; right; by left|].
      intros Hstart. by specialize (Hok Hstart).
Qed.

Lemma DownloadOnly_run_try_Ok (w : World) (u pathname : string)
    (resp : Response) (entries : list string) :
  isVersionFormatValid (requested_version env) = true →
  install_path_unset env w →
  path_resolve env ["./dependency-check"] ≠ "" →
  exists_in (fs w) (path_resolve env ["./dependency-check"]) = true →
  (∀ p, rm_error env p = None) →
  archive_url_from env u →
  url_pathname env u = inr pathname →
  (∀ n, http env n u = inr resp) →
  write_error env (path_resolve env [path_basename env pathname]) = None →
  zip_extract env (path_resolve env [path_basename env pathname])
    (path_resolve env ["./"]) = inr entries →
  ∃ w',
    DownloadOnly.run_try env w = (Ok tt, w')
    ∧ fs w'
      = filter (λ q, ¬ under (path_resolve env [path_basename env pathname]) q)
          (filter (kept_by_clean (path_resolve env ["./dependency-check"])) (fs w)
           ++ [path_resolve env [path_basename env pathname]] ++ entries).
Proof.
  intros Hvalid Hunset Hinstall Hthere Hrm Hfrom Hurl Hhttp Hwrite Hzip.
  unfold DownloadOnly.run_try, tl_getInput, tl_getPathInput.
  repeat (rewrite bind_ret_l; cbv beta).
  rewrite bind_tl_getVariable.
  fold (requested_version env). fold (custom_url env).
  rewrite Hvalid, bind_ret_l.
  unfold install_path_unset in Hunset. rewrite Hunset.
  rewrite tl_resolve_1, bind_ret_l.
  change (if JsString.truthy (custom_url env) then _ else _)
    with (chooseInstallZipUrl env).
  set (install := path_resolve env ["./dependency-check"]) in *.
  assert (Hcheck : tl_checkPath install "Dependency Check installer" w
                   = (Ok tt, w)).
  { unfold tl_checkPath, bind, tl_exist. destruct install; [done|].
    by rewrite Hthere. }
  rewrite (bind_Ok _ _ _ _ _ Hcheck).
  destruct (chooseInstallZipUrl_Ok env u w Hfrom) as (w3 & Echoose & Hfs3).
  rewrite (bind_Ok _ _ _ _ _ Echoose).
  rewrite <- Hfs3 in Hthere.
  destruct (cleanDirectory_Ok env install w3 Hthere Hrm) as (w4 & Eclean & Hfs4).
  rewrite (bind_Ok _ _ _ _ _ Eclean), tl_resolve_1, bind_ret_l.
  change (JsString.show (Some u)) with u.
  destruct (unzipFromUrl_Ok env u (path_resolve env ["./"]) pathname resp
              entries w4 Hurl Hhttp Hwrite Hzip (Hrm _))
    as (w5 & evs5 & Eunzip & Hfs5 & _).
  exists w5. split; [exact Eunzip|]. by rewrite Hfs5, Hfs4, Hfs3.
Qed.

(** X21. What a run of the download-only revision leaves behind when
    all goes well.  With an accepted version, the install path unset, an
    installer folder that is there, no failing deletion, and an archive
    that is chosen, served, written and extracted, [run] returns without
    setting a task result, and the files are then: those of before
    without the old installation (its [data] folder apart), and what the
    archive contained; the archive itself is gone. *)
Theorem DownloadOnly_run_succeeds (w : World) (u pathname : string)
    (resp : Response) (entries : list string) :
  isVersionFormatValid (requested_version env) = true →
  install_path_unset env w →
  path_resolve env ["./dependency-check"] ≠ "" →
  exists_in (fs w) (path_resolve env ["./dependency-check"]) = true →
  (∀ p, rm_error env p = None) →
  archive_url_from env u →
  url_pathname env u = inr pathname →
  (∀ n, http env n u = inr resp) →
  write_error env (path_resolve env [path_basename env pathname]) = None →
  zip_extract env (path_resolve env [path_basename env pathname])
    (path_resolve env ["./"]) = inr entries →
  ∃ w' evs,
    DownloadOnly.run env w = (Ok tt, w')
    ∧ trace w' = trace w ++ evs
    ∧ Forall not_SetResult evs
    ∧ fs w'
      = filter (λ q, ¬ under (path_resolve env [path_basename env pathname]) q)
          (filter (kept_by_clean (path_resolve env ["./dependency-check"])) (fs w)
           ++ [path_resolve env [path_basename env pathname]] ++ entries).
Proof.
  intros Hvalid Hunset Hinstall Hthere Hrm Hfrom Hurl Hhttp Hwrite Hzip.
  destruct (DownloadOnly_run_try_Ok (starting w) u pathname resp entries
              Hvalid Hunset Hinstall Hthere Hrm Hfrom Hurl Hhttp Hwrite Hzip)
    as (w1 & Htry & Hfs).
  pose proof Htry as Hgrows.
  eapply (conforms_trace true not_SetResult) in Hgrows
    as [_ (evs & Ht & Hquiet)];
    [|apply conforms_DownloadOnly_run_try; auto with conforms; done].
  exists (add_events w1 [ConsoleLog "Ending Dependency Check download..."]),
    (ConsoleLog "Starting Dependency Check download..." :: evs
     ++ [ConsoleLog "Ending Dependency Check download..."]).
  split; [|split; [|split]].
  - unfold DownloadOnly.run. rewrite bind_console_log.
    unfold bind at 1, try_catch.
    change (add_events w [ConsoleLog "Starting Dependency Check download..."])
      with (starting w).
    by rewrite Htry.
  - simpl. rewrite Ht. unfold starting. simpl. by rewrite <- !app_assoc.
  - constructor; [done|]. apply Forall_app. split; [done|]. by repeat constructor.
  - exact Hfs.
Qed.

End Unset.


(** X20, on a POSIX agent: the archive is requested and the script is
    installed, but it cannot be run, and the run ends with the task
    result [Failed]. *)
Lemma WithUpdate_run_installs_then_tests_witness :
  ∃ w' evs,
    WithUpdate.run Example.env Example.world = (Ok tt, w')
    ∧ trace w' = trace Example.world ++ evs
    ∧ HttpGet Example.zipUrl ∈ evs
    ∧ Exec "/agent/_work/1/s/dependency-check/bin/dependency-check.sh"
        (Arg "--version") default_exec_options ∈ evs
    ∧ (∃ msg, SetResult Failed msg true ∈ evs)
    ∧ exists_in (fs w')
        "/agent/_work/1/s/dependency-check/bin/dependency-check.sh" = true
    ∧ ∀ tool args opts, Exec tool args opts ∈ evs → args = Arg "--version".
Proof.
  destruct (WithUpdate_run_installs_then_tests Example.env Example.world
              "/agent/_work/1/a/dependency-check"
              "/agent/_work/1/a/dependency-check"
              Example.zipUrl "/dl/dependency-check-8.0.0-release.zip"
              {| body := "content of " +:+ Example.zipUrl |}
              ["/agent/_work/1/s/dependency-check/bin";
               "/agent/_work/1/s/dependency-check/bin/dependency-check.sh"])
    as (w' & evs & Hrun & Ht & Hget & Hexec & Hfails & _).
  - vm_compute. reflexivity.
  - vm_compute. reflexivity.
  - vm_compute. reflexivity.
  - discriminate.
  - vm_compute. reflexivity.
  - discriminate.
  - vm_compute. discriminate.
  - reflexivity.
  - reflexivity.
  - exists {| body := "content of " +:+ release_url (requested_version Example.env) |},
      Example.release, [], Example.zip_asset, [Example.gzip_asset].
    repeat split; [constructor|vm_compute; reflexivity..].
  - vm_compute. reflexivity.
  - reflexivity.
  - reflexivity.
  - vm_compute. reflexivity.
  - vm_compute. repeat first [left | right].
  - vm_compute. discriminate.
  - intros [k Hk]. vm_compute in Hk. discriminate Hk.
  - exists w', evs. do 4 (split; [assumption|]).
    apply Hfails. vm_compute. intros [H _]. discriminate H.
Defined.

(** X21, on the example agent with an old installation: the data base
    and the sources are kept, the old lock file is gone, the new script
    is there and the archive is not. *)
Lemma DownloadOnly_run_succeeds_witness :
  ∃ w' evs,
    DownloadOnly.run Example.env Stale.world = (Ok tt, w')
    ∧ trace w' = trace Stale.world ++ evs
    ∧ Forall not_SetResult evs
    ∧ fs w'
      = filter (λ q, ¬ Path.under "/agent/_work/1/s/dependency-check-8.0.0-release.zip" q)
          (filter (kept_by_clean "/agent/_work/1/s/dependency-check")
             (fs Stale.world)
           ++ ["/agent/_work/1/s/dependency-check-8.0.0-release.zip"]
           ++ ["/agent/_work/1/s/dependency-check/bin";
               "/agent/_work/1/s/dependency-check/bin/dependency-check.sh"]).
Proof.
  apply (DownloadOnly_run_succeeds Example.env Stale.world
           Example.zipUrl "/dl/dependency-check-8.0.0-release.zip"
           {| body := "content of " +:+ Example.zipUrl |}
           ["/agent/_work/1/s/dependency-check/bin";
            "/agent/_work/1/s/dependency-check/bin/dependency-check.sh"]).
  - vm_compute. reflexivity.
  - vm_compute. reflexivity.
  - vm_compute. discriminate.
  - vm_compute. reflexivity.
  - reflexivity.
  - exists {| body := "content of " +:+ release_url (requested_version Example.env) |},
      Example.release, [], Example.zip_asset, [Example.gzip_asset].
    repeat split; [constructor|vm_compute; reflexivity..].
  - vm_compute. reflexivity.
  - reflexivity.
  - reflexivity.
  - vm_compute. reflexivity.
Defined.
